(** * Alectryon: serializers, prover-output cache and pipeline resolution

    A shallow embedding of [alectryon/json.py] (the three structural
    serializers, [validate_inputs], [Cache], [FileCacheSet]) and of the
    command line of [alectryon/cli.py] (the resolution of pipelines, the
    processing of arguments, the run of the steps and the naming of the
    output), together with the properties their design document states
    about them and further properties read off the code.

    Python values are modelled by the inductive type [value]; exceptions by
    the error constructor of [result]; the local tables the serializers
    thread through their recursion by explicit state passing; objects with
    their identity, where the pickler tells them apart, by [Objects.obj]. *)

From Stdlib Require Import ZArith String Ascii List.
From stdpp Require Import gmap strings list fin_maps sorting.

Local Open Scope Z_scope.
Local Open Scope string_scope.
Local Open Scope list_scope.

(** ** Python values *)

(** The eight classes registered in [TYPE_OF_ALIASES]. *)
Inductive etype : Type :=
| TText | THypothesis | TGoal | TMessage
| TSentence | TGoals | TMessages | TRichSentence.

Global Instance etype_eq_dec : EqDecision etype.
Proof. solve_decision. Defined.

(** The fragment of Python's object universe the module handles: [None],
    integers, strings, lists, tuples, dictionaries with string keys (kept as
    association lists in insertion order), and instances of the registered
    named-tuple classes.  A named tuple is a tag with its positional
    values. *)
#[local] Unset Elimination Schemes.
Inductive value : Type :=
| VNone
| VInt (z : Z)
| VStr (s : string)
| VList (l : list value)
| VTuple (l : list value)
| VDict (d : list (string * value))
| VEnt (t : etype) (vs : list value).
#[local] Set Elimination Schemes.

Abbreviation dict := (list (string * value)).

(** Exceptions the modelled code can raise. *)
Inductive pyerr : Type :=
| AssertionError
| TypeError
| KeyError
| IndexError
| AttributeError
| ValueError (msg : string)
| ArgumentTypeError (msg : string)
| ParserError (msg : string)
| ProverError (msg : string).

Inductive result (A : Type) : Type :=
| Ok (a : A)
| Raise (e : pyerr).
Arguments Ok {A} a.
Arguments Raise {A} e.

Global Instance result_ret : MRet result := fun _ a => Ok a.
Global Instance result_bind : MBind result := fun _ _ k r =>
  match r with
  | Ok a => k a
  | Raise e => Raise e
  end.
Global Instance result_fmap : FMap result := fun _ _ f r =>
  match r with
  | Ok a => Ok (f a)
  | Raise e => Raise e
  end.

(** [assert b] *)
Definition assert (b : bool) : result unit :=
  if b then Ok tt else Raise AssertionError.

(** ** Traversals *)

Section traversals.
Context {A B : Type}.

(** [[f(x) for x in l]], left to right, stopping at the first exception. *)
Section pure_state.
Variable f : A -> result B.

Fixpoint mapR (l : list A) : result (list B) :=
  match l with
  | [] => Ok []
  | x :: xs =>
      y ← f x;
      ys ← mapR xs;
      Ok (y :: ys)
  end.

(** [{k: f(v) for k, v in d}] over the items in the order given. *)
Fixpoint mapR_items (d : list (string * A)) : result (list (string * B)) :=
  match d with
  | [] => Ok []
  | (k, x) :: r =>
      y ← f x;
      ys ← mapR_items r;
      Ok ((k, y) :: ys)
  end.
End pure_state.

(** The same comprehensions when [f] reads and extends a table. *)
Section with_state.
Context {S : Type}.
Variable f : A -> S -> result (B * S).

Fixpoint mapS (l : list A) (s : S) : result (list B * S) :=
  match l with
  | [] => Ok ([], s)
  | x :: xs =>
      '(y, s1) ← f x s;
      '(ys, s2) ← mapS xs s1;
      Ok (y :: ys, s2)
  end.

(** Pairs every value of [d] with the computation [f] runs on it. *)
Fixpoint delay_items (d : list (string * A))
  : list (string * (S -> result (B * S))) :=
  match d with
  | [] => []
  | (k, x) :: r => (k, f x) :: delay_items r
  end.
End with_state.

(** Runs delayed computations in list order. *)
Fixpoint run_items {S : Type} (d : list (string * (S -> result (B * S)))) (s : S)
  : result (list (string * B) * S) :=
  match d with
  | [] => Ok ([], s)
  | (k, c) :: r =>
      '(y, s1) ← c s;
      '(ys, s2) ← run_items r s1;
      Ok ((k, y) :: ys, s2)
  end.
End traversals.

(** ** Dictionaries *)

Section dicts.
Context {A : Type}.

(** [d.get(k)] / [k in d]: the first pair with key [k]. *)
Fixpoint dict_get (k : string) (d : list (string * A)) : option A :=
  match d with
  | [] => None
  | (k', x) :: r => if String.eqb k k' then Some x else dict_get k r
  end.

Definition dict_has (k : string) (d : list (string * A)) : bool :=
  match dict_get k d with Some _ => true | None => false end.

(** [d[k] = x]: overwrite in place, or append a new key last. *)
Fixpoint dict_set (k : string) (x : A) (d : list (string * A)) : list (string * A) :=
  match d with
  | [] => [(k, x)]
  | (k', y) :: r =>
      if String.eqb k k' then (k', x) :: r else (k', y) :: dict_set k x r
  end.

(** [d.pop(k, None)]: the dictionary without [k]. *)
Fixpoint dict_remove (k : string) (d : list (string * A)) : list (string * A) :=
  match d with
  | [] => []
  | (k', y) :: r =>
      if String.eqb k k' then r else (k', y) :: dict_remove k r
  end.

Definition keys (d : list (string * A)) : list string := map fst d.

(** [sorted(d.items())]: keys are unique, so tuples are ordered by their
    first component alone. *)
Fixpoint insert_item (kx : string * A) (d : list (string * A)) : list (string * A) :=
  match d with
  | [] => [kx]
  | ky :: r =>
      if String.leb (fst kx) (fst ky) then kx :: ky :: r
      else ky :: insert_item kx r
  end.

Fixpoint sorted_items (d : list (string * A)) : list (string * A) :=
  match d with
  | [] => []
  | kx :: r => insert_item kx (sorted_items r)
  end.
End dicts.

(** ** The named-tuple classes of [core]

    [core.py] declares the eight classes as named tuples; the serializers
    only use what every named tuple provides: the declared field names
    ([_fields]), which Python requires to be distinct and not to start with
    an underscore, and construction by position or by keyword. *)
Class Core := {
  fields : etype -> list string;
  fields_nodup : forall t, NoDup (fields t);
  fields_public : forall t k, k ∈ fields t -> String.get 0 k <> Some "_"%char
}.

(** [ALIASES_OF_TYPE.get(type(obj).__name__)] on an instance of a class of
    [TYPES]. *)
Definition alias_of_type (t : etype) : string :=
  match t with
  | TText => "text"
  | THypothesis => "hypothesis"
  | TGoal => "goal"
  | TMessage => "message"
  | TSentence => "sentence"
  | TGoals => "goals"
  | TMessages => "messages"
  | TRichSentence => "rich_sentence"
  end.

Definition TYPES : list etype :=
  [TText; THypothesis; TGoal; TMessage; TSentence; TGoals; TMessages; TRichSentence].

(** [TYPE_OF_ALIASES[alias]]: [None] stands for the [KeyError]. *)
Definition type_of_alias (alias : string) : option etype :=
  find (fun t => String.eqb (alias_of_type t) alias) TYPES.

(** Python's truth value of an object. *)
Definition truthy (v : value) : bool :=
  match v with
  | VNone => false
  | VInt z => negb (Z.eqb z 0)
  | VStr s => negb (String.eqb s "")
  | VList l | VTuple l | VEnt _ l => match l with [] => false | _ => true end
  | VDict d => match d with [] => false | _ => true end
  end.

(** Whether [hash(v)] succeeds: lists and dictionaries are unhashable, a
    tuple is hashable when its elements are. *)
Fixpoint hashable (v : value) : bool :=
  match v with
  | VNone | VInt _ | VStr _ => true
  | VList _ | VDict _ => false
  | VTuple l | VEnt _ l => forallb hashable l
  end.

(** [TYPE_OF_ALIASES[key]] for an arbitrary object used as key. *)
Definition lookup_type (key : value) : result etype :=
  match key with
  | VStr alias =>
      match type_of_alias alias with
      | Some t => Ok t
      | None => Raise KeyError
      end
  | _ => if hashable key then Raise KeyError else Raise TypeError
  end.

(** [copy.deepcopy]: a structurally equal object; values carry no identity,
    so the copy is the value itself. *)
Definition deepcopy (v : value) : value := v.

Section constructors.
Context `{Core}.

(** A positional call of the class: it needs exactly one argument per
    declared field. *)
Definition construct_positional (t : etype) (args : list value) : result value :=
  if Nat.eqb (length args) (length (fields t)) then Ok (VEnt t args)
  else Raise TypeError.

(** A keyword call of the class: every declared field must be given,
    and nothing else. *)
Definition construct_keywords (t : etype) (kwargs : dict) : result value :=
  if forallb (fun k => existsb (String.eqb k) (fields t)) (keys kwargs) then
    match mapM (fun k => dict_get k kwargs) (fields t) with
    | Some args => Ok (VEnt t args)
    | None => Raise TypeError
    end
  else Raise TypeError.
End constructors.

(** ** PlainSerializer *)

Module PlainSerializer.
Section with_core.
Context `{Core}.

(** The loop [for k, v in zip(obj._fields, obj): d[k] = encode(v)]. *)
Section store_fields.
Variable enc : value -> result value.

Fixpoint store_fields (ks : list string) (vs : list value) (d : dict)
    {struct vs} : result dict :=
  match vs, ks with
  | v :: vs', k :: ks' =>
      w ← enc v;
      store_fields ks' vs' (dict_set k w d)
  | _, _ => Ok d
  end.
End store_fields.

Fixpoint encode (obj : value) : result value :=
  match obj with
  | VList l => VList <$> mapR encode l
  | VDict d =>
      _ ← assert (negb (dict_has "_type" d));
      VDict <$> mapR_items encode d
  | VEnt t vs =>
      (* Put _type first *)
      VDict <$> store_fields encode (fields t) vs [("_type", VStr (alias_of_type t))]
  | VNone | VInt _ | VStr _ => Ok obj
  | VTuple _ => Raise AssertionError
  end.

Fixpoint decode (js : value) : result value :=
  match js with
  | VList l => VList <$> mapR decode l
  | VDict d =>
      obj ← mapR_items decode d;
      match dict_get "_type" obj with
      | Some type_name =>
          let obj := dict_remove "_type" obj in
          if truthy type_name then
            t ← lookup_type type_name;
            construct_keywords t obj
          else Ok (VDict obj)
      | None => Ok (VDict obj)
      end
  | _ => Ok js
  end.
End with_core.
End PlainSerializer.

(** ** Deduplicating serializers *)

(** [pickle.dumps]: the serializers use the pickled bytes of an object only
    as a dictionary key, so the byte strings are kept abstract.  On values,
    which carry no identity, pickling is a function of the content; this
    serves the properties that hold whatever is shared between objects.
    Which sub-objects of an object are one and the same object in memory,
    which the pickler also records, is represented in [Objects] below, with
    the encoder on objects that have an identity. *)
Class Pickle := {
  pickle_key : Type;
  pickle_key_eq_dec :: EqDecision pickle_key;
  pickle_key_countable :: Countable pickle_key;
  pickle_dumps : value -> pickle_key
}.

(** [l[i]] for a list [l] and an arbitrary object [i]: negative integers
    count from the end. *)
Definition list_index (l : list value) (i : value) : result value :=
  match i with
  | VInt z =>
      let n := Z.of_nat (length l) in
      let z' := if Z.ltb z 0 then Z.add z n else z in
      if Z.leb 0 z' && Z.ltb z' n then
        match l !! Z.to_nat z' with
        | Some v => Ok v
        | None => Raise IndexError
        end
      else Raise IndexError
  | _ => Raise TypeError
  end.

(** The one-character strings Python yields when iterating over a string. *)
Fixpoint chars (s : string) : list value :=
  match s with
  | EmptyString => []
  | String c r => VStr (String c EmptyString) :: chars r
  end.

Module DeduplicatingSerializer.
Section with_core.
Context `{Core} `{Pickle}.

(** The inner [encode], closed over [obj_table]. *)
Fixpoint encode_in (obj : value) (obj_table : gmap pickle_key nat)
  : result (value * gmap pickle_key nat) :=
  match obj with
  | VList l =>
      '(ws, tbl) ← mapS encode_in l obj_table;
      Ok (VList ws, tbl)
  | VDict d =>
      _ ← assert (negb (dict_has "*" d) && negb (dict_has "&" d));
      '(ws, tbl) ← run_items (sorted_items (delay_items encode_in d)) obj_table;
      Ok (VDict ws, tbl)
  | VEnt t vs =>
      let key := pickle_dumps obj in
      match obj_table !! key with
      | Some n => Ok (VDict [("*", VInt (Z.of_nat n))], obj_table)
      | None =>
          '(ws, tbl) ← mapS encode_in vs obj_table;
          let d := VDict [("&", VStr (alias_of_type t)); ("_", VList ws)] in
          Ok (d, <[key := size tbl]> tbl)
      end
  | VNone | VInt _ | VStr _ => Ok (obj, obj_table)
  | VTuple _ => Raise AssertionError
  end.

Definition encode (obj : value) : result value :=
  fst <$> encode_in obj ∅.

(** The inner [decode], closed over [obj_table] and [copy]. *)
Fixpoint decode_in (copy : bool) (js : value) (obj_table : list value)
  : result (value * list value) :=
  match js with
  | VList l =>
      '(vs, tbl) ← mapS (decode_in copy) l obj_table;
      Ok (VList vs, tbl)
  | VDict d =>
      match dict_get "*" d with
      | Some idx => (* Pointer *)
          obj ← list_index obj_table idx;
          Ok (if copy then deepcopy obj else obj, obj_table)
      | None =>
          match dict_get "&" d with
          | Some alias => (* Reference *)
              t ← lookup_type alias;
              (* the generator over js["_"], consumed by the call *)
              let args_of (body : value) (tbl : list value) :=
                match body with
                | VList l | VTuple l | VEnt _ l => mapS (decode_in copy) l tbl
                | VDict d' => Ok (VStr <$> keys d', tbl)
                | VStr s => Ok (chars s, tbl)
                | VNone | VInt _ => Raise TypeError
                end in
              match dict_get "_" (delay_items args_of d) with
              | Some run =>
                  '(args, tbl) ← run obj_table;
                  obj ← construct_positional t args;
                  Ok (obj, tbl ++ [obj])
              | None => Raise KeyError
              end
          | None =>
              '(vs, tbl) ← run_items
                (sorted_items (delay_items (decode_in copy) d)) obj_table;
              Ok (VDict vs, tbl)
          end
      end
  | _ => Ok (js, obj_table)
  end.

Definition decode (js : value) (copy : bool) : result value :=
  fst <$> decode_in copy js [].
End with_core.
End DeduplicatingSerializer.

Module FullyDeduplicatingSerializer.
Section with_core.
Context `{Core} `{Pickle}.

(** The inner [encode]; the [match] on [obj] is [_encode]. *)
Fixpoint encode_in (obj : value) (obj_table : gmap pickle_key nat)
  : result (value * gmap pickle_key nat) :=
  let key := pickle_dumps obj in
  match obj_table !! key with
  | Some ref => Ok (VDict [("*", VInt (Z.of_nat ref))], obj_table)
  | None =>
      '(val, tbl) ←
        match obj with
        | VList l =>
            '(ws, tbl) ← mapS encode_in l obj_table;
            Ok (VList ws, tbl)
        | VDict d =>
            _ ← assert (negb (dict_has "*" d) && negb (dict_has "&" d));
            '(ws, tbl) ← run_items (sorted_items (delay_items encode_in d)) obj_table;
            Ok (VDict ws, tbl)
        | VEnt t vs =>
            '(ws, tbl) ← mapS encode_in vs obj_table;
            Ok (VDict [("&", VStr (alias_of_type t)); ("_", VList ws)], tbl)
        | VNone | VInt _ | VStr _ => Ok (obj, obj_table)
        | VTuple _ => Raise AssertionError
        end;
      Ok (val, <[key := size tbl]> tbl)
  end.

Definition encode (obj : value) : result value :=
  fst <$> encode_in obj ∅.

(** Decoding the leaves a generator yields from a dictionary or a string:
    each is returned as it is and appended to the table. *)
Definition decode_leaves (leaves : list value) (tbl : list value)
  : result (list value * list value) :=
  Ok (leaves, tbl ++ leaves).

(** The inner [decode]; the [match] on [js] is [_decode]. *)
Fixpoint decode_in (copy : bool) (js : value) (obj_table : list value)
  : result (value * list value) :=
  let pointer := match js with VDict d => dict_get "*" d | _ => None end in
  match pointer with
  | Some idx =>
      obj ← list_index obj_table idx;
      Ok (if copy then deepcopy obj else obj, obj_table)
  | None =>
      '(obj, tbl) ←
        match js with
        | VList l =>
            '(vs, tbl) ← mapS (decode_in copy) l obj_table;
            Ok (VList vs, tbl)
        | VDict d =>
            match dict_get "&" d with
            | Some alias =>
                t ← lookup_type alias;
                let args_of (body : value) (tbl : list value) :=
                  match body with
                  | VList l | VTuple l | VEnt _ l => mapS (decode_in copy) l tbl
                  | VDict d' => decode_leaves (VStr <$> keys d') tbl
                  | VStr s => decode_leaves (chars s) tbl
                  | VNone | VInt _ => Raise TypeError
                  end in
                match dict_get "_" (delay_items args_of d) with
                | Some run =>
                    '(args, tbl) ← run obj_table;
                    obj ← construct_positional t args;
                    Ok (obj, tbl)
                | None => Raise KeyError
                end
            | None =>
                '(vs, tbl) ← run_items
                  (sorted_items (delay_items (decode_in copy) d)) obj_table;
                Ok (VDict vs, tbl)
            end
        | _ => Ok (js, obj_table)
        end;
      Ok (obj, tbl ++ [obj])
  end.

Definition decode (js : value) (copy : bool) : result value :=
  fst <$> decode_in copy js [].
End with_core.
End FullyDeduplicatingSerializer.

(** ** Equality of Python objects *)

Section comparisons.
Context {A B : Type} (f : A -> B -> bool).

(** Equality of two sequences: same length, equal elementwise in order. *)
Fixpoint seq_eq (l : list A) (l' : list B) : bool :=
  match l, l' with
  | [], [] => true
  | x :: r, y :: r' => f x y && seq_eq r r'
  | _, _ => false
  end.

(** Every key of [d] is a key of [d'], with an equal value. *)
Fixpoint items_within (d : list (string * A)) (d' : list (string * B)) : bool :=
  match d with
  | [] => true
  | (k, x) :: r =>
      match dict_get k d' with
      | Some y => f x y
      | None => false
      end && items_within r d'
  end.
End comparisons.

(** [a == b].  Lists compare elementwise; a named tuple is a tuple and
    compares as one; dictionaries compare as mappings, whatever the order
    their keys were inserted in. *)
Fixpoint py_eq (a b : value) {struct a} : bool :=
  match a, b with
  | VNone, VNone => true
  | VInt x, VInt y => Z.eqb x y
  | VStr x, VStr y => String.eqb x y
  | VList l, VList l' => seq_eq py_eq l l'
  | (VTuple l | VEnt _ l), (VTuple l' | VEnt _ l') => seq_eq py_eq l l'
  | VDict d, VDict d' => Nat.eqb (length d) (length d') && items_within py_eq d d'
  | _, _ => false
  end.

(** [iter(v)]: the elements a [for] loop, [list(v)] or a starred argument
    draws from [v]. *)
Definition iterate (v : value) : result (list value) :=
  match v with
  | VList l | VTuple l | VEnt _ l => Ok l
  | VDict d => Ok (VStr <$> keys d)
  | VStr s => Ok (chars s)
  | VNone | VInt _ => Raise TypeError
  end.

(** [d[k]] for an arbitrary object [d] and a string [k]. *)
Definition subscript (d : value) (k : string) : result value :=
  match d with
  | VDict items =>
      match dict_get k items with
      | Some v => Ok v
      | None => Raise KeyError
      end
  | _ => Raise TypeError
  end.

(** [d.get(k, default)] for an arbitrary object [d]. *)
Definition method_get (d : value) (k : string) (dflt : value) : result value :=
  match d with
  | VDict items => Ok (default dflt (dict_get k items))
  | _ => Raise AttributeError
  end.

(** [validate_detailed] and [validate_contents]: both report a mismatch on
    standard output (not modelled) and return whether the data equals the
    reference. *)
Definition validate_detailed (data reference : value) : bool := py_eq data reference.
Definition validate_contents (data reference : value) : bool := py_eq data reference.

(** [validate_inputs].  Past the list case the function tests
    [isinstance(annotated, TYPES)]; [TYPES] is a list, and [isinstance]
    accepts a class or a tuple of classes only, so the test raises
    [TypeError] whatever [annotated] is. *)
Definition validate_instance (annotated reference : value) : result bool :=
  Raise TypeError.

Section all_pairs.
Variable validate : value -> value -> result bool.

(** [all(validate(None, y) for y in r)]: [zip_longest] pads the shorter
    list with [None]; [None] is not a list. *)
Fixpoint all_missing (r : list value) : result bool :=
  match r with
  | [] => Ok true
  | y :: r' =>
      b ← validate_instance VNone y;
      if (b : bool) then all_missing r' else Ok false
  end.

(** [all(validate(x, y) for (x, y) in zip_longest(l, r))], stopping at the
    first pair that is rejected. *)
Fixpoint all_longest (l r : list value) {struct l} : result bool :=
  match l, r with
  | [], _ => all_missing r
  | x :: l', y :: r' =>
      b ← validate x y;
      if (b : bool) then all_longest l' r' else Ok false
  | x :: l', [] =>
      b ← validate x VNone;
      if (b : bool) then all_longest l' [] else Ok false
  end.
End all_pairs.

Fixpoint validate_inputs (annotated reference : value) {struct annotated} : result bool :=
  match annotated with
  | VList l =>
      match reference with
      | VList r => all_longest validate_inputs l r
      | _ => Ok false
      end
  | _ => validate_instance annotated reference
  end.

(** ** Cache *)

(** The external prover: [annotate(chunks, **config)] and
    [version_info()]. *)
Class Prover := {
  annotate : value -> dict -> result value;
  version_info : result value
}.

(** Modelled from the spec: [core.GeneratorInfo] is declared in [core.py],
    which is not among the sources; the design document describes the
    generator identity as a [(name, version)] pair, so the class is taken
    as a named tuple of these two fields, and an instance as the pair. *)
Definition GeneratorInfo (args : list value) : result value :=
  match args with
  | [name; version] => Ok (VTuple [name; version])
  | _ => Raise TypeError
  end.

Module Cache.
(** A cache entry; its [serializer] is always [PlainSerializer].  [data]
    is [None] until the entry is populated. *)
Record t := Build { data : value; cache_file : value }.

Definition init (data cache_file : value) : t := Build data cache_file.

Fixpoint normalize (obj : value) : value :=
  match obj with
  | VList l | VTuple l | VEnt _ l => VList (map normalize l)
  | VDict d => VDict (map (fun kv => (fst kv, normalize (snd kv))) d)
  | VNone | VInt _ | VStr _ => obj
  end.

Definition _validate (self : t) (chunks config : value) : result bool :=
  match data self with
  | VNone => Ok false
  | _ =>
      stored ← subscript (data self) "config";
      if validate_detailed stored config then
        stored ← method_get (data self) "chunks" VNone;
        Ok (validate_contents stored chunks)
      else Ok false
  end.

Section with_core.
Context `{Core}.

Definition get (self : t) (chunks metadata : value) : result value :=
  valid ← _validate self (normalize chunks) (normalize metadata);
  if negb valid then Ok VNone
  else
    annotated ← method_get (data self) "annotated" VNone;
    PlainSerializer.decode annotated.

Definition generator (self : t) : result value :=
    stored ← method_get (data self) "generator"
               (VTuple [VStr "Coq+SerAPI"; VStr "??"]);
    args ← iterate stored;
    GeneratorInfo args.

Definition put (self : t) (chunks config annotated generator : value) : result t :=
  let g := normalize generator in
  let c := normalize config in
  l ← iterate chunks;
  a ← PlainSerializer.encode annotated;
  Ok (Build (VDict [("generator", g); ("config", c);
                    ("chunks", VList l); ("annotated", a)])
            (cache_file self)).

(** [update] against a prover; the third component lists the arguments of
    the [annotate] calls made, oldest first.  An exception leaves the
    entry as it was. *)
Definition update `{Prover} (self : t) (chunks config : value)
    (calls : list (value * dict)) : result value * t * list (value * dict) :=
  match get self chunks config with
  | Raise e => (Raise e, self, calls)
  | Ok VNone =>
      match config with
      | VDict kwargs =>
          let calls := calls ++ [(chunks, kwargs)] in
          match annotate chunks kwargs with
          | Raise e => (Raise e, self, calls)
          | Ok annotated =>
              match version_info with
              | Raise e => (Raise e, self, calls)
              | Ok info =>
                  match put self chunks config annotated info with
                  | Raise e => (Raise e, self, calls)
                  | Ok self' => (Ok annotated, self', calls)
                  end
              end
          end
      | _ => (Raise TypeError, self, calls)
      end
  | Ok annotated => (Ok annotated, self, calls)
  end.
End with_core.
End Cache.

(** ** FileCacheSet *)

(** What the file set does to the file system.  All files live at the path
    of the cache file followed by the extension of a compression. *)
Inductive io_event : Type :=
| Makedirs
| Unlink (ext : string)
| WriteFile (ext : string) (document : value).

(** The files present (by extension, with the JSON document each holds) and
    the operations performed so far, oldest first.  Every file holds a
    document that [json.load] reads back: a file that cannot be opened under
    its compression or parsed as JSON, on which [_read] lets the exception
    of the library through, is not represented. *)
Record world := World {
  files : gmap string value;
  trace : list io_event
}.

Module FileCacheSet.
Definition CACHE_VERSION : string := "2".
Definition METADATA : value := VDict [("cache_version", VStr CACHE_VERSION)].

(** Compression name, then the module that opens it and its extension. *)
Definition KNOWN_COMPRESSIONS : list (string * (string * string)) :=
  [("none", ("builtins", "")); ("gzip", ("gzip", ".gz")); ("xz", ("lzma", ".xz"))].

Record t := Build {
  cache_rel_file : string;
  wanted_compression : string;
  ondisk_compression : option string;
  js : value;
  caches : list (string * Cache.t)
}.

(** [_read]: the first compression, in the order of the table, under
    which a file exists, with the document loaded from it.  Only
    [FileNotFoundError] is caught; on the files of [world], which all
    load, nothing else is raised. *)
Definition _read (w : world) : option string * value :=
  let found :=
    omap (fun entry : string * (string * string) =>
            doc ← files w !! snd (snd entry); Some (fst entry, doc))
         KNOWN_COMPRESSIONS in
  match found with
  | (compression, doc) :: _ => (Some compression, doc)
  | [] => (None, VNone)
  end.

(** [_validate]: [self.js and validate_detailed(self.js["metadata"], ...)],
    as the truth value the caller tests. *)
Definition _validate (js : value) : result bool :=
  if truthy js then
    metadata ← subscript js "metadata";
    Ok (validate_detailed metadata METADATA)
  else Ok false.

(** [d.items()] for an arbitrary object. *)
Definition items (d : value) : result dict :=
  match d with
  | VDict l => Ok l
  | _ => Raise AttributeError
  end.

(** [__init__]; the derivation of [cache_rel_file] from the cache root and
    the document path is left to the caller. *)
Definition init (rel_file : string) (cache_compression : option string)
    (w : world) : result t * world :=
  let wanted :=
    match cache_compression with
    | Some c => if String.eqb c "" then "none" else c
    | None => "none"
    end in
  if negb (dict_has wanted KNOWN_COMPRESSIONS) then
    (Raise (ValueError ("Unsupported cache compression: " +:+ default "None" cache_compression)), w)
  else
    let w := World (files w) (trace w ++ [Makedirs]) in
    let '(ondisk, loaded) := _read w in
    let built :=
      valid ← _validate loaded;
      if (valid : bool) then
        stored ← subscript loaded "caches";
        entries ← items stored;
        Ok (foldl (fun (caches : list (string * Cache.t)) (entry : string * value) =>
                     dict_set (fst entry) (Cache.init (snd entry) (VStr rel_file)) caches)
                  [] (sorted_items entries))
      else Ok [] in
    (Build rel_file wanted ondisk loaded <$> built, w).

(** [__getitem__]: the entry registered for [lang], registering an empty
    one first when there is none. *)
Definition getitem (self : t) (lang : string) : Cache.t * t :=
  match dict_get lang (caches self) with
  | Some c => (c, self)
  | None =>
      let c := Cache.init VNone (VStr (cache_rel_file self)) in
      (c, Build (cache_rel_file self) (wanted_compression self)
                (ondisk_compression self) (js self)
                (dict_set lang c (caches self)))
  end.

(** The entry [caches[lang]] is a shared object: what [Cache.update] does
    to it is seen by the file set. *)
Definition store (self : t) (lang : string) (c : Cache.t) : t :=
  Build (cache_rel_file self) (wanted_compression self)
        (ondisk_compression self) (js self) (dict_set lang c (caches self)).

Definition _check_recompression (self : t) : bool :=
  negb (bool_decide (ondisk_compression self = Some (wanted_compression self))).

(** [_delete_old_caches]: unlink every variant that exists. *)
Definition _delete_old_caches (w : world) : world :=
  foldl (fun (w : world) (entry : string * (string * string)) =>
           let ext := snd (snd entry) in
           match files w !! ext with
           | Some _ => World (delete ext (files w)) (trace w ++ [Unlink ext])
           | None => w
           end)
        w KNOWN_COMPRESSIONS.

Definition extension (compression : string) : string :=
  match dict_get compression KNOWN_COMPRESSIONS with
  | Some (_, ext) => ext
  | None => ""
  end.

(** [json.load] of what [json.dump] wrote: tuples come back as lists. *)
Definition json_document (doc : value) : value := Cache.normalize doc.

Definition _force_write (self : t) (doc : value) (w : world) : t * world :=
  let w := _delete_old_caches w in
  let ext := extension (wanted_compression self) in
  let w := World (<[ext := json_document doc]> (files w))
                 (trace w ++ [WriteFile ext doc]) in
  (Build (cache_rel_file self) (wanted_compression self)
         (Some (wanted_compression self)) doc (caches self), w).

(** The snapshot [_write] recomputes. *)
Definition snapshot (self : t) : value :=
  VDict [("metadata", METADATA);
         ("caches", VDict (map (fun entry => (fst entry, Cache.data (snd entry)))
                               (sorted_items (caches self))))].

Definition _write (self : t) (w : world) : t * world :=
  let doc := snapshot self in
  if negb (py_eq doc (js self)) || _check_recompression self
  then _force_write self doc w
  else (self, w).

(** [__exit__], whether or not the body raised. *)
Definition exit (self : t) (w : world) : t * world := _write self w.
End FileCacheSet.

(** [cli.annotate_chunks]: a cache set scoped to one update of the entry
    of the input language, persisted on exit whether or not the update
    raised.  [cache_file] is the path of the cache file that [FileCacheSet]
    derives from the cache directory and the document, or [None] when no
    cache directory is given: [DummyCacheSet] then hands out an empty entry
    and touches no file. *)
Definition annotate_with_cache `{Core} `{Prover}
    (cache_file : option string) (cache_compression : option string) (lang : string)
    (chunks config : value) (w : world) (calls : list (value * dict))
  : result value * world * list (value * dict) :=
  match cache_file with
  | None =>
      let '(annotated, _, calls) :=
        Cache.update (Cache.init VNone VNone) chunks config calls in
      (annotated, w, calls)
  | Some rel_file =>
      match FileCacheSet.init rel_file cache_compression w with
      | (Raise e, w) => (Raise e, w, calls)
      | (Ok caches, w) =>
          let '(entry, caches) := FileCacheSet.getitem caches lang in
          let '(annotated, entry, calls) := Cache.update entry chunks config calls in
          let caches := FileCacheSet.store caches lang entry in
          let '(_, w) := FileCacheSet.exit caches w in
          (annotated, w, calls)
      end
  end.

(** ** Pipelines (cli.py) *)

Module Cli.
(** The functions pipelines are made of; [write_file] is the only
    parameterised one. *)
Inductive step : Type :=
| read_plain | read_json | parse_plain | annotate_chunks
| register_docutils | gen_docutils | lint_docutils
| apply_transforms | gen_html_snippets | gen_latex_snippets
| gen_html_snippets_with_coqdoc
| dump_html_standalone | dump_html_snippets | dump_latex_snippets
| copy_assets | encode_json | dump_json
| code_to_rst | rst_to_code
| write_file (ext : string) (strip : list string).

Global Instance step_eq_dec : EqDecision step.
Proof. solve_decision. Defined.

Definition PIPELINES : list (string * list (string * list step)) :=
  [("coq.json",
     [("json",
        [read_json; annotate_chunks; encode_json; dump_json;
         write_file ".io.json" [".json"]]);
      ("snippets-html",
        [read_json; annotate_chunks; apply_transforms; gen_html_snippets;
         dump_html_snippets; write_file ".snippets.html" [".v"; ".json"]]);
      ("snippets-latex",
        [read_json; annotate_chunks; apply_transforms; gen_latex_snippets;
         dump_latex_snippets; write_file ".snippets.tex" [".v"; ".json"]])]);
   ("lean3.json",
     [("json",
        [read_json; annotate_chunks; encode_json; dump_json;
         write_file ".io.json" [".json"]]);
      ("snippets-html",
        [read_json; annotate_chunks; apply_transforms;
         gen_html_snippets; dump_html_snippets;
         write_file ".snippets.html" [".lean"; ".lean3"; ".json"]]);
      ("snippets-latex",
        [read_json; annotate_chunks; apply_transforms;
         gen_latex_snippets; dump_latex_snippets;
         write_file ".snippets.tex" [".lean"; ".lean3"; ".json"]])]);
   ("coq",
     [("null",
        [read_plain; parse_plain; annotate_chunks]);
      ("webpage",
        [read_plain; parse_plain; annotate_chunks; apply_transforms;
         gen_html_snippets; dump_html_standalone; copy_assets;
         write_file ".html" []]);
      ("snippets-html",
        [read_plain; parse_plain; annotate_chunks; apply_transforms;
         gen_html_snippets; dump_html_snippets;
         write_file ".snippets.html" [".v"]]);
      ("snippets-latex",
        [read_plain; parse_plain; annotate_chunks; apply_transforms;
         gen_latex_snippets; dump_latex_snippets;
         write_file ".snippets.tex" [".v"]]);
      ("lint",
        [read_plain; register_docutils; lint_docutils;
         write_file ".lint.json" [".v"]]);
      ("rst",
        [read_plain; code_to_rst; write_file ".rst" []]);
      ("json",
        [read_plain; parse_plain; annotate_chunks; encode_json; dump_json;
         write_file ".io.json" []])]);
   ("lean3",
     [("null",
        [read_plain; parse_plain; annotate_chunks]);
      ("webpage",
        [read_plain; parse_plain; annotate_chunks; apply_transforms;
         gen_html_snippets; dump_html_standalone; copy_assets;
         write_file ".html" []]);
      ("snippets-html",
        [read_plain; parse_plain; annotate_chunks; apply_transforms;
         gen_html_snippets; dump_html_snippets;
         write_file ".snippets.html" [".lean"; ".lean3"]]);
      ("snippets-latex",
        [read_plain; parse_plain; annotate_chunks; apply_transforms;
         gen_latex_snippets; dump_latex_snippets;
         write_file ".snippets.tex" [".lean"; ".lean3"]]);
      ("json",
        [read_plain; parse_plain; annotate_chunks; encode_json; dump_json;
         write_file ".io.json" []])]);
   ("coq+rst",
     [("webpage",
        [read_plain; register_docutils; gen_docutils; copy_assets;
         write_file ".html" [".v"; ".rst"]]);
      ("latex",
        [read_plain; register_docutils; gen_docutils; copy_assets;
         write_file ".tex" [".v"; ".rst"]]);
      ("lint",
        [read_plain; register_docutils; lint_docutils;
         write_file ".lint.json" [".v"; ".rst"]]);
      ("rst",
        [read_plain; code_to_rst; write_file ".v.rst" [".v"; ".rst"]])]);
   ("coqdoc",
     [("webpage",
        [read_plain; parse_plain; annotate_chunks;
         gen_html_snippets_with_coqdoc; dump_html_standalone; copy_assets;
         write_file ".html" [".v"]])]);
   ("rst",
     [("webpage",
        [read_plain; register_docutils; gen_docutils; copy_assets;
         write_file ".html" [".v"; ".lean"; ".lean3"; ".rst"]]);
      ("latex",
        [read_plain; register_docutils; gen_docutils; copy_assets;
         write_file ".tex" [".v"; ".lean"; ".lean3"; ".rst"]]);
      ("lint",
        [read_plain; register_docutils; lint_docutils;
         write_file ".lint.json" [".v"; ".lean"; ".lean3"; ".rst"]]);
      ("coq",
        [read_plain; rst_to_code;
         write_file ".v" [".v"; ".lean"; ".lean3"; ".rst"]]);
      ("coq+rst",
        [read_plain; rst_to_code;
         write_file ".v" [".v"; ".lean"; ".lean3"; ".rst"]])]);
   ("md",
     [("webpage",
        [read_plain; register_docutils; gen_docutils; copy_assets;
         write_file ".html" [".v"; ".lean"; ".lean3"; ".md"]]);
      ("latex",
        [read_plain; register_docutils; gen_docutils; copy_assets;
         write_file ".tex" [".v"; ".lean"; ".lean3"; ".md"]]);
      ("lint",
        [read_plain; register_docutils; lint_docutils;
         write_file ".lint.json" [".v"; ".lean"; ".lean3"; ".md"]])])].

Definition FRONTENDS_BY_EXTENSION : list (string * string) :=
  [(".v", "coq+rst"); (".lean", "lean3"); (".lean3", "lean3");
   (".v.json", "coq.json"); (".lean3.json", "lean3.json");
   (".rst", "rst"); (".md", "md")].

Definition BACKENDS_BY_EXTENSION : list (string * string) :=
  [(".v", "coq"); (".lean", "lean3");
   (".json", "json"); (".rst", "rst");
   (".lint.json", "lint");
   (".snippets.html", "snippets-html");
   (".snippets.tex", "snippets-latex");
   (".v.html", "webpage"); (".html", "webpage");
   (".v.tex", "latex"); (".tex", "latex")].

Definition DEFAULT_BACKENDS : list (string * string) :=
  [("coq.json", "json"); ("lean3.json", "json"); ("coq", "webpage");
   ("coqdoc", "webpage"); ("coq+rst", "webpage"); ("lean3", "webpage");
   ("rst", "webpage"); ("md", "webpage")].

Definition INPUT_LANGUAGE_BY_FRONTEND : list (string * option string) :=
  [("coq", Some "coq"); ("coqdoc", Some "coq"); ("coq+rst", Some "coq");
   ("rst", None); ("md", None); ("lean3", Some "lean3");
   ("coq.json", Some "coq"); ("lean3.json", Some "lean3")].

(** [s.endswith(suffix)] *)
Definition endswith (s suffix : string) : bool :=
  let n := String.length s in
  let m := String.length suffix in
  Nat.leb m n && String.eqb (substring (n - m) m s) suffix.

Definition newline : string := String (ascii_of_nat 10) EmptyString.
Definition double_quote : ascii := ascii_of_nat 34.
Definition single_quote : ascii := ascii_of_nat 39.
Definition backslash : ascii := ascii_of_nat 92.

Fixpoint mentions (c : ascii) (s : string) : bool :=
  match s with
  | EmptyString => false
  | String c' r => Ascii.eqb c c' || mentions c r
  end.

Fixpoint escape (quote : ascii) (s : string) : string :=
  match s with
  | EmptyString => EmptyString
  | String c r =>
      let rest := escape quote r in
      if Ascii.eqb c backslash || Ascii.eqb c quote then String backslash (String c rest)
      else if Ascii.eqb c (ascii_of_nat 10) then String backslash (String "n" rest)
      else if Ascii.eqb c (ascii_of_nat 13) then String backslash (String "r" rest)
      else if Ascii.eqb c (ascii_of_nat 9) then String backslash (String "t" rest)
      else String c rest
  end.

(** [repr(s)] of a string of printable characters: single quotes, unless
    the string has a single quote and no double quote. *)
Definition repr (s : string) : string :=
  let quote :=
    if mentions single_quote s && negb (mentions double_quote s)
    then double_quote else single_quote in
  String quote (escape quote s +:+ String quote EmptyString).

(** The namespace [argparse] returns, as far as resolution reads it. *)
Record args := Args {
  input : list string;
  stdin_filename : option string;
  frontend : option string;
  backend : option string;
  output : option string;
  mark_point : option string * option string
}.

(** [o or alternative] for an optional string. *)
Definition or_else (o : option string) (alternative : result string) : result string :=
  match o with
  | Some s => if String.eqb s "" then alternative else Ok s
  | None => alternative
  end.

Definition truthy_opt (o : option string) : bool :=
  match o with
  | Some s => negb (String.eqb s "")
  | None => false
  end.

Definition infer_mode (fpath kind arg : string) (table : list (string * string))
  : result string :=
  match find (fun entry : string * string => endswith fpath (fst entry)) table with
  | Some (_, mode) => Ok mode
  | None =>
      Raise (ArgumentTypeError
               (kind +:+ ": Not sure what to do with " +:+ repr fpath +:+ "."
                +:+ newline +:+ "Try passing " +:+ arg +:+ "?"))
  end.

Definition infer_frontend (fpath : string) : result string :=
  infer_mode fpath "input" "--frontend" FRONTENDS_BY_EXTENSION.

Definition infer_backend (frontend : string) (out_fpath : option string)
  : result string :=
  match out_fpath with
  | Some out =>
      if String.eqb out "" then
        match dict_get frontend DEFAULT_BACKENDS with
        | Some b => Ok b
        | None => Raise KeyError
        end
      else infer_mode out "output" "--backend" BACKENDS_BY_EXTENSION
  | None =>
      match dict_get frontend DEFAULT_BACKENDS with
      | Some b => Ok b
      | None => Raise KeyError
      end
  end.

(** The message of the error for a backend the frontend does not
    support. *)
Definition unsupported_backend (frontend backend : string)
    (supported_backends : list (string * list step)) : string :=
  "argument --backend: Frontend " +:+ repr frontend
  +:+ " does not support backend " +:+ repr backend
  +:+ ": expecting one of "
  +:+ String.concat ", " (map repr (keys supported_backends)).

Definition resolve_pipeline (fpath : string) (a : args)
  : result (string * string * list step) :=
  frontend ← or_else (frontend a) (infer_frontend fpath);
  match dict_get frontend PIPELINES with
  | None => Raise AssertionError
  | Some supported_backends =>
      backend ← or_else (backend a) (infer_backend frontend (output a));
      match dict_get backend supported_backends with
      | None =>
          Raise (ArgumentTypeError
                   (unsupported_backend frontend backend supported_backends))
      | Some pipeline => Ok (frontend, backend, pipeline)
      end
  end.

(** What [post_process_arguments] adds to the namespace: the conversion
    of the point to mark and the resolved pipelines.  (The prover
    arguments and the asset copier it also sets cannot fail and play no
    part in resolution.) *)
Record processed := Processed {
  raw : args;
  point : option Z;
  pipelines : list (string * (string * string * list step))
}.

(** The per-document context, without the fields copied from the
    namespace and those computed by [os.path] ([fname],
    [output_directory]). *)
Record context := Context {
  ctx_fpath : string;
  ctx_frontend : string;
  ctx_backend : string;
  ctx_input_language : option string
}.

Definition build_context (fpath frontend backend : string) (a : args)
  : result context :=
  let fpath :=
    if String.eqb fpath "-" then
      match stdin_filename a with
      | Some name => if String.eqb name "" then "-" else name
      | None => "-"
      end
    else fpath in
  match dict_get frontend INPUT_LANGUAGE_BY_FRONTEND with
  | Some language => Ok (Context fpath frontend backend language)
  | None => Raise KeyError
  end.

(** The prover configurations [post_process_arguments] stores in the
    namespace; [sertop_args] is the list of SerAPI arguments it has
    assembled from the command line. *)
Definition prover_config (sertop_args : value) : dict :=
  [("coq", VDict [("args", sertop_args)]); ("lean3", VDict [("args", VTuple [])])].

(** [prover_config[input_language]], as [annotate_chunks] looks it up. *)
Definition annotate_chunks_config (input_language : option string)
    (prover_config : dict) : result value :=
  match input_language with
  | Some language =>
      match dict_get language prover_config with
      | Some config => Ok config
      | None => Raise KeyError
      end
  | None => Raise KeyError
  end.

(** The two converters of [literate] the pipelines use. *)
Inductive converter : Type := coq2rst_marked | rst2coq_marked.

(** The converter [code_to_rst] picks before running it: the one for Coq,
    and a failed assertion for any other input language. *)
Definition code_to_rst_converter (input_language : option string) : result converter :=
  if bool_decide (input_language = Some "coq") then Ok coq2rst_marked
  else Raise AssertionError.

(** The converter [rst_to_code] picks: [backend in ("coq", "coq+rst")]. *)
Definition rst_to_code_converter (backend : string) : result converter :=
  if existsb (String.eqb backend) ["coq"; "coq+rst"] then Ok rst2coq_marked
  else Raise AssertionError.

(** [_scrub_fname]: [re.sub("[^-a-zA-Z0-9]", "-", fname)], character by
    character. *)
Definition scrub (c : ascii) : ascii :=
  let n := nat_of_ascii c in
  if Nat.eqb n 45
     || Nat.leb 48 n && Nat.leb n 57
     || Nat.leb 65 n && Nat.leb n 90
     || Nat.leb 97 n && Nat.leb n 122
  then c else "-"%char.

Fixpoint _scrub_fname (fname : string) : string :=
  match fname with
  | EmptyString => EmptyString
  | String c rest => String (scrub c) (_scrub_fname rest)
  end.

(** [s.startswith(p)], with what follows [p] in [s]. *)
Fixpoint strip_prefix (p s : string) : option string :=
  match p, s with
  | EmptyString, _ => Some s
  | String a p', String b s' => if Ascii.eqb a b then strip_prefix p' s' else None
  | String _ _, EmptyString => None
  end.

(** Whether the pattern [(e1|...|en)*\Z] that [write_file] compiles from
    [strip] matches at the position where [s] starts: [s] is made of
    strings of [strip], one after the other, up to the end of the name.
    The engine backtracks over the alternatives; an empty alternative
    consumes nothing and adds no match.  Every iteration consumes a
    character, so [fuel] need not exceed the length of [s]. *)
Fixpoint matches_star (fuel : nat) (strip : list string) (s : string) : bool :=
  match s with
  | EmptyString => true
  | String _ _ =>
      match fuel with
      | O => false
      | S fuel' =>
          existsb (fun e =>
                     match strip_prefix e s with
                     | Some rest => negb (String.eqb e "") && matches_star fuel' strip rest
                     | None => false
                     end) strip
      end
  end.

(** [strip_re.sub("", fname)]: the leftmost match is removed, and it runs
    to the end of the name (an empty match changes nothing). *)
Fixpoint strip_re_sub (strip : list string) (fname : string) : string :=
  if matches_star (String.length fname) strip fname then EmptyString
  else match fname with
       | EmptyString => EmptyString
       | String c rest => String c (strip_re_sub strip rest)
       end.

(** [os.path.join(a, b)] on a POSIX system. *)
Definition path_join (a b : string) : string :=
  if String.prefix "/" b then b
  else if String.eqb a "" || endswith a "/" then a +:+ b
  else a +:+ "/" +:+ b.

(** Where [write_output] sends the contents. *)
Inductive destination : Type :=
| Stdout
| File (path : string).

(** [write_output], as called by the function [write_file(ext, strip)]
    returns: the destination of the contents. *)
Definition write_output (ext : string) (strip : list string) (fname : string)
    (output : option string) (output_directory : string) : destination :=
  if bool_decide (output = Some "-")
     || bool_decide (output = None) && String.eqb fname "-"
  then Stdout
  else
    match output with
    | Some path => if String.eqb path "" then
                     File (path_join output_directory (strip_re_sub strip fname +:+ ext))
                   else File path
    | None => File (path_join output_directory (strip_re_sub strip fname +:+ ext))
    end.

Section collaborators.
(** [int(s)] *)
Variable parse_int : string -> option Z.
(** [call_pipeline_step(step, state, ctx)]: the steps themselves are
    outside the model. *)
Variable call_pipeline_step : step -> value -> context -> result value.

Definition post_process_arguments (a : args) : result processed :=
  if Nat.ltb 1 (length (input a)) && truthy_opt (output a) then
    Raise (ParserError "argument --output: Not valid with multiple inputs")
  else if truthy_opt (stdin_filename a)
          && negb (existsb (String.eqb "-") (input a)) then
    Raise (ParserError "argument --stdin-filename: input must be '-'")
  else
    point ←
      match fst (mark_point a) with
      | None => Ok None
      | Some p =>
          match parse_int p with
          | Some z => Ok (Some z)
          | None =>
              Raise (ParserError
                       ("argument --mark-point: Expecting a number, not "
                        +:+ repr p))
          end
      end;
    pipelines ←
      mapR (fun fpath => r ← resolve_pipeline fpath a; Ok (fpath, r)) (input a);
    Ok (Processed a point pipelines).

(** One document: the steps in order, each fed the state the previous
    one returned; the second component lists the steps started. *)
Fixpoint run_steps (ctx : context) (pipeline : list step)
    (state : value) (started : list (string * step))
  : result value * list (string * step) :=
  match pipeline with
  | [] => (Ok state, started)
  | step :: rest =>
      let started := started ++ [(ctx_fpath ctx, step)] in
      match call_pipeline_step step state ctx with
      | Ok state => run_steps ctx rest state started
      | Raise e => (Raise e, started)
      end
  end.

Fixpoint process_pipelines (a : args)
    (todo : list (string * (string * string * list step)))
    (started : list (string * step))
  : result unit * list (string * step) :=
  match todo with
  | [] => (Ok tt, started)
  | (fpath, (frontend, backend, pipeline)) :: rest =>
      match build_context fpath frontend backend a with
      | Ok ctx =>
          match run_steps ctx pipeline VNone started with
          | (Ok _, started) => process_pipelines a rest started
          | (Raise e, started) => (Raise e, started)
          end
      | Raise e => (Raise e, started)
      end
  end.

(** [main], up to the reporting of the error: arguments are
    post-processed, then the pipelines run. *)
Definition main (a : args) : result unit * list (string * step) :=
  match post_process_arguments a with
  | Ok p => process_pipelines a (pipelines p) []
  | Raise e => (Raise e, [])
  end.
End collaborators.
End Cli.

(** ** Classes of values *)

(** Python's own invariants: a dictionary has each key once, an instance of
    a named tuple has one value per declared field. *)
Fixpoint wf `{Core} (v : value) : bool :=
  match v with
  | VNone | VInt _ | VStr _ => true
  | VList l | VTuple l => forallb wf l
  | VDict d => bool_decide (NoDup (keys d)) && forallb (fun kv => wf (snd kv)) d
  | VEnt t vs => Nat.eqb (length vs) (length (fields t)) && forallb wf vs
  end.

(** Values built from [None], integers, strings, lists, dictionaries and
    instances of the registered classes. *)
Fixpoint serializable (v : value) : bool :=
  match v with
  | VNone | VInt _ | VStr _ => true
  | VTuple _ => false
  | VList l | VEnt _ l => forallb serializable l
  | VDict d => forallb (fun kv => serializable (snd kv)) d
  end.

(** No dictionary inside [v] has one of the keys [reserved]. *)
Fixpoint avoids (reserved : list string) (v : value) : bool :=
  match v with
  | VNone | VInt _ | VStr _ => true
  | VList l | VTuple l | VEnt _ l => forallb (avoids reserved) l
  | VDict d =>
      forallb (fun k => negb (dict_has k d)) reserved
      && forallb (fun kv => avoids reserved (snd kv)) d
  end.

(** No instance of a registered class inside [v]. *)
Fixpoint entity_free (v : value) : bool :=
  match v with
  | VNone | VInt _ | VStr _ => true
  | VEnt _ _ => false
  | VList l | VTuple l => forallb entity_free l
  | VDict d => forallb (fun kv => entity_free (snd kv)) d
  end.

(** [v] with the keys of every dictionary in sorted order. *)
Fixpoint sort_keys (v : value) : value :=
  match v with
  | VNone | VInt _ | VStr _ => v
  | VList l => VList (map sort_keys l)
  | VTuple l => VTuple (map sort_keys l)
  | VEnt t l => VEnt t (map sort_keys l)
  | VDict d => VDict (sorted_items (map (fun kv => (fst kv, sort_keys (snd kv))) d))
  end.

(** Structural equality: the same kind of object on both sides, the same
    class for instances, sequences equal elementwise, dictionaries equal as
    mappings. *)
Fixpoint struct_eq (a b : value) {struct a} : bool :=
  match a, b with
  | VNone, VNone => true
  | VInt x, VInt y => Z.eqb x y
  | VStr x, VStr y => String.eqb x y
  | VList l, VList l' => seq_eq struct_eq l l'
  | VTuple l, VTuple l' => seq_eq struct_eq l l'
  | VEnt t l, VEnt t' l' => bool_decide (t = t') && seq_eq struct_eq l l'
  | VDict d, VDict d' => Nat.eqb (length d) (length d') && items_within struct_eq d d'
  | _, _ => false
  end.

(** Number of constructors. *)
Fixpoint vsize (v : value) : nat :=
  match v with
  | VNone | VInt _ | VStr _ => 1
  | VList l | VTuple l | VEnt _ l => S (list_sum (map vsize l))
  | VDict d => S (list_sum (map (fun kv => vsize (snd kv)) d))
  end.

(** Values that JSON can hold as they are: no tuple and no instance of a
    registered class. *)
Fixpoint json_tree (v : value) : bool :=
  match v with
  | VNone | VInt _ | VStr _ => true
  | VTuple _ | VEnt _ _ => false
  | VList l => forallb json_tree l
  | VDict d => forallb (fun kv => json_tree (snd kv)) d
  end.

(** Lists of lists, down to empty lists. *)
Fixpoint lists_only (v : value) : bool :=
  match v with
  | VList l => forallb lists_only l
  | _ => false
  end.

(** ** Instances used to run the definitions *)

(** A set of declarations for the eight classes. *)
Definition sample_fields (t : etype) : list string :=
  match t with
  | TText => ["contents"]
  | THypothesis => ["names"; "body"; "type"]
  | TGoal => ["name"; "conclusion"; "hypotheses"]
  | TMessage => ["contents"]
  | TSentence => ["contents"; "messages"; "goals"]
  | TGoals => ["goals"]
  | TMessages => ["messages"]
  | TRichSentence => ["input"; "outputs"; "annots"; "prefixes"; "suffixes"]
  end.

Definition etype_index (t : etype) : nat :=
  match t with
  | TText => 0 | THypothesis => 1 | TGoal => 2 | TMessage => 3
  | TSentence => 4 | TGoals => 5 | TMessages => 6 | TRichSentence => 7
  end%nat.

(** A canonical encoding of values as trees, to serve as pickled form. *)
Fixpoint to_tree (v : value) : gen_tree (Z + string) :=
  match v with
  | VNone => GenNode 0 []
  | VInt z => GenLeaf (inl z)
  | VStr s => GenLeaf (inr s)
  | VList l => GenNode 1 (map to_tree l)
  | VTuple l => GenNode 2 (map to_tree l)
  | VDict d => GenNode 3 (map (fun kv => GenNode 4 [GenLeaf (inr (fst kv)); to_tree (snd kv)]) d)
  | VEnt t l => GenNode (5 + etype_index t) (map to_tree l)
  end.

(** A document fragment used to run the statements below: a text, a goal
    with one hypothesis, and a dictionary whose keys are not in order. *)
Definition sample_text : value := VEnt TText [VStr "x"].
Definition sample_goal : value :=
  VEnt TGoal [VStr "g"; VStr "True";
              VList [VEnt THypothesis [VList [VStr "H"]; VNone; VStr "False"]]].
Definition sample_document : value :=
  VList [sample_text; VDict [("b", VInt 1); ("a", sample_goal)];
         sample_text; sample_goal; VInt 3].

(** The example of the design document: two chunks, no prover arguments,
    and an entry holding the annotation of a run on them. *)
Definition sample_lines : list string := ["Lemma foo: True."; "Proof. trivial. Qed."].
Definition sample_chunks : value := VList (VStr <$> sample_lines).
Definition sample_config : value := VDict [("args", VList [])].
Definition sample_annotated : value :=
  VList [VList [VEnt TSentence [VStr "Lemma foo: True."; VList []; VList []]];
         VList [VEnt TSentence [VStr "Proof. trivial. Qed."; VList []; VList []]]].
Definition sample_entry : Cache.t :=
  Cache.init
    (VDict [("generator", VList [VStr "Coq+SerAPI"; VStr "8.13.2"]);
            ("config", sample_config);
            ("chunks", sample_chunks);
            ("annotated",
             VList [VList [VDict [("_type", VStr "sentence");
                                  ("contents", VStr "Lemma foo: True.");
                                  ("messages", VList []); ("goals", VList [])]];
                    VList [VDict [("_type", VStr "sentence");
                                  ("contents", VStr "Proof. trivial. Qed.");
                                  ("messages", VList []); ("goals", VList [])]]])])
    (VStr "doc.v.cache").

(** A prover that annotates every chunk with one sentence. *)
Definition sample_prover : Prover :=
  {| annotate := fun chunks _ =>
       match chunks with
       | VList l =>
           Ok (VList ((fun c => VList [VEnt TSentence [c; VList []; VList []]]) <$> l))
       | _ => Raise TypeError
       end;
     version_info := Ok (VTuple [VStr "Coq+SerAPI"; VStr "8.13.2"]) |}.

(** A prover that is not available. *)
Definition failing_prover : Prover :=
  {| annotate := fun _ _ => Raise (ProverError "sertop not found");
     version_info := Raise (ProverError "sertop not found") |}.

(** A cache file written by an earlier run on the sample chunks. *)
Definition sample_file : dict :=
  [("metadata", FileCacheSet.METADATA);
   ("caches", VDict [("coq", Cache.data sample_entry)])].
Definition sample_world : world := World {[ "" := VDict sample_file ]} [].

(** ** Invariants of the proofs *)

(** Keys in non-decreasing order. *)
Definition key_sorted {A} (d : list (string * A)) : Prop :=
  Sorted (fun a b : string => String.leb a b = true) (keys d).

(** One element keeps an encoder and a decoder in step: from tables
    related by [I], encoding it and decoding the result succeed, give back
    [out x], and leave the tables related; [R] is how the encoder's table
    may have changed. *)
Definition in_step {A B C S S' : Type}
    (enc : A -> S -> result (B * S)) (dec : B -> S' -> result (C * S'))
    (out : A -> C) (I : S -> S' -> Prop) (R : S -> S -> Prop) (x : A) : Prop :=
  forall s s', I s s' ->
    exists w s1 s1',
      enc x s = Ok (w, s1) /\ dec w s' = Ok (out x, s1') /\ I s1 s1' /\ R s s1.

(** The decoder's table holds, at the index the encoder's table gives a
    key, the decoded form of the object pickled to that key. *)
Definition sync `{Pickle} (T : gmap pickle_key nat) (D : list value) : Prop :=
  size T = length D /\
  forall k i, T !! k = Some i ->
    exists u, k = pickle_dumps u /\ D !! i = Some (sort_keys u).

(** Keys are only added, and only for objects of size at most [n]. *)
Definition grows `{Pickle} (n : nat) (T T' : gmap pickle_key nat) : Prop :=
  forall k, is_Some (T' !! k) ->
    is_Some (T !! k) \/ exists u, k = pickle_dumps u /\ (vsize u <= n)%nat.

(** The outcome of a traversal when every element either satisfies [P] or
    fails its assertion. *)
Definition guarded {A} (P : Prop) (r : result A) : Prop :=
  match r with
  | Ok _ => P
  | Raise e => e = AssertionError
  end.

Definition guarded_st {A S} (P : Prop) (I : S -> Prop) (r : result (A * S)) : Prop :=
  match r with
  | Ok (_, s) => P /\ I s
  | Raise e => e = AssertionError
  end.

(** Every object with a key in the table avoids the reserved keys. *)
Definition clean `{Pickle} (T : gmap pickle_key nat) : Prop :=
  forall u, is_Some (T !! pickle_dumps u) -> avoids ["*"; "&"] u = true.

(** ** Induction on values *)

Section value_induction.
Variable P : value -> Prop.
Hypothesis Hnone : P VNone.
Hypothesis Hint : forall z, P (VInt z).
Hypothesis Hstr : forall s, P (VStr s).
Hypothesis Hlist : forall l, Forall P l -> P (VList l).
Hypothesis Htuple : forall l, Forall P l -> P (VTuple l).
Hypothesis Hdict : forall d, Forall (fun kv => P (snd kv)) d -> P (VDict d).
Hypothesis Hent : forall t vs, Forall P vs -> P (VEnt t vs).

Fixpoint value_ind (v : value) : P v :=
  let fix all (l : list value) : Forall P l :=
    match l with
    | [] => List.Forall_nil P
    | x :: r => @List.Forall_cons _ P x r (value_ind x) (all r)
    end in
  let fix all_items (d : list (string * value)) : Forall (fun kv => P (snd kv)) d :=
    match d with
    | [] => List.Forall_nil _
    | kv :: r =>
        @List.Forall_cons _ (fun kv => P (snd kv)) kv r (value_ind (snd kv)) (all_items r)
    end in
  match v with
  | VNone => Hnone
  | VInt z => Hint z
  | VStr s => Hstr s
  | VList l => Hlist l (all l)
  | VTuple l => Htuple l (all l)
  | VDict d => Hdict d (all_items d)
  | VEnt t vs => Hent t vs (all vs)
  end.
End value_induction.

(** * Properties *)

Lemma to_tree_inj : Inj (=) (=) to_tree.
Proof.
  intros a. induction a as [| | |l IH|l IH|d IH|t l IH] using value_ind;
    intros b Hab; destruct b as [| | |l'|l'|d'|t' l']; simpl in Hab; try discriminate;
    try (injection Hab as ->; reflexivity); try reflexivity.
  - f_equal. injection Hab as Hab. revert l' Hab.
    induction IH as [|x r Hx _ IHr]; intros [|y r'] Hab; simpl in Hab; try discriminate; auto.
    injection Hab as Hxy Hr. f_equal; auto.
  - f_equal. injection Hab as Hab. revert l' Hab.
    induction IH as [|x r Hx _ IHr]; intros [|y r'] Hab; simpl in Hab; try discriminate; auto.
    injection Hab as Hxy Hr. f_equal; auto.
  - f_equal. injection Hab as Hab. revert d' Hab.
    induction IH as [|[k x] r Hx _ IHr]; intros [|[k' y] r'] Hab; simpl in Hab;
      try discriminate; auto.
    injection Hab as Hk Hxy Hr. f_equal; auto. f_equal; auto.
  - injection Hab as Ht Hab.
    assert (t = t') as -> by (destruct t, t'; simpl in Ht; try lia; reflexivity).
    f_equal. revert l' Hab.
    induction IH as [|x r Hx _ IHr]; intros [|y r'] Hab; simpl in Hab; try discriminate; auto.
    injection Hab as Hxy Hr. f_equal; auto.
Qed.

Global Instance value_eq_dec : EqDecision value.
Proof.
  intros a b. destruct (decide (to_tree a = to_tree b)) as [Heq|Hne].
  - left. exact (to_tree_inj _ _ Heq).
  - right. intros ->. exact (Hne eq_refl).
Defined.

Lemma sample_fields_nodup t : NoDup (sample_fields t).
Proof. destruct t; apply (bool_decide_unpack (NoDup _)); vm_compute; exact I. Qed.

Lemma sample_fields_public t k :
  k ∈ sample_fields t -> String.get 0 k <> Some "_"%char.
Proof.
  intros Hin Hget. destruct t; simpl in Hin;
    repeat (apply elem_of_cons in Hin as [->|Hin]; [simpl in Hget; discriminate|]);
    apply elem_of_nil in Hin; exact Hin.
Qed.

(** The declarations above as an instance of [Core]. *)
Definition sample_core : Core :=
  {| fields := sample_fields;
     fields_nodup := sample_fields_nodup;
     fields_public := sample_fields_public |}.

(** Pickling to the canonical tree. *)
Definition tree_pickle : Pickle :=
  {| pickle_key := gen_tree (Z + string); pickle_dumps := to_tree |}.

(** ** Objects with their identity

    [pickle.dumps], the key of the table of the deduplicating encoders,
    depends on more than the content of an object: the pickler keeps a memo
    of the objects it has written, by [id], and writes an object it meets
    again as a reference to its memo entry.  Which sub-objects of an object
    are one and the same object in memory therefore shows in its pickled
    bytes.  The objects below carry that identity. *)

Module Objects.

(** [id(obj)] *)
Definition addr := nat.

(** The values of [value], each object that the pickler memoizes with its
    identity: strings (the keys of a dictionary among them), lists, tuples,
    dictionaries and instances.  [None] and integers are never memoized.
    An item [(k, (a, v))] of a dictionary is the key [k], a string object
    at [a], with its value [v]. *)
#[local] Unset Elimination Schemes.
Inductive obj : Type :=
| ONone
| OInt (z : Z)
| OStr (a : addr) (s : string)
| OList (a : addr) (l : list obj)
| OTuple (a : addr) (l : list obj)
| ODict (a : addr) (d : list (string * (addr * obj)))
| OEnt (a : addr) (t : etype) (vs : list obj).
#[local] Set Elimination Schemes.
Arguments OStr a%_nat s.
Arguments OList a%_nat l.
Arguments OTuple a%_nat l.
Arguments ODict a%_nat d.
Arguments OEnt a%_nat t vs.

(** The content of an object: the value it is equal to ([==]) whatever the
    identities. *)
Fixpoint erase (o : obj) : value :=
  match o with
  | ONone => VNone
  | OInt z => VInt z
  | OStr _ s => VStr s
  | OList _ l => VList (map erase l)
  | OTuple _ l => VTuple (map erase l)
  | ODict _ d => VDict (map (fun kv => (fst kv, erase (snd (snd kv)))) d)
  | OEnt _ t vs => VEnt t (map erase vs)
  end.

(** An address holds one object: [h] gives the content found at each
    address, and every object inside [o] has the content [h] gives for its
    address. *)
Fixpoint consistent (h : gmap addr value) (o : obj) : bool :=
  match o with
  | ONone | OInt _ => true
  | OStr a _ => bool_decide (h !! a = Some (erase o))
  | OList a l | OTuple a l | OEnt a _ l =>
      bool_decide (h !! a = Some (erase o)) && forallb (consistent h) l
  | ODict a d =>
      bool_decide (h !! a = Some (erase o))
      && forallb (fun kv => bool_decide (h !! fst (snd kv) = Some (VStr (fst kv)))
                            && consistent h (snd (snd kv))) d
  end.

(** An object built a second time: the same content, with the same
    sub-objects shared, at the addresses [f] gives. *)
Fixpoint rebuild (f : addr -> addr) (o : obj) : obj :=
  match o with
  | ONone | OInt _ => o
  | OStr a s => OStr (f a) s
  | OList a l => OList (f a) (map (rebuild f) l)
  | OTuple a l => OTuple (f a) (map (rebuild f) l)
  | ODict a d =>
      ODict (f a)
        (map (fun kv => (fst kv, (f (fst (snd kv)), rebuild f (snd (snd kv))))) d)
  | OEnt a t vs => OEnt (f a) t (map (rebuild f) vs)
  end.

(** The content found at each address inside [o]. *)
Fixpoint contents (o : obj) : list (addr * value) :=
  match o with
  | ONone | OInt _ => []
  | OStr a _ => [(a, erase o)]
  | OList a l | OTuple a l | OEnt a _ l => (a, erase o) :: flat_map contents l
  | ODict a d =>
      (a, erase o)
      :: flat_map (fun kv => (fst (snd kv), VStr (fst kv)) :: contents (snd (snd kv))) d
  end.

(** The instances of registered classes inside [o]. *)
Fixpoint instances (o : obj) : list obj :=
  match o with
  | ONone | OInt _ | OStr _ _ => []
  | OList _ l | OTuple _ l => flat_map instances l
  | ODict _ d => flat_map (fun kv => instances (snd (snd kv))) d
  | OEnt _ _ vs => o :: flat_map instances vs
  end.

(** [pickle.dumps] on objects: the bytes are kept abstract, as a key. *)
Class Pickle := {
  pickled : Type;
  pickled_eq_dec : EqDecision pickled;
  pickled_countable : Countable pickled;
  dumps : obj -> pickled
}.
#[global] Existing Instance pickled_eq_dec.
#[global] Existing Instance pickled_countable.

(** What [pickle.loads] guarantees of the bytes: they determine the content
    of the object, so objects pickled to the same bytes are equal. *)
Definition loads_content `{Pickle} : Prop :=
  forall h a b, consistent h a = true -> consistent h b = true ->
    dumps a = dumps b -> erase a = erase b.

(** *** The pickler

    What the pickler writes for an object, as the tree of its opcodes, each
    node named after the opcode of the binary protocols that closes it: a
    primitive as itself, a list, a tuple or a dictionary with what is
    written for its elements in order, an instance with its class and what
    is written for its values, and an object already in the memo as
    [BINGET] of its memo index.  The byte string is this tree written out
    in the notation of the protocol in use.  The index counts the objects
    of the data in the order the pickler memoizes them; the memo entries it
    also makes for the classes and for the tuples of arguments move the
    indices by a number that the tree before the object determines, so two
    byte strings are equal exactly when the trees are. *)
#[local] Unset Elimination Schemes.
Inductive opcodes : Type :=
| NONE
| BININT (z : Z)
| BINUNICODE (s : string)
| BINGET (i : nat)
| APPENDS (items : list opcodes)
| TUPLE (items : list opcodes)
| SETITEMS (items : list (opcodes * opcodes))
| NEWOBJ (cls : etype) (args : list opcodes).
#[local] Set Elimination Schemes.
Arguments BINGET i%_nat.

Section memo_traversals.
Context {A B M : Type}.
Variable f : A -> M -> B * M.

(** [for x in l: save(x)] *)
Fixpoint save_all (l : list A) (memo : M) : list B * M :=
  match l with
  | [] => ([], memo)
  | x :: r =>
      let '(p, memo1) := f x memo in
      let '(ps, memo2) := save_all r memo1 in
      (p :: ps, memo2)
  end.
End memo_traversals.

(** [Pickler.memoize]: the next free index. *)
Definition memoize (a : addr) (memo : gmap addr nat) : gmap addr nat :=
  <[a := size memo]> memo.

(** [Pickler.save] on a string object. *)
Definition save_str (a : addr) (s : string) (memo : gmap addr nat)
  : opcodes * gmap addr nat :=
  match memo !! a with
  | Some i => (BINGET i, memo)
  | None => (BINUNICODE s, memoize a memo)
  end.

(** [save(k); save(v)] on an item of a dictionary. *)
Definition save_item (save : obj -> gmap addr nat -> opcodes * gmap addr nat)
    (kv : string * (addr * obj)) (memo : gmap addr nat)
  : (opcodes * opcodes) * gmap addr nat :=
  let '(pk, memo1) := save_str (fst (snd kv)) (fst kv) memo in
  let '(pv, memo2) := save (snd (snd kv)) memo1 in
  ((pk, pv), memo2).

(** The address of an object that has one. *)
Definition addr_of (o : obj) : option addr :=
  match o with
  | ONone | OInt _ => None
  | OStr a _ | OList a _ | OTuple a _ | ODict a _ | OEnt a _ _ => Some a
  end.

(** [Pickler.save]: the memo is looked up first; a string is memoized when
    written, a list or a dictionary before its elements, a tuple or an
    instance after them, the empty tuple never. *)
Fixpoint save (o : obj) (memo : gmap addr nat) : opcodes * gmap addr nat :=
  match o with
  | ONone => (NONE, memo)
  | OInt z => (BININT z, memo)
  | OStr a s => save_str a s memo
  | OList a l =>
      match memo !! a with
      | Some i => (BINGET i, memo)
      | None =>
          let '(ps, memo1) := save_all save l (memoize a memo) in
          (APPENDS ps, memo1)
      end
  | OTuple a l =>
      match memo !! a with
      | Some i => (BINGET i, memo)
      | None =>
          match l with
          | [] => (TUPLE [], memo)
          | _ =>
              let '(ps, memo1) := save_all save l memo in
              (TUPLE ps, memoize a memo1)
          end
      end
  | ODict a d =>
      match memo !! a with
      | Some i => (BINGET i, memo)
      | None =>
          let '(ps, memo1) := save_all (save_item save) d (memoize a memo) in
          (SETITEMS ps, memo1)
      end
  | OEnt a t vs =>
      match memo !! a with
      | Some i => (BINGET i, memo)
      | None =>
          let '(ps, memo1) := save_all save vs memo in
          (NEWOBJ t ps, memoize a memo1)
      end
  end.

(** [pickle.dumps(obj)]: a fresh pickler, with an empty memo. *)
Definition memo_dumps (o : obj) : opcodes := fst (save o ∅).

Module DeduplicatingSerializer.
Section with_pickle.
Context `{Pickle}.

(** The inner [encode], closed over [obj_table]. *)
Fixpoint encode_in (o : obj) (obj_table : gmap pickled nat)
  : result (value * gmap pickled nat) :=
  match o with
  | OList _ l =>
      '(ws, tbl) ← mapS encode_in l obj_table;
      Ok (VList ws, tbl)
  | ODict _ d =>
      _ ← assert (negb (dict_has "*" d) && negb (dict_has "&" d));
      '(ws, tbl) ← run_items
        (sorted_items (delay_items (fun kv => encode_in (snd kv)) d)) obj_table;
      Ok (VDict ws, tbl)
  | OEnt _ t vs =>
      let key := dumps o in
      match obj_table !! key with
      | Some n => Ok (VDict [("*", VInt (Z.of_nat n))], obj_table)
      | None =>
          '(ws, tbl) ← mapS encode_in vs obj_table;
          let d := VDict [("&", VStr (alias_of_type t)); ("_", VList ws)] in
          Ok (d, <[key := size tbl]> tbl)
      end
  | ONone | OInt _ | OStr _ _ => Ok (erase o, obj_table)
  | OTuple _ _ => Raise AssertionError
  end.

Definition encode (o : obj) : result value :=
  fst <$> encode_in o ∅.
End with_pickle.
End DeduplicatingSerializer.

(** The ["&"] nodes of an encoding: one for each entry of the table. *)
Fixpoint references (w : value) : nat :=
  match w with
  | VNone | VInt _ | VStr _ => 0
  | VList l | VTuple l | VEnt _ l => list_sum (map references l)
  | VDict d =>
      (if dict_has "&" d then 1 else 0)
      + list_sum (map (fun kv => references (snd kv)) d)
  end%nat.

(** The ["*"] nodes of an encoding. *)
Fixpoint pointers (w : value) : nat :=
  match w with
  | VNone | VInt _ | VStr _ => 0
  | VList l | VTuple l | VEnt _ l => list_sum (map pointers l)
  | VDict d =>
      (if dict_has "*" d then 1 else 0)
      + list_sum (map (fun kv => pointers (snd kv)) d)
  end%nat.

Section obj_induction.
Variable P : obj -> Prop.
Hypothesis Hnone : P ONone.
Hypothesis Hint : forall z, P (OInt z).
Hypothesis Hstr : forall a s, P (OStr a s).
Hypothesis Hlist : forall a l, Forall P l -> P (OList a l).
Hypothesis Htuple : forall a l, Forall P l -> P (OTuple a l).
Hypothesis Hdict : forall a d, Forall (fun kv => P (snd (snd kv))) d -> P (ODict a d).
Hypothesis Hent : forall a t vs, Forall P vs -> P (OEnt a t vs).

Fixpoint obj_ind (o : obj) : P o :=
  let fix all (l : list obj) : Forall P l :=
    match l with
    | [] => List.Forall_nil P
    | x :: r => @List.Forall_cons _ P x r (obj_ind x) (all r)
    end in
  let fix all_items (d : list (string * (addr * obj)))
      : Forall (fun kv => P (snd (snd kv))) d :=
    match d with
    | [] => List.Forall_nil _
    | kv :: r =>
        @List.Forall_cons _ (fun kv => P (snd (snd kv))) kv r
          (obj_ind (snd (snd kv))) (all_items r)
    end in
  match o with
  | ONone => Hnone
  | OInt z => Hint z
  | OStr a s => Hstr a s
  | OList a l => Hlist a l (all l)
  | OTuple a l => Htuple a l (all l)
  | ODict a d => Hdict a d (all_items d)
  | OEnt a t vs => Hent a t vs (all vs)
  end.
End obj_induction.
Section opcodes_induction.
Variable P : opcodes -> Prop.
Hypothesis Hnone : P NONE.
Hypothesis Hint : forall z, P (BININT z).
Hypothesis Hstr : forall s, P (BINUNICODE s).
Hypothesis Hget : forall i, P (BINGET i).
Hypothesis Happends : forall ps, Forall P ps -> P (APPENDS ps).
Hypothesis Htuple : forall ps, Forall P ps -> P (TUPLE ps).
Hypothesis Hsetitems :
  forall ps, Forall (fun kv => P (fst kv) /\ P (snd kv)) ps -> P (SETITEMS ps).
Hypothesis Hnewobj : forall t ps, Forall P ps -> P (NEWOBJ t ps).

Fixpoint opcodes_ind (p : opcodes) : P p :=
  let fix all (l : list opcodes) : Forall P l :=
    match l with
    | [] => List.Forall_nil P
    | x :: r => @List.Forall_cons _ P x r (opcodes_ind x) (all r)
    end in
  let fix all_items (d : list (opcodes * opcodes))
      : Forall (fun kv => P (fst kv) /\ P (snd kv)) d :=
    match d with
    | [] => List.Forall_nil _
    | kv :: r =>
        @List.Forall_cons _ (fun kv => P (fst kv) /\ P (snd kv)) kv r
          (conj (opcodes_ind (fst kv)) (opcodes_ind (snd kv))) (all_items r)
    end in
  match p with
  | NONE => Hnone
  | BININT z => Hint z
  | BINUNICODE s => Hstr s
  | BINGET i => Hget i
  | APPENDS ps => Happends ps (all ps)
  | TUPLE ps => Htuple ps (all ps)
  | SETITEMS ps => Hsetitems ps (all_items ps)
  | NEWOBJ t ps => Hnewobj t ps (all ps)
  end.
End opcodes_induction.
End Objects.

(** The opcodes as trees with integer and string leaves, to serve as keys. *)
Fixpoint opcodes_tree (p : Objects.opcodes) : gen_tree (Z + string) :=
  match p with
  | Objects.NONE => GenNode 0 []
  | Objects.BININT z => GenLeaf (inl z)
  | Objects.BINUNICODE s => GenLeaf (inr s)
  | Objects.BINGET i => GenNode 1 [GenLeaf (inl (Z.of_nat i))]
  | Objects.APPENDS ps => GenNode 2 (map opcodes_tree ps)
  | Objects.TUPLE ps => GenNode 3 (map opcodes_tree ps)
  | Objects.SETITEMS ps =>
      GenNode 4 (flat_map (fun kv => [opcodes_tree (fst kv); opcodes_tree (snd kv)]) ps)
  | Objects.NEWOBJ t ps => GenNode (5 + etype_index t) (map opcodes_tree ps)
  end.

Lemma opcodes_tree_inj : Inj (=) (=) opcodes_tree.
Proof.
  assert (forall l : list Objects.opcodes,
            Forall (fun p => forall q, opcodes_tree p = opcodes_tree q -> p = q) l ->
            forall l', map opcodes_tree l = map opcodes_tree l' -> l = l') as Hlist.
  { induction 1 as [|x r Hx _ IHr]; intros [|y r'] Hab; simpl in Hab;
      try discriminate; [reflexivity|].
    injection Hab as Hxy Hr. f_equal; auto. }
  intros a. induction a as [| | | |l IH|l IH|d IH|t l IH] using Objects.opcodes_ind;
    intros b Hab; destruct b as [| | | |l'|l'|d'|t' l']; simpl in Hab; try discriminate;
    try (injection Hab as ->; reflexivity); try reflexivity.
  - injection Hab as Hab. f_equal. lia.
  - injection Hab as Hab. f_equal. exact (Hlist l IH l' Hab).
  - injection Hab as Hab. f_equal. exact (Hlist l IH l' Hab).
  - injection Hab as Hab. f_equal. revert d' Hab.
    induction IH as [|[k x] r [Hk Hx] _ IHr]; intros [|[k' y] r'] Hab; simpl in Hab;
      try discriminate; [reflexivity|].
    injection Hab as Hkk Hxy Hr. f_equal; [f_equal|]; auto.
  - injection Hab as Ht Hab.
    assert (t = t') as -> by (destruct t, t'; simpl in Ht; try lia; reflexivity).
    f_equal. exact (Hlist l IH l' Hab).
Qed.

(** The pickler above as an instance of [Objects.Pickle]. *)
Definition memo_pickle : Objects.Pickle :=
  {| Objects.pickled := gen_tree (Z + string);
     Objects.dumps := fun o => opcodes_tree (Objects.memo_dumps o) |}.

(** The pickler of values, on the content of objects. *)
Definition content_pickle `{Pickle} : Objects.Pickle :=
  {| Objects.pickled := pickle_key;
     Objects.dumps := fun o => pickle_dumps (Objects.erase o) |}.

(** Two hypotheses [nn : nat := nat]: in the first the body and the type
    are one string object, in the second they are two. *)
Definition shared_hypothesis : Objects.obj :=
  Objects.OEnt 1 THypothesis
    [Objects.OList 2 [Objects.OStr 3 "nn"]; Objects.OStr 4 "nat"; Objects.OStr 4 "nat"].
Definition unshared_hypothesis : Objects.obj :=
  Objects.OEnt 5 THypothesis
    [Objects.OList 6 [Objects.OStr 7 "nn"]; Objects.OStr 8 "nat"; Objects.OStr 9 "nat"].

(** ** Invariants of the pickler and of the table of objects *)

(** What an encoding step does to the table: entries stay as they are,
    the new keys are pickles of the instances [new], and [n] keys are
    new. *)
Definition recorded `{Objects.Pickle} (new : list Objects.obj) (n : nat)
    (T T' : gmap Objects.pickled nat) : Prop :=
  (forall k i, T !! k = Some i -> T' !! k = Some i)
  /\ (forall k, is_Some (T' !! k) ->
        is_Some (T !! k) \/ exists u, u ∈ new /\ k = Objects.dumps u)
  /\ size T' = (size T + n)%nat.

(** The memo of a pickler: indices are below its size, and no two
    addresses share one. *)
Definition memo_ok (M : gmap Objects.addr nat) : Prop :=
  (forall x i, M !! x = Some i -> (i < size M)%nat)
  /\ (forall x x' i, M !! x = Some i -> M !! x' = Some i -> x = x').

(** [M'] keeps the entries of [M]; its new ones have the next indices and
    hold objects of size at most [n]. *)
Definition memo_ext (h : gmap Objects.addr value) (n : nat)
    (M M' : gmap Objects.addr nat) : Prop :=
  (forall x i, M !! x = Some i -> M' !! x = Some i)
  /\ (forall x i, M' !! x = Some i ->
        M !! x = Some i
        \/ ((size M <= i)%nat /\ exists v, h !! x = Some v /\ (vsize v <= n)%nat)).

(** Two picklers in step, on objects of the heaps [ha] and [hb]: their
    memos have the same size, and the objects they hold at one index have
    the same content, or are containers still being written, larger than
    [n]. *)
Definition memo_pre (ha hb : gmap Objects.addr value) (n : nat)
    (Ma Mb : gmap Objects.addr nat) : Prop :=
  size Ma = size Mb /\ memo_ok Ma /\ memo_ok Mb
  /\ forall x y i, Ma !! x = Some i -> Mb !! y = Some i ->
       ha !! x = hb !! y \/ exists v, ha !! x = Some v /\ (n < vsize v)%nat.

(** The two picklers after a step: still in step, and what they memoized
    has the same content. *)
Definition memo_post (ha hb : gmap Objects.addr value) (n : nat)
    (Ma Mb Ma' Mb' : gmap Objects.addr nat) : Prop :=
  size Ma' = size Mb' /\ memo_ok Ma' /\ memo_ok Mb'
  /\ memo_ext ha n Ma Ma' /\ memo_ext hb n Mb Mb'
  /\ forall x y i, (size Ma <= i)%nat -> Ma' !! x = Some i -> Mb' !! y = Some i ->
       ha !! x = hb !! y.

(** ** Dictionaries and sorting *)

Section dict_lemmas.
Context {A : Type}.
Implicit Types (d : list (string * A)) (k : string) (x : A).

Lemma dict_get_elem k x d : dict_get k d = Some x -> (k, x) ∈ d.
Proof.
  induction d as [|[k' y] r IH]; simpl; [discriminate|].
  destruct (String.eqb_spec k k') as [->|Hne].
  - intros [= ->]. apply list_elem_of_here.
  - intros Hr. apply list_elem_of_further, IH, Hr.
Qed.

Lemma dict_get_None k d : dict_get k d = None <-> k ∉ keys d.
Proof.
  induction d as [|[k' y] r IH]; simpl.
  - split; [intros _; apply not_elem_of_nil|reflexivity].
  - destruct (String.eqb_spec k k') as [->|Hne].
    + split; [discriminate|]. intros Hnot. destruct Hnot. apply list_elem_of_here.
    + rewrite IH, not_elem_of_cons. tauto.
Qed.

Lemma dict_get_unique k x d :
  NoDup (keys d) -> (k, x) ∈ d -> dict_get k d = Some x.
Proof.
  induction d as [|[k' y] r IH]; simpl; intros Hnd Hin.
  - apply elem_of_nil in Hin. destruct Hin.
  - apply NoDup_cons in Hnd as [Hk' Hnd].
    apply elem_of_cons in Hin as [[= -> ->]|Hin].
    + rewrite String.eqb_refl. reflexivity.
    + destruct (String.eqb_spec k k') as [->|Hne]; [|auto].
      destruct Hk'. apply (list_elem_of_fmap_2 fst _ (k', x)), Hin.
Qed.

Lemma dict_has_false k d : dict_has k d = false <-> k ∉ keys d.
Proof.
  unfold dict_has. rewrite <- dict_get_None.
  destruct (dict_get k d); split; congruence.
Qed.

Lemma insert_item_perm (kx : string * A) d : insert_item kx d ≡ₚ kx :: d.
Proof.
  induction d as [|ky r IH]; simpl; [reflexivity|].
  destruct (String.leb _ _); [reflexivity|].
  rewrite IH. apply perm_swap.
Qed.

Lemma sorted_items_perm d : sorted_items d ≡ₚ d.
Proof.
  induction d as [|kx r IH]; simpl; [reflexivity|].
  rewrite insert_item_perm, IH. reflexivity.
Qed.

Lemma sorted_items_length d : length (sorted_items d) = length d.
Proof. apply Permutation_length, sorted_items_perm. Qed.

Lemma sorted_items_keys_perm d : keys (sorted_items d) ≡ₚ keys d.
Proof. unfold keys. apply fmap_Permutation, sorted_items_perm. Qed.

Lemma sorted_items_nodup d : NoDup (keys d) -> NoDup (keys (sorted_items d)).
Proof. intros Hnd. rewrite sorted_items_keys_perm. exact Hnd. Qed.

Lemma insert_item_sorted (kx : string * A) d :
  key_sorted d -> key_sorted (insert_item kx d).
Proof.
  unfold key_sorted. induction d as [|ky r IH]; simpl; intros Hs.
  - repeat constructor.
  - apply Sorted_inv in Hs as [Hr Hhd].
    destruct (String.leb (fst kx) (fst ky)) eqn:Hle; simpl.
    + constructor; [constructor; assumption|constructor; exact Hle].
    + constructor; [exact (IH Hr)|].
      assert (String.leb (fst ky) (fst kx) = true) as Hge
        by (destruct (String.leb_total (fst kx) (fst ky)); congruence).
      destruct r as [|kz r']; simpl.
      * constructor; exact Hge.
      * apply HdRel_inv in Hhd.
        destruct (String.leb (fst kx) (fst kz)); constructor; assumption.
Qed.

Lemma sorted_items_sorted d : key_sorted (sorted_items d).
Proof.
  induction d as [|kx r IH]; simpl; [constructor|].
  apply insert_item_sorted, IH.
Qed.

Lemma sorted_items_fixed d : key_sorted d -> sorted_items d = d.
Proof.
  unfold key_sorted. induction d as [|kx r IH]; simpl; intros Hs; [reflexivity|].
  apply Sorted_inv in Hs as [Hr Hhd]. rewrite (IH Hr).
  destruct r as [|ky r']; simpl; [reflexivity|].
  apply HdRel_inv in Hhd. rewrite Hhd. reflexivity.
Qed.

Lemma sorted_items_idemp d : sorted_items (sorted_items d) = sorted_items d.
Proof. apply sorted_items_fixed, sorted_items_sorted. Qed.
End dict_lemmas.

Section dict_map_lemmas.
Context {A B : Type} (g : string * A -> string * B).
Hypothesis g_key : forall kx, fst (g kx) = fst kx.

Lemma keys_map_items d : keys (map g d) = keys d.
Proof.
  unfold keys. rewrite map_map. apply map_ext. exact g_key.
Qed.

Lemma insert_item_map kx d :
  insert_item (g kx) (map g d) = map g (insert_item kx d).
Proof.
  induction d as [|ky r IH]; simpl; [reflexivity|].
  rewrite !g_key. destruct (String.leb _ _); simpl; [reflexivity|].
  rewrite IH. reflexivity.
Qed.

Lemma sorted_items_map d : sorted_items (map g d) = map g (sorted_items d).
Proof.
  induction d as [|kx r IH]; simpl; [reflexivity|].
  rewrite IH. apply insert_item_map.
Qed.

End dict_map_lemmas.

Lemma delay_items_map {A B S : Type} (f : A -> S -> result (B * S)) d :
  delay_items f d = map (fun kv => (fst kv, f (snd kv))) d.
Proof. induction d as [|[k x] r IH]; simpl; [reflexivity|]. rewrite IH. reflexivity. Qed.

Lemma sorted_delay_items {A B S : Type} (f : A -> S -> result (B * S)) d :
  sorted_items (delay_items f d) = delay_items f (sorted_items d).
Proof.
  rewrite !delay_items_map. apply sorted_items_map. reflexivity.
Qed.

(** ** Boolean predicates over lists *)

Lemma forallb_Forall {A} (f : A -> bool) l :
  forallb f l = true <-> Forall (fun x => f x = true) l.
Proof.
  induction l as [|x r IH]; simpl.
  - split; [constructor|reflexivity].
  - rewrite andb_true_iff, IH, Forall_cons. reflexivity.
Qed.

Lemma Forall_impl2 {A} (P Q R : A -> Prop) l :
  Forall P l -> Forall Q l -> (forall x, P x -> Q x -> R x) -> Forall R l.
Proof.
  induction 1 as [|x r Hx _ IH]; intros HQ Himp; [constructor|].
  apply Forall_cons in HQ as [Hq HQ]. constructor; auto.
Qed.

Lemma dict_set_fresh {A} k (x : A) d :
  k ∉ keys d -> dict_set k x d = d ++ [(k, x)].
Proof.
  induction d as [|[k' y] r IH]; simpl; intros Hk; [reflexivity|].
  apply not_elem_of_cons in Hk as [Hne Hk].
  destruct (String.eqb_spec k k') as [->|_]; [congruence|].
  rewrite IH by exact Hk. reflexivity.
Qed.

(** ** Round trip through PlainSerializer *)

Section plain_traversals.
Context {A B : Type} (f : A -> result B) (g : B -> result A).

Lemma mapR_roundtrip l :
  Forall (fun x => exists w, f x = Ok w /\ g w = Ok x) l ->
  exists ws, mapR f l = Ok ws /\ mapR g ws = Ok l.
Proof.
  induction 1 as [|x r (w & Hf & Hg) _ (ws & Hfs & Hgs)]; simpl.
  - exists []. split; reflexivity.
  - exists (w :: ws). rewrite Hf; simpl. rewrite Hfs; simpl.
    rewrite Hg; simpl. rewrite Hgs. split; reflexivity.
Qed.

Lemma mapR_items_roundtrip d :
  Forall (fun kv => exists w, f (snd kv) = Ok w /\ g w = Ok (snd kv)) d ->
  exists ws, mapR_items f d = Ok ws /\ mapR_items g ws = Ok d /\ keys ws = keys d.
Proof.
  induction 1 as [|[k x] r (w & Hf & Hg) _ (ws & Hfs & Hgs & Hk)]; simpl in *.
  - exists []. repeat split; reflexivity.
  - exists ((k, w) :: ws). rewrite Hf; simpl. rewrite Hfs; simpl.
    rewrite Hg; simpl. rewrite Hgs; simpl. rewrite Hk. repeat split; reflexivity.
Qed.

Lemma mapR_items_zip ks ws vs :
  mapR g ws = Ok vs -> mapR_items g (zip ks ws) = Ok (zip ks vs).
Proof.
  revert ks vs. induction ws as [|w r IH]; intros ks vs; simpl.
  - intros [= <-]. destruct ks; reflexivity.
  - destruct (g w) as [v|] eqn:Hg; simpl; [|discriminate].
    destruct (mapR g r) as [vs'|] eqn:Hr; simpl; [|discriminate].
    intros [= <-]. destruct ks as [|k ks]; simpl; [reflexivity|].
    rewrite Hg. simpl. rewrite (IH ks vs' eq_refl). reflexivity.
Qed.
End plain_traversals.

Lemma store_fields_spec (enc : value -> result value) ks vs ws d0 :
  mapR enc vs = Ok ws ->
  length ks = length vs ->
  NoDup ks ->
  (forall k, k ∈ ks -> k ∉ keys d0) ->
  PlainSerializer.store_fields enc ks vs d0 = Ok (d0 ++ zip ks ws).
Proof.
  revert ks ws d0. induction vs as [|v r IH]; intros ks ws d0; simpl.
  - intros [= <-] Hlen _ _. destruct ks; [|discriminate].
    simpl. rewrite app_nil_r. reflexivity.
  - destruct (enc v) as [w|]; simpl; [|discriminate].
    destruct (mapR enc r) as [ws'|] eqn:Hr; simpl; [|discriminate].
    intros [= <-] Hlen Hnd Hfresh. destruct ks as [|k ks]; [discriminate|].
    simpl in *. apply NoDup_cons in Hnd as [Hk Hnd].
    rewrite dict_set_fresh by (apply Hfresh, list_elem_of_here).
    rewrite (IH ks ws' _ eq_refl); [|lia|exact Hnd|].
    + rewrite <- app_assoc. reflexivity.
    + intros k' Hk'. unfold keys. rewrite map_app. simpl.
      rewrite not_elem_of_app. split.
      * apply Hfresh, list_elem_of_further, Hk'.
      * rewrite not_elem_of_cons. split; [congruence|apply not_elem_of_nil].
Qed.

Lemma keys_zip {A} (ks : list string) (vs : list A) :
  length ks = length vs -> keys (zip ks vs) = ks.
Proof.
  revert vs. induction ks as [|k r IH]; intros [|v vs]; simpl; try discriminate; auto.
  intros [= Hlen]. rewrite IH by exact Hlen. reflexivity.
Qed.

Lemma lookup_all_zip (ks : list string) (vs : list value) (d : dict) :
  length ks = length vs ->
  (forall k v, (k, v) ∈ zip ks vs -> dict_get k d = Some v) ->
  mapM (fun k => dict_get k d) ks = Some vs.
Proof.
  revert vs. induction ks as [|k r IH]; intros [|v vs]; simpl; try discriminate; auto.
  intros [= Hlen] Hd. rewrite (Hd k v) by apply list_elem_of_here. simpl.
  rewrite (IH vs Hlen); [reflexivity|].
  intros k' v' Hin. apply Hd, list_elem_of_further, Hin.
Qed.

Lemma type_of_alias_of_type t : type_of_alias (alias_of_type t) = Some t.
Proof. destruct t; reflexivity. Qed.

Lemma alias_truthy t : truthy (VStr (alias_of_type t)) = true.
Proof. destruct t; reflexivity. Qed.

Section plain_roundtrip.
Context `{Core}.

Lemma type_key_not_field t : "_type" ∉ fields t.
Proof. intros Hin. apply (fields_public t _ Hin). reflexivity. Qed.

Lemma construct_keywords_zip t vs :
  length vs = length (fields t) ->
  construct_keywords t (zip (fields t) vs) = Ok (VEnt t vs).
Proof.
  intros Hlen. unfold construct_keywords.
  rewrite keys_zip by (symmetry; exact Hlen).
  assert (forallb (fun k => existsb (String.eqb k) (fields t)) (fields t) = true) as ->.
  { apply forallb_Forall, Forall_forall. intros k Hk.
    apply existsb_exists. exists k. split; [|apply String.eqb_refl].
    apply list_elem_of_In, Hk. }
  rewrite (lookup_all_zip (fields t) vs); [reflexivity|symmetry; exact Hlen|].
  intros k v Hin. apply dict_get_unique; [|exact Hin].
  rewrite keys_zip by (symmetry; exact Hlen). apply fields_nodup.
Qed.

Lemma plain_roundtrip v :
  wf v = true -> serializable v = true -> avoids ["_type"] v = true ->
  exists w, PlainSerializer.encode v = Ok w /\ PlainSerializer.decode w = Ok v.
Proof.
  induction v as [| | |l IH|l IH|d IH|t vs IH] using value_ind;
    simpl; intros Hwf Hser Hav; try discriminate.
  - exists VNone. split; reflexivity.
  - exists (VInt z). split; reflexivity.
  - exists (VStr s). split; reflexivity.
  - apply forallb_Forall in Hwf, Hser, Hav.
    destruct (mapR_roundtrip PlainSerializer.encode PlainSerializer.decode l)
      as (ws & Henc & Hdec).
    { eapply Forall_impl2; [exact IH| |].
      - apply Forall_and. split; [exact Hwf|].
        apply Forall_and. split; [exact Hser|exact Hav].
      - simpl. intros x Hx (? & ? & ?). auto. }
    exists (VList ws). rewrite Henc; simpl. rewrite Hdec. split; reflexivity.
  - apply andb_true_iff in Hwf as [_ Hwf]. apply andb_true_iff in Hav as [Hres Hav].
    apply forallb_Forall in Hwf, Hser, Hav.
    rewrite andb_true_r in Hres. apply negb_true_iff in Hres.
    destruct (mapR_items_roundtrip PlainSerializer.encode PlainSerializer.decode d)
      as (ws & Henc & Hdec & Hkeys).
    { eapply Forall_impl2; [exact IH| |].
      - apply Forall_and. split; [exact Hwf|].
        apply Forall_and. split; [exact Hser|exact Hav].
      - simpl. intros x Hx (? & ? & ?). auto. }
    exists (VDict ws). rewrite Hres; simpl. rewrite Henc; simpl.
    rewrite Hdec; simpl.
    apply dict_has_false, dict_get_None in Hres. rewrite Hres. split; reflexivity.
  - apply andb_true_iff in Hwf as [Hlen Hwf]. apply Nat.eqb_eq in Hlen.
    apply forallb_Forall in Hwf, Hser, Hav.
    destruct (mapR_roundtrip PlainSerializer.encode PlainSerializer.decode vs)
      as (ws & Henc & Hdec).
    { eapply Forall_impl2; [exact IH| |].
      - apply Forall_and. split; [exact Hwf|].
        apply Forall_and. split; [exact Hser|exact Hav].
      - simpl. intros x Hx (? & ? & ?). auto. }
    exists (VDict (("_type", VStr (alias_of_type t)) :: zip (fields t) ws)).
    rewrite (store_fields_spec _ _ _ ws); [|exact Henc|auto|apply fields_nodup|].
    + split; [reflexivity|]. simpl.
      rewrite (mapR_items_zip _ _ _ vs Hdec). simpl.
      pose proof (alias_truthy t) as Htruthy. simpl in Htruthy.
      rewrite Htruthy, type_of_alias_of_type. simpl.
      apply construct_keywords_zip, Hlen.
    + intros k Hk. simpl. rewrite not_elem_of_cons. split; [|apply not_elem_of_nil].
      intros ->. exact (type_key_not_field t Hk).
Qed.
End plain_roundtrip.

(** ** Traversals that keep an encoder and a decoder in step *)

Section chains.
Context {A B C S S' : Type}.
Variable enc : A -> S -> result (B * S).
Variable dec : B -> S' -> result (C * S').
Variable out : A -> C.
(** What relates the two tables, and how the encoder's table evolves. *)
Variable I : S -> S' -> Prop.
Variable R : S -> S -> Prop.
Hypothesis R_refl : forall s, R s s.
Hypothesis R_trans : forall s1 s2 s3, R s1 s2 -> R s2 s3 -> R s1 s3.

Lemma mapS_chain l :
  Forall (in_step enc dec out I R) l ->
  forall s s', I s s' ->
    exists ws s1 s1',
      mapS enc l s = Ok (ws, s1) /\ mapS dec ws s' = Ok (map out l, s1')
      /\ I s1 s1' /\ R s s1.
Proof.
  induction 1 as [|x r Hx _ IH]; intros s s' HI; simpl.
  - exists [], s, s'. auto.
  - destruct (Hx s s' HI) as (w & s1 & s1' & He & Hd & HI1 & HR1).
    destruct (IH s1 s1' HI1) as (ws & s2 & s2' & Hes & Hds & HI2 & HR2).
    exists (w :: ws), s2, s2'. rewrite He; simpl. rewrite Hes; simpl.
    rewrite Hd; simpl. rewrite Hds; simpl. eauto.
Qed.

Lemma run_items_chain d :
  Forall (fun kv => in_step enc dec out I R (snd kv)) d ->
  forall s s', I s s' ->
    exists ws s1 s1',
      run_items (delay_items enc d) s = Ok (ws, s1)
      /\ run_items (delay_items dec ws) s'
         = Ok (map (fun kv => (fst kv, out (snd kv))) d, s1')
      /\ keys ws = keys d /\ I s1 s1' /\ R s s1.
Proof.
  induction 1 as [|[k x] r Hx _ IH]; intros s s' HI; simpl in *.
  - exists [], s, s'. auto.
  - destruct (Hx s s' HI) as (w & s1 & s1' & He & Hd & HI1 & HR1).
    destruct (IH s1 s1' HI1) as (ws & s2 & s2' & Hes & Hds & Hk & HI2 & HR2).
    exists ((k, w) :: ws), s2, s2'. rewrite He; simpl. rewrite Hes; simpl.
    rewrite Hd; simpl. rewrite Hds; simpl. rewrite Hk. eauto 6.
Qed.
End chains.

Lemma list_index_nat (l : list value) (n : nat) x :
  l !! n = Some x -> list_index l (VInt (Z.of_nat n)) = Ok x.
Proof.
  intros Hl. pose proof (lookup_lt_Some _ _ _ Hl) as Hlt. unfold list_index.
  replace (Z.ltb (Z.of_nat n) 0) with false by (symmetry; apply Z.ltb_ge; lia).
  replace (Z.leb 0 (Z.of_nat n)) with true by (symmetry; apply Z.leb_le; lia).
  replace (Z.ltb (Z.of_nat n) (Z.of_nat (length l))) with true
    by (symmetry; apply Z.ltb_lt; lia).
  simpl. rewrite Nat2Z.id, Hl. reflexivity.
Qed.

Lemma vsize_elem (l : list value) x :
  x ∈ l -> (vsize x <= list_sum (map vsize l))%nat.
Proof.
  induction 1 as [x r|x y r _ IH]; simpl; lia.
Qed.

Lemma vsize_item (d : dict) kv :
  kv ∈ d -> (vsize (snd kv) <= list_sum (map (fun kv => vsize (snd kv)) d))%nat.
Proof.
  induction 1 as [x r|x y r _ IH]; simpl; lia.
Qed.

(** ** Round trip through DeduplicatingSerializer *)

Section dedup_tables.
Context `{Pickle}.

Lemma grows_refl n T : grows n T T.
Proof. intros k Hk. left. exact Hk. Qed.

Lemma grows_trans n T1 T2 T3 : grows n T1 T2 -> grows n T2 T3 -> grows n T1 T3.
Proof.
  intros H12 H23 k Hk. destruct (H23 k Hk) as [Hk2|Hu]; [|right; exact Hu].
  apply H12, Hk2.
Qed.

Lemma grows_mono n m T T' : (n <= m)%nat -> grows n T T' -> grows m T T'.
Proof.
  intros Hle Hg k Hk. destruct (Hg k Hk) as [Hk'|(u & -> & Hu)]; [left; exact Hk'|].
  right. exists u. split; [reflexivity|lia].
Qed.

Lemma sync_empty : sync ∅ [].
Proof.
  split; [reflexivity|]. intros k i Hk. rewrite lookup_empty in Hk. discriminate.
Qed.

Lemma sync_insert T D v :
  sync T D -> T !! pickle_dumps v = None ->
  sync (<[pickle_dumps v := size T]> T) (D ++ [sort_keys v]).
Proof.
  intros [Hsize Hlook] Hfresh. split.
  - rewrite map_size_insert_None by exact Hfresh. rewrite length_app. simpl. lia.
  - intros k i Hk. destruct (decide (pickle_dumps v = k)) as [<-|Hne].
    + rewrite lookup_insert_eq in Hk. injection Hk as <-.
      exists v. split; [reflexivity|].
      rewrite Hsize. rewrite lookup_app_r by lia.
      rewrite Nat.sub_diag. reflexivity.
    + rewrite lookup_insert_ne in Hk by exact Hne.
      destruct (Hlook k i Hk) as (u & -> & Hu). exists u. split; [reflexivity|].
      apply lookup_app_l_Some, Hu.
Qed.

Lemma grows_insert n T T' v :
  grows n T T' -> (vsize v <= S n)%nat ->
  grows (S n) T (<[pickle_dumps v := size T']> T').
Proof.
  intros Hg Hv k Hk. destruct (decide (pickle_dumps v = k)) as [<-|Hne].
  - right. exists v. split; [reflexivity|exact Hv].
  - rewrite lookup_insert_ne in Hk by exact Hne.
    apply (grows_mono n (S n)) in Hg; [|lia]. apply Hg, Hk.
Qed.

(** A key of an object larger than [n] is still absent after a traversal
    that grows the table by objects of size at most [n]. *)
Lemma grows_fresh n T T' v :
  (forall a b, pickle_dumps a = pickle_dumps b -> a = b) ->
  grows n T T' -> T !! pickle_dumps v = None -> (n < vsize v)%nat ->
  T' !! pickle_dumps v = None.
Proof.
  intros Hinj Hg Hfresh Hlt.
  destruct (T' !! pickle_dumps v) as [i|] eqn:Hk; [|reflexivity].
  destruct (Hg (pickle_dumps v)) as [[j Hj]|(u & Hu & Hsz)].
  - rewrite Hk. eauto.
  - congruence.
  - apply Hinj in Hu. subst u. lia.
Qed.
End dedup_tables.

#[local] Arguments list_index : simpl never.
#[local] Arguments construct_positional : simpl never.

Section dedup_roundtrip.
Context `{Core} `{Pickle}.
Hypothesis pickle_inj : forall a b, pickle_dumps a = pickle_dumps b -> a = b.

Lemma dedup_decode_pointer copy n D x :
  D !! n = Some x ->
  DeduplicatingSerializer.decode_in copy (VDict [("*", VInt (Z.of_nat n))]) D = Ok (x, D).
Proof.
  intros Hn. simpl. rewrite (list_index_nat _ _ _ Hn). simpl.
  destruct copy; reflexivity.
Qed.

Lemma dedup_decode_reference copy t ws D :
  DeduplicatingSerializer.decode_in copy
    (VDict [("&", VStr (alias_of_type t)); ("_", VList ws)]) D
  = '(args, tbl) ← mapS (DeduplicatingSerializer.decode_in copy) ws D;
    obj ← construct_positional t args;
    Ok (obj, tbl ++ [obj]).
Proof. simpl. rewrite type_of_alias_of_type. reflexivity. Qed.

Lemma dedup_decode_dict copy ws D :
  dict_get "*" ws = None -> dict_get "&" ws = None ->
  DeduplicatingSerializer.decode_in copy (VDict ws) D
  = '(vs, tbl) ← run_items
      (sorted_items (delay_items (DeduplicatingSerializer.decode_in copy) ws)) D;
    Ok (VDict vs, tbl).
Proof. intros Hstar Hamp. simpl. rewrite Hstar, Hamp. reflexivity. Qed.

Lemma reserved_split (d : dict) :
  forallb (fun k => negb (dict_has k d)) ["*"; "&"] = true ->
  dict_has "*" d = false /\ dict_has "&" d = false.
Proof.
  simpl. rewrite !andb_true_iff, !negb_true_iff. tauto.
Qed.

Lemma dedup_roundtrip_in copy v :
  wf v = true -> serializable v = true -> avoids ["*"; "&"] v = true ->
  forall T D, sync T D ->
    exists w T' D',
      DeduplicatingSerializer.encode_in v T = Ok (w, T')
      /\ DeduplicatingSerializer.decode_in copy w D = Ok (sort_keys v, D')
      /\ sync T' D' /\ grows (vsize v) T T'.
Proof.
  induction v as [| | |l IH|l IH|d IH|t vs IH] using value_ind;
    intros Hwf Hser Hav T D Hsync; try discriminate.
  - exists VNone, T, D. auto using grows_refl.
  - exists (VInt z), T, D. auto using grows_refl.
  - exists (VStr s), T, D. auto using grows_refl.
  - simpl in Hwf, Hser, Hav. apply forallb_Forall in Hwf, Hser, Hav.
    rewrite Forall_forall in IH, Hwf, Hser, Hav.
    destruct (mapS_chain DeduplicatingSerializer.encode_in
                (DeduplicatingSerializer.decode_in copy) sort_keys sync
                (grows (list_sum (map vsize l)))
                (grows_refl _) (grows_trans _) l) with (s := T) (s' := D)
      as (ws & T' & D' & Henc & Hdec & Hsync' & Hgrow); [|exact Hsync|].
    { apply Forall_forall. intros x Hx T0 D0 Hs0.
      destruct (IH x Hx (Hwf x Hx) (Hser x Hx) (Hav x Hx) T0 D0 Hs0)
        as (w & T1 & D1 & He & Hd & Hs & Hg).
      exists w, T1, D1. split; [exact He|]. split; [exact Hd|]. split; [exact Hs|].
      eapply grows_mono; [|exact Hg]. apply vsize_elem, Hx. }
    exists (VList ws), T', D'. simpl. rewrite Henc; simpl. rewrite Hdec; simpl.
    split; [reflexivity|]. split; [reflexivity|]. split; [exact Hsync'|].
    eapply grows_mono; [|exact Hgrow]. lia.
  - simpl in Hwf, Hser, Hav.
    apply andb_true_iff in Hwf as [Hnd Hwf]. apply bool_decide_eq_true in Hnd.
    apply andb_true_iff in Hav as [Hres Hav].
    apply reserved_split in Hres as [Hstar Hamp].
    apply forallb_Forall in Hwf, Hser, Hav.
    rewrite Forall_forall in IH, Hwf, Hser, Hav.
    destruct (run_items_chain DeduplicatingSerializer.encode_in
                (DeduplicatingSerializer.decode_in copy) sort_keys sync
                (grows (list_sum (map (fun kv => vsize (snd kv)) d)))
                (grows_refl _) (grows_trans _) (sorted_items d))
      with (s := T) (s' := D)
      as (ws & T' & D' & Henc & Hdec & Hkeys & Hsync' & Hgrow); [|exact Hsync|].
    { apply Forall_forall. intros kv Hkv T0 D0 Hs0.
      rewrite sorted_items_perm in Hkv.
      destruct (IH kv Hkv (Hwf kv Hkv) (Hser kv Hkv) (Hav kv Hkv) T0 D0 Hs0)
        as (w & T1 & D1 & He & Hd & Hs & Hg).
      exists w, T1, D1. split; [exact He|]. split; [exact Hd|]. split; [exact Hs|].
      eapply grows_mono; [|exact Hg]. apply vsize_item, Hkv. }
    exists (VDict ws), T', D'. split; [|split; [|split; [exact Hsync'|]]].
    + simpl. rewrite Hstar, Hamp. simpl. rewrite sorted_delay_items, Henc.
      reflexivity.
    + assert (forall k, dict_has k d = false -> dict_get k ws = None) as Hnone.
      { intros k Hk. apply dict_get_None. rewrite Hkeys, sorted_items_keys_perm.
        apply dict_has_false, Hk. }
      rewrite dedup_decode_dict by auto.
      rewrite sorted_delay_items, (sorted_items_fixed ws).
      2:{ unfold key_sorted. rewrite Hkeys. apply sorted_items_sorted. }
      rewrite Hdec. simpl. rewrite sorted_items_map by reflexivity. reflexivity.
    + eapply grows_mono; [|exact Hgrow]. simpl. lia.
  - simpl in Hwf, Hser, Hav.
    apply andb_true_iff in Hwf as [Hlen Hwf]. apply Nat.eqb_eq in Hlen.
    apply forallb_Forall in Hwf, Hser, Hav.
    rewrite Forall_forall in IH, Hwf, Hser, Hav.
    simpl DeduplicatingSerializer.encode_in.
    destruct (T !! pickle_dumps (VEnt t vs)) as [n|] eqn:Hkey.
    + destruct (proj2 Hsync _ _ Hkey) as (u & Hu & Hn).
      apply pickle_inj in Hu. subst u.
      exists (VDict [("*", VInt (Z.of_nat n))]), T, D.
      rewrite (dedup_decode_pointer copy n D _ Hn).
      auto using grows_refl.
    + destruct (mapS_chain DeduplicatingSerializer.encode_in
                  (DeduplicatingSerializer.decode_in copy) sort_keys sync
                  (grows (list_sum (map vsize vs)))
                  (grows_refl _) (grows_trans _) vs) with (s := T) (s' := D)
        as (ws & T' & D' & Henc & Hdec & Hsync' & Hgrow); [|exact Hsync|].
      { apply Forall_forall. intros x Hx T0 D0 Hs0.
        destruct (IH x Hx (Hwf x Hx) (Hser x Hx) (Hav x Hx) T0 D0 Hs0)
          as (w & T1 & D1 & He & Hd & Hs & Hg).
        exists w, T1, D1. split; [exact He|]. split; [exact Hd|]. split; [exact Hs|].
        eapply grows_mono; [|exact Hg]. apply vsize_elem, Hx. }
      assert (T' !! pickle_dumps (VEnt t vs) = None) as Hfresh.
      { apply (grows_fresh (list_sum (map vsize vs)) T T'); auto; simpl; lia. }
      exists (VDict [("&", VStr (alias_of_type t)); ("_", VList ws)]),
        (<[pickle_dumps (VEnt t vs) := size T']> T'),
        (D' ++ [sort_keys (VEnt t vs)]).
      split; [|split; [|split]].
      * rewrite Henc. reflexivity.
      * rewrite dedup_decode_reference, Hdec. simpl.
        unfold construct_positional. rewrite length_map, Hlen, Nat.eqb_refl.
        reflexivity.
      * apply (sync_insert T' D' (VEnt t vs)); assumption.
      * apply (grows_insert (list_sum (map vsize vs)) T T' (VEnt t vs));
          [exact Hgrow|apply Nat.le_refl].
Qed.
End dedup_roundtrip.

(** ** Round trip through FullyDeduplicatingSerializer *)

Section fully_roundtrip.
Context `{Core} `{Pickle}.
Hypothesis pickle_inj : forall a b, pickle_dumps a = pickle_dumps b -> a = b.

Lemma fully_encode_pointer v T n :
  T !! pickle_dumps v = Some n ->
  FullyDeduplicatingSerializer.encode_in v T
  = Ok (VDict [("*", VInt (Z.of_nat n))], T).
Proof. intros Hn. destruct v; simpl; rewrite Hn; reflexivity. Qed.

Lemma fully_decode_pointer copy n D x :
  D !! n = Some x ->
  FullyDeduplicatingSerializer.decode_in copy (VDict [("*", VInt (Z.of_nat n))]) D
  = Ok (x, D).
Proof.
  intros Hn. simpl. rewrite (list_index_nat _ _ _ Hn). simpl.
  destruct copy; reflexivity.
Qed.

Lemma fully_decode_reference copy t ws D :
  FullyDeduplicatingSerializer.decode_in copy
    (VDict [("&", VStr (alias_of_type t)); ("_", VList ws)]) D
  = '(obj, tbl) ←
      ('(args, tbl) ← mapS (FullyDeduplicatingSerializer.decode_in copy) ws D;
       obj ← construct_positional t args;
       Ok (obj, tbl));
    Ok (obj, tbl ++ [obj]).
Proof. simpl. rewrite type_of_alias_of_type. reflexivity. Qed.

Lemma fully_decode_dict copy ws D :
  dict_get "*" ws = None -> dict_get "&" ws = None ->
  FullyDeduplicatingSerializer.decode_in copy (VDict ws) D
  = '(obj, tbl) ←
      ('(vs, tbl) ← run_items
         (sorted_items (delay_items (FullyDeduplicatingSerializer.decode_in copy) ws)) D;
       Ok (VDict vs, tbl));
    Ok (obj, tbl ++ [obj]).
Proof. intros Hstar Hamp. simpl. rewrite Hstar, Hamp. reflexivity. Qed.

Lemma fully_roundtrip_in copy v :
  wf v = true -> serializable v = true -> avoids ["*"; "&"] v = true ->
  forall T D, sync T D ->
    exists w T' D',
      FullyDeduplicatingSerializer.encode_in v T = Ok (w, T')
      /\ FullyDeduplicatingSerializer.decode_in copy w D = Ok (sort_keys v, D')
      /\ sync T' D' /\ grows (vsize v) T T'.
Proof.
  assert (forall v T D, sync T D -> forall n, T !! pickle_dumps v = Some n ->
            exists w T' D',
              FullyDeduplicatingSerializer.encode_in v T = Ok (w, T')
              /\ FullyDeduplicatingSerializer.decode_in copy w D = Ok (sort_keys v, D')
              /\ sync T' D' /\ grows (vsize v) T T') as Hpointer.
  { intros u T D Hsync n Hkey.
    destruct (proj2 Hsync _ _ Hkey) as (u' & Hu & Hn).
    apply pickle_inj in Hu. subst u'.
    exists (VDict [("*", VInt (Z.of_nat n))]), T, D.
    rewrite (fully_encode_pointer _ _ _ Hkey), (fully_decode_pointer copy n D _ Hn).
    auto using grows_refl. }
  induction v as [| | |l IH|l IH|d IH|t vs IH] using value_ind;
    intros Hwf Hser Hav T D Hsync; try discriminate.
  - destruct (T !! pickle_dumps VNone) as [n|] eqn:Hkey; [eauto|].
    exists VNone, (<[pickle_dumps VNone := size T]> T), (D ++ [VNone]).
    split; [simpl; rewrite Hkey; reflexivity|]. split; [reflexivity|].
    split; [apply (sync_insert T D VNone); assumption|].
    apply (grows_insert 0 T T VNone); [apply grows_refl|apply Nat.le_refl].
  - destruct (T !! pickle_dumps (VInt z)) as [n|] eqn:Hkey; [eauto|].
    exists (VInt z), (<[pickle_dumps (VInt z) := size T]> T), (D ++ [VInt z]).
    split; [simpl; rewrite Hkey; reflexivity|]. split; [reflexivity|].
    split; [apply (sync_insert T D (VInt z)); assumption|].
    apply (grows_insert 0 T T (VInt z)); [apply grows_refl|apply Nat.le_refl].
  - destruct (T !! pickle_dumps (VStr s)) as [n|] eqn:Hkey; [eauto|].
    exists (VStr s), (<[pickle_dumps (VStr s) := size T]> T), (D ++ [VStr s]).
    split; [simpl; rewrite Hkey; reflexivity|]. split; [reflexivity|].
    split; [apply (sync_insert T D (VStr s)); assumption|].
    apply (grows_insert 0 T T (VStr s)); [apply grows_refl|apply Nat.le_refl].
  - destruct (T !! pickle_dumps (VList l)) as [n|] eqn:Hkey; [eauto|].
    simpl in Hwf, Hser, Hav. apply forallb_Forall in Hwf, Hser, Hav.
    rewrite Forall_forall in IH, Hwf, Hser, Hav.
    destruct (mapS_chain FullyDeduplicatingSerializer.encode_in
                (FullyDeduplicatingSerializer.decode_in copy) sort_keys sync
                (grows (list_sum (map vsize l)))
                (grows_refl _) (grows_trans _) l) with (s := T) (s' := D)
      as (ws & T' & D' & Henc & Hdec & Hsync' & Hgrow); [|exact Hsync|].
    { apply Forall_forall. intros x Hx T0 D0 Hs0.
      destruct (IH x Hx (Hwf x Hx) (Hser x Hx) (Hav x Hx) T0 D0 Hs0)
        as (w & T1 & D1 & He & Hd & Hs & Hg).
      exists w, T1, D1. split; [exact He|]. split; [exact Hd|]. split; [exact Hs|].
      eapply grows_mono; [|exact Hg]. apply vsize_elem, Hx. }
    assert (T' !! pickle_dumps (VList l) = None) as Hfresh.
    { apply (grows_fresh (list_sum (map vsize l)) T T'); auto; simpl; lia. }
    exists (VList ws), (<[pickle_dumps (VList l) := size T']> T'),
      (D' ++ [sort_keys (VList l)]).
    split; [|split; [|split]].
    + simpl. rewrite Hkey, Henc. reflexivity.
    + simpl. rewrite Hdec. reflexivity.
    + apply (sync_insert T' D' (VList l)); assumption.
    + apply (grows_insert (list_sum (map vsize l)) T T' (VList l));
        [exact Hgrow|apply Nat.le_refl].
  - destruct (T !! pickle_dumps (VDict d)) as [n|] eqn:Hkey; [eauto|].
    simpl in Hwf, Hser, Hav.
    apply andb_true_iff in Hwf as [Hnd Hwf]. apply bool_decide_eq_true in Hnd.
    apply andb_true_iff in Hav as [Hres Hav].
    apply reserved_split in Hres as [Hstar Hamp].
    apply forallb_Forall in Hwf, Hser, Hav.
    rewrite Forall_forall in IH, Hwf, Hser, Hav.
    destruct (run_items_chain FullyDeduplicatingSerializer.encode_in
                (FullyDeduplicatingSerializer.decode_in copy) sort_keys sync
                (grows (list_sum (map (fun kv => vsize (snd kv)) d)))
                (grows_refl _) (grows_trans _) (sorted_items d))
      with (s := T) (s' := D)
      as (ws & T' & D' & Henc & Hdec & Hkeys & Hsync' & Hgrow); [|exact Hsync|].
    { apply Forall_forall. intros kv Hkv T0 D0 Hs0.
      rewrite sorted_items_perm in Hkv.
      destruct (IH kv Hkv (Hwf kv Hkv) (Hser kv Hkv) (Hav kv Hkv) T0 D0 Hs0)
        as (w & T1 & D1 & He & Hd & Hs & Hg).
      exists w, T1, D1. split; [exact He|]. split; [exact Hd|]. split; [exact Hs|].
      eapply grows_mono; [|exact Hg]. apply vsize_item, Hkv. }
    assert (T' !! pickle_dumps (VDict d) = None) as Hfresh.
    { apply (grows_fresh (list_sum (map (fun kv => vsize (snd kv)) d)) T T');
        auto; simpl; lia. }
    exists (VDict ws), (<[pickle_dumps (VDict d) := size T']> T'),
      (D' ++ [sort_keys (VDict d)]).
    split; [|split; [|split]].
    + simpl. rewrite Hkey, Hstar, Hamp. simpl. rewrite sorted_delay_items, Henc.
      reflexivity.
    + assert (forall k, dict_has k d = false -> dict_get k ws = None) as Hnone.
      { intros k Hk. apply dict_get_None. rewrite Hkeys, sorted_items_keys_perm.
        apply dict_has_false, Hk. }
      rewrite fully_decode_dict by auto.
      rewrite sorted_delay_items, (sorted_items_fixed ws).
      2:{ unfold key_sorted. rewrite Hkeys. apply sorted_items_sorted. }
      rewrite Hdec. simpl. rewrite sorted_items_map by reflexivity. reflexivity.
    + apply (sync_insert T' D' (VDict d)); assumption.
    + apply (grows_insert (list_sum (map (fun kv => vsize (snd kv)) d)) T T' (VDict d));
        [exact Hgrow|apply Nat.le_refl].
  - destruct (T !! pickle_dumps (VEnt t vs)) as [n|] eqn:Hkey; [eauto|].
    simpl in Hwf, Hser, Hav.
    apply andb_true_iff in Hwf as [Hlen Hwf]. apply Nat.eqb_eq in Hlen.
    apply forallb_Forall in Hwf, Hser, Hav.
    rewrite Forall_forall in IH, Hwf, Hser, Hav.
    destruct (mapS_chain FullyDeduplicatingSerializer.encode_in
                (FullyDeduplicatingSerializer.decode_in copy) sort_keys sync
                (grows (list_sum (map vsize vs)))
                (grows_refl _) (grows_trans _) vs) with (s := T) (s' := D)
      as (ws & T' & D' & Henc & Hdec & Hsync' & Hgrow); [|exact Hsync|].
    { apply Forall_forall. intros x Hx T0 D0 Hs0.
      destruct (IH x Hx (Hwf x Hx) (Hser x Hx) (Hav x Hx) T0 D0 Hs0)
        as (w & T1 & D1 & He & Hd & Hs & Hg).
      exists w, T1, D1. split; [exact He|]. split; [exact Hd|]. split; [exact Hs|].
      eapply grows_mono; [|exact Hg]. apply vsize_elem, Hx. }
    assert (T' !! pickle_dumps (VEnt t vs) = None) as Hfresh.
    { apply (grows_fresh (list_sum (map vsize vs)) T T'); auto; simpl; lia. }
    exists (VDict [("&", VStr (alias_of_type t)); ("_", VList ws)]),
      (<[pickle_dumps (VEnt t vs) := size T']> T'),
      (D' ++ [sort_keys (VEnt t vs)]).
    split; [|split; [|split]].
    + simpl. rewrite Hkey, Henc. reflexivity.
    + rewrite fully_decode_reference, Hdec. simpl.
      unfold construct_positional. rewrite length_map, Hlen, Nat.eqb_refl.
      reflexivity.
    + apply (sync_insert T' D' (VEnt t vs)); assumption.
    + apply (grows_insert (list_sum (map vsize vs)) T T' (VEnt t vs));
        [exact Hgrow|apply Nat.le_refl].
Qed.
End fully_roundtrip.

(** ** Structural equality and Python's [==] *)

Section comparison_lemmas.
Context {A B : Type}.
Implicit Types (f g : A -> B -> bool).

Lemma seq_eq_impl f g l :
  Forall (fun x => forall y, f x y = true -> g x y = true) l ->
  forall l', seq_eq f l l' = true -> seq_eq g l l' = true.
Proof.
  induction 1 as [|x r Hx _ IH]; intros [|y r']; simpl; try discriminate; auto.
  rewrite !andb_true_iff. intros [Hxy Hr]. auto.
Qed.

Lemma items_within_Forall f d d' :
  items_within f d d' = true <->
  Forall (fun kx => exists y, dict_get (fst kx) d' = Some y /\ f (snd kx) y = true) d.
Proof.
  induction d as [|[k x] r IH]; simpl.
  - split; [constructor|reflexivity].
  - rewrite andb_true_iff, IH, Forall_cons. simpl.
    destruct (dict_get k d') as [y|].
    + split; intros [Hxy Hr]; (split; [|exact Hr]).
      * exists y. auto.
      * destruct Hxy as (y' & [= <-] & Hf). exact Hf.
    + split; intros [Hxy Hr]; [discriminate|].
      destruct Hxy as (y' & [=] & _).
Qed.

Lemma items_within_impl f g d :
  Forall (fun kx => forall y, f (snd kx) y = true -> g (snd kx) y = true) d ->
  forall d', items_within f d d' = true -> items_within g d d' = true.
Proof.
  intros Himp d'. rewrite !items_within_Forall. intros Hf.
  eapply Forall_impl2; [exact Himp|exact Hf|].
  simpl. intros kx Hkx (y & Hy & Hfy). eauto.
Qed.
End comparison_lemmas.

Lemma seq_eq_map {A} (f : A -> A -> bool) (g : A -> A) l :
  Forall (fun x => f (g x) x = true) l -> seq_eq f (map g l) l = true.
Proof.
  induction 1 as [|x r Hx _ IH]; simpl; [reflexivity|]. rewrite Hx, IH. reflexivity.
Qed.

Lemma struct_eq_py_eq a : forall b, struct_eq a b = true -> py_eq a b = true.
Proof.
  induction a as [| | |l IH|l IH|d IH|t vs IH] using value_ind;
    intros [| | |l'|l'|d'|t' l']; simpl; try discriminate; auto.
  - apply seq_eq_impl, IH.
  - apply seq_eq_impl, IH.
  - rewrite !andb_true_iff. intros [Hlen Hin]. split; [exact Hlen|].
    revert Hin. apply items_within_impl, IH.
  - rewrite andb_true_iff. intros [_ Hin]. revert Hin. apply seq_eq_impl, IH.
Qed.

Section struct_eq_lemmas.
Context `{Core}.

Lemma struct_eq_sort_keys v : wf v = true -> struct_eq (sort_keys v) v = true.
Proof.
  induction v as [| | |l IH|l IH|d IH|t vs IH] using value_ind; simpl; intros Hwf.
  - reflexivity.
  - apply Z.eqb_refl.
  - apply String.eqb_refl.
  - apply forallb_Forall in Hwf. apply seq_eq_map.
    eapply Forall_impl2; [exact IH|exact Hwf|]. auto.
  - apply forallb_Forall in Hwf. apply seq_eq_map.
    eapply Forall_impl2; [exact IH|exact Hwf|]. auto.
  - apply andb_true_iff in Hwf as [Hnd Hwf]. apply bool_decide_eq_true in Hnd.
    apply forallb_Forall in Hwf.
    rewrite sorted_items_length, length_map, Nat.eqb_refl. simpl.
    apply items_within_Forall. rewrite sorted_items_perm.
    apply Forall_map. rewrite Forall_forall in IH, Hwf |- *.
    intros [k x] Hkx. simpl. exists x. split.
    + apply dict_get_unique; assumption.
    + apply (IH _ Hkx), (Hwf _ Hkx).
  - apply andb_true_iff in Hwf as [_ Hwf]. apply forallb_Forall in Hwf.
    rewrite bool_decide_eq_true_2 by reflexivity. simpl. apply seq_eq_map.
    eapply Forall_impl2; [exact IH|exact Hwf|]. auto.
Qed.

Lemma struct_eq_refl v : wf v = true -> struct_eq v v = true.
Proof.
  induction v as [| | |l IH|l IH|d IH|t vs IH] using value_ind; simpl; intros Hwf.
  - reflexivity.
  - apply Z.eqb_refl.
  - apply String.eqb_refl.
  - apply forallb_Forall in Hwf. rewrite <- (map_id l) at 1. apply seq_eq_map.
    eapply Forall_impl2; [exact IH|exact Hwf|]. auto.
  - apply forallb_Forall in Hwf. rewrite <- (map_id l) at 1. apply seq_eq_map.
    eapply Forall_impl2; [exact IH|exact Hwf|]. auto.
  - apply andb_true_iff in Hwf as [Hnd Hwf]. apply bool_decide_eq_true in Hnd.
    apply forallb_Forall in Hwf. rewrite Nat.eqb_refl. simpl.
    apply items_within_Forall. rewrite Forall_forall in IH, Hwf |- *.
    intros [k x] Hkx. simpl. exists x. split.
    + apply dict_get_unique; assumption.
    + apply (IH _ Hkx), (Hwf _ Hkx).
  - apply andb_true_iff in Hwf as [_ Hwf]. apply forallb_Forall in Hwf.
    rewrite bool_decide_eq_true_2 by reflexivity. simpl.
    rewrite <- (map_id vs) at 1. apply seq_eq_map.
    eapply Forall_impl2; [exact IH|exact Hwf|]. auto.
Qed.

Lemma py_eq_refl v : wf v = true -> py_eq v v = true.
Proof. intros Hwf. apply struct_eq_py_eq, struct_eq_refl, Hwf. Qed.

Lemma py_eq_sort_keys v : wf v = true -> py_eq (sort_keys v) v = true.
Proof. intros Hwf. apply struct_eq_py_eq, struct_eq_sort_keys, Hwf. Qed.
End struct_eq_lemmas.

(** ** What makes an encoder fail *)

Section guards.
Context {A B : Type} (P : A -> Prop).

Lemma mapR_guarded (f : A -> result B) l :
  Forall (fun x => guarded (P x) (f x)) l -> guarded (Forall P l) (mapR f l).
Proof.
  induction 1 as [|x r Hx _ IH]; simpl; [constructor|].
  destruct (f x) as [w|e]; simpl in *; [|exact Hx].
  destruct (mapR f r) as [ws|e]; simpl in *; [|exact IH].
  constructor; assumption.
Qed.

Lemma mapR_items_guarded (f : A -> result B) d :
  Forall (fun kv => guarded (P (snd kv)) (f (snd kv))) d ->
  guarded (Forall (fun kv => P (snd kv)) d) (mapR_items f d).
Proof.
  induction 1 as [|[k x] r Hx _ IH]; simpl in *; [constructor|].
  destruct (f x) as [w|e]; simpl in *; [|exact Hx].
  destruct (mapR_items f r) as [ws|e]; simpl in *; [|exact IH].
  constructor; assumption.
Qed.

Context {S : Type} (I : S -> Prop).

Lemma mapS_guarded (f : A -> S -> result (B * S)) l :
  Forall (fun x => forall s, I s -> guarded_st (P x) I (f x s)) l ->
  forall s, I s -> guarded_st (Forall P l) I (mapS f l s).
Proof.
  induction 1 as [|x r Hx _ IH]; intros s Hs; simpl; [split; [constructor|exact Hs]|].
  specialize (Hx s Hs). destruct (f x s) as [[w s1]|e]; simpl in *; [|exact Hx].
  destruct Hx as [Hx Hs1]. specialize (IH s1 Hs1).
  destruct (mapS f r s1) as [[ws s2]|e]; simpl in *; [|exact IH].
  destruct IH as [Hr Hs2]. split; [constructor; assumption|exact Hs2].
Qed.

Lemma run_items_guarded (f : A -> S -> result (B * S)) d :
  Forall (fun kv => forall s, I s -> guarded_st (P (snd kv)) I (f (snd kv) s)) d ->
  forall s, I s ->
    guarded_st (Forall (fun kv => P (snd kv)) d) I (run_items (delay_items f d) s).
Proof.
  induction 1 as [|[k x] r Hx _ IH]; intros s Hs; simpl in *;
    [split; [constructor|exact Hs]|].
  specialize (Hx s Hs). destruct (f x s) as [[w s1]|e]; simpl in *; [|exact Hx].
  destruct Hx as [Hx Hs1]. specialize (IH s1 Hs1).
  destruct (run_items (delay_items f r) s1) as [[ws s2]|e]; simpl in *; [|exact IH].
  destruct IH as [Hr Hs2]. split; [constructor; assumption|exact Hs2].
Qed.
End guards.

Lemma store_fields_guarded (P : value -> Prop) (enc : value -> result value) vs :
  Forall (fun x => guarded (P x) (enc x)) vs ->
  forall ks d0, length ks = length vs ->
    guarded (Forall P vs) (PlainSerializer.store_fields enc ks vs d0).
Proof.
  induction 1 as [|x r Hx _ IH]; intros ks d0 Hlen; simpl; [constructor|].
  destruct ks as [|k ks]; [discriminate|]. simpl in Hlen.
  destruct (enc x) as [w|e]; simpl in *; [|exact Hx].
  specialize (IH ks (dict_set k w d0) ltac:(lia)).
  destruct (PlainSerializer.store_fields enc ks r (dict_set k w d0)); simpl in *;
    [|exact IH].
  constructor; assumption.
Qed.

Section plain_guard.
Context `{Core}.

Lemma plain_encode_guarded v :
  wf v = true ->
  guarded (avoids ["_type"] v = true) (PlainSerializer.encode v).
Proof.
  induction v as [| | |l IH|l IH|d IH|t vs IH] using value_ind; simpl; intros Hwf;
    try reflexivity.
  - apply forallb_Forall in Hwf.
    pose proof (mapR_guarded (fun x => avoids ["_type"] x = true)
                  PlainSerializer.encode l) as Hg.
    destruct (mapR PlainSerializer.encode l); simpl in *.
    + apply forallb_Forall, Hg. eapply Forall_impl2; [exact IH|exact Hwf|]. auto.
    + apply Hg. eapply Forall_impl2; [exact IH|exact Hwf|]. auto.
  - apply andb_true_iff in Hwf as [_ Hwf]. apply forallb_Forall in Hwf.
    destruct (dict_has "_type" d); simpl; [reflexivity|].
    pose proof (mapR_items_guarded (fun x => avoids ["_type"] x = true)
                  PlainSerializer.encode d) as Hg.
    destruct (mapR_items PlainSerializer.encode d); simpl in *.
    + apply forallb_Forall, Hg. eapply Forall_impl2; [exact IH|exact Hwf|]. auto.
    + apply Hg. eapply Forall_impl2; [exact IH|exact Hwf|]. auto.
  - apply andb_true_iff in Hwf as [Hlen Hwf]. apply Nat.eqb_eq in Hlen.
    apply forallb_Forall in Hwf.
    pose proof (store_fields_guarded (fun x => avoids ["_type"] x = true)
                  PlainSerializer.encode vs) as Hg.
    specialize (Hg ltac:(eapply Forall_impl2; [exact IH|exact Hwf|]; auto)
                   (fields t) [("_type", VStr (alias_of_type t))] ltac:(auto)).
    destruct (PlainSerializer.store_fields _ _ _ _); simpl in *.
    + apply forallb_Forall, Hg.
    + exact Hg.
Qed.
End plain_guard.

Section dedup_guard.
Context `{Core} `{Pickle}.
Hypothesis pickle_inj : forall a b, pickle_dumps a = pickle_dumps b -> a = b.

Lemma clean_empty : clean ∅.
Proof. intros u [i Hi]. rewrite lookup_empty in Hi. discriminate. Qed.

Lemma clean_insert T v n :
  clean T -> avoids ["*"; "&"] v = true -> clean (<[pickle_dumps v := n]> T).
Proof.
  intros HT Hv u Hu. destruct (decide (pickle_dumps v = pickle_dumps u)) as [Heq|Hne].
  - apply pickle_inj in Heq. subst u. exact Hv.
  - rewrite lookup_insert_ne in Hu by exact Hne. apply HT, Hu.
Qed.

Lemma dedup_encode_guarded v :
  forall T, clean T ->
    guarded_st (avoids ["*"; "&"] v = true) clean
               (DeduplicatingSerializer.encode_in v T).
Proof.
  induction v as [| | |l IH|l IH|d IH|t vs IH] using value_ind; intros T HT;
    try (simpl; auto; fail).
  - pose proof (mapS_guarded (fun x => avoids ["*"; "&"] x = true) clean
                  DeduplicatingSerializer.encode_in l IH T HT) as Hg.
    simpl. destruct (mapS DeduplicatingSerializer.encode_in l T) as [[ws T']|e];
      simpl in *; [|exact Hg].
    destruct Hg as [Hl HT']. split; [apply forallb_Forall, Hl|exact HT'].
  - simpl. destruct (dict_has "*" d); simpl; [reflexivity|].
    destruct (dict_has "&" d); simpl; [reflexivity|].
    rewrite sorted_delay_items.
    pose proof (run_items_guarded (fun x => avoids ["*"; "&"] x = true) clean
                  DeduplicatingSerializer.encode_in (sorted_items d)) as Hg.
    specialize (Hg ltac:(rewrite sorted_items_perm; exact IH) T HT).
    destruct (run_items _ T) as [[ws T']|e]; simpl in *; [|exact Hg].
    destruct Hg as [Hd HT']. split; [|exact HT'].
    rewrite sorted_items_perm in Hd. apply forallb_Forall, Hd.
  - simpl. destruct (T !! pickle_dumps (VEnt t vs)) as [n|] eqn:Hkey; simpl.
    + split; [|exact HT]. apply (HT (VEnt t vs)). rewrite Hkey. eauto.
    + pose proof (mapS_guarded (fun x => avoids ["*"; "&"] x = true) clean
                    DeduplicatingSerializer.encode_in vs IH T HT) as Hg.
      destruct (mapS DeduplicatingSerializer.encode_in vs T) as [[ws T']|e];
        simpl in *; [|exact Hg].
      destruct Hg as [Hl HT']. apply forallb_Forall in Hl.
      split; [exact Hl|]. apply clean_insert; assumption.
Qed.

Lemma fully_encode_guarded v :
  forall T, clean T ->
    guarded_st (avoids ["*"; "&"] v = true) clean
               (FullyDeduplicatingSerializer.encode_in v T).
Proof.
  assert (forall u T n, clean T -> T !! pickle_dumps u = Some n ->
            guarded_st (avoids ["*"; "&"] u = true) clean
                       (FullyDeduplicatingSerializer.encode_in u T)) as Hpointer.
  { intros u T n HT Hkey. rewrite (fully_encode_pointer _ _ _ Hkey). simpl.
    split; [|exact HT]. apply HT. rewrite Hkey. eauto. }
  induction v as [| | |l IH|l IH|d IH|t vs IH] using value_ind; intros T HT.
  - destruct (T !! pickle_dumps VNone) as [n|] eqn:Hkey; [eauto|].
    simpl. rewrite Hkey. simpl.
    split; [reflexivity|]. apply (clean_insert T VNone); auto.
  - destruct (T !! pickle_dumps (VInt z)) as [n|] eqn:Hkey; [eauto|].
    simpl. rewrite Hkey. simpl.
    split; [reflexivity|]. apply (clean_insert T (VInt z)); auto.
  - destruct (T !! pickle_dumps (VStr s)) as [n|] eqn:Hkey; [eauto|].
    simpl. rewrite Hkey. simpl.
    split; [reflexivity|]. apply (clean_insert T (VStr s)); auto.
  - destruct (T !! pickle_dumps (VList l)) as [n|] eqn:Hkey; [eauto|].
    simpl. rewrite Hkey.
    pose proof (mapS_guarded (fun x => avoids ["*"; "&"] x = true) clean
                  FullyDeduplicatingSerializer.encode_in l IH T HT) as Hg.
    destruct (mapS FullyDeduplicatingSerializer.encode_in l T) as [[ws T']|e];
      simpl in *; [|exact Hg].
    destruct Hg as [Hl HT']. apply forallb_Forall in Hl.
    split; [exact Hl|]. apply (clean_insert T' (VList l)); assumption.
  - destruct (T !! pickle_dumps (VTuple l)) as [n|] eqn:Hkey; [eauto|].
    simpl. rewrite Hkey. reflexivity.
  - destruct (T !! pickle_dumps (VDict d)) as [n|] eqn:Hkey; [eauto|].
    simpl. rewrite Hkey.
    destruct (dict_has "*" d) eqn:Hstar; simpl; [reflexivity|].
    destruct (dict_has "&" d) eqn:Hamp; simpl; [reflexivity|].
    rewrite sorted_delay_items.
    pose proof (run_items_guarded (fun x => avoids ["*"; "&"] x = true) clean
                  FullyDeduplicatingSerializer.encode_in (sorted_items d)) as Hg.
    specialize (Hg ltac:(rewrite sorted_items_perm; exact IH) T HT).
    destruct (run_items _ T) as [[ws T']|e]; simpl in *; [|exact Hg].
    destruct Hg as [Hd HT']. rewrite sorted_items_perm in Hd.
    apply forallb_Forall in Hd.
    assert (avoids ["*"; "&"] (VDict d) = true) as Hav
      by (simpl; rewrite Hstar, Hamp; exact Hd).
    split; [exact Hd|]. apply (clean_insert T' (VDict d)); assumption.
  - destruct (T !! pickle_dumps (VEnt t vs)) as [n|] eqn:Hkey; [eauto|].
    simpl. rewrite Hkey.
    pose proof (mapS_guarded (fun x => avoids ["*"; "&"] x = true) clean
                  FullyDeduplicatingSerializer.encode_in vs IH T HT) as Hg.
    destruct (mapS FullyDeduplicatingSerializer.encode_in vs T) as [[ws T']|e];
      simpl in *; [|exact Hg].
    destruct Hg as [Hl HT']. apply forallb_Forall in Hl.
    split; [exact Hl|]. apply (clean_insert T' (VEnt t vs)); assumption.
Qed.
End dedup_guard.

(** ** Values without instances of the registered classes *)

Lemma mapR_id {A} (f : A -> result A) l :
  Forall (fun x => f x = Ok x) l -> mapR f l = Ok l.
Proof.
  induction 1 as [|x r Hx _ IH]; simpl; [reflexivity|]. rewrite Hx; simpl.
  rewrite IH. reflexivity.
Qed.

Lemma mapR_items_id {A} (f : A -> result A) d :
  Forall (fun kv => f (snd kv) = Ok (snd kv)) d -> mapR_items f d = Ok d.
Proof.
  induction 1 as [|[k x] r Hx _ IH]; simpl in *; [reflexivity|]. rewrite Hx; simpl.
  rewrite IH. reflexivity.
Qed.

Lemma mapS_pure {A B S} (f : A -> S -> result (B * S)) (g : A -> B) l :
  Forall (fun x => forall s, f x s = Ok (g x, s)) l ->
  forall s, mapS f l s = Ok (map g l, s).
Proof.
  induction 1 as [|x r Hx _ IH]; intros s; simpl; [reflexivity|].
  rewrite Hx; simpl. rewrite IH. reflexivity.
Qed.

Lemma run_items_pure {A B S} (f : A -> S -> result (B * S)) (g : A -> B) d :
  Forall (fun kv => forall s, f (snd kv) s = Ok (g (snd kv), s)) d ->
  forall s, run_items (delay_items f d) s
            = Ok (map (fun kv => (fst kv, g (snd kv))) d, s).
Proof.
  induction 1 as [|[k x] r Hx _ IH]; intros s; simpl in *; [reflexivity|].
  rewrite Hx; simpl. rewrite IH. reflexivity.
Qed.

Section entity_free.
Context `{Core} `{Pickle}.

Lemma plain_entity_free v :
  entity_free v = true -> serializable v = true -> avoids ["_type"] v = true ->
  PlainSerializer.encode v = Ok v.
Proof.
  induction v as [| | |l IH|l IH|d IH|t vs IH] using value_ind; simpl;
    intros Hfree Hser Hav; try discriminate; try reflexivity.
  - apply forallb_Forall in Hfree, Hser, Hav. rewrite mapR_id; [reflexivity|].
    eapply Forall_impl2; [exact IH| |].
    + apply Forall_and. split; [exact Hfree|].
      apply Forall_and. split; [exact Hser|exact Hav].
    + simpl. intros x Hx (? & ? & ?). auto.
  - apply andb_true_iff in Hav as [Hres Hav].
    apply forallb_Forall in Hfree, Hser, Hav.
    rewrite andb_true_r in Hres. rewrite Hres. simpl.
    rewrite mapR_items_id; [reflexivity|].
    eapply Forall_impl2; [exact IH| |].
    + apply Forall_and. split; [exact Hfree|].
      apply Forall_and. split; [exact Hser|exact Hav].
    + simpl. intros x Hx (? & ? & ?). auto.
Qed.

Lemma dedup_entity_free v :
  entity_free v = true -> serializable v = true -> avoids ["*"; "&"] v = true ->
  forall T, DeduplicatingSerializer.encode_in v T = Ok (sort_keys v, T).
Proof.
  induction v as [| | |l IH|l IH|d IH|t vs IH] using value_ind; simpl;
    intros Hfree Hser Hav T; try discriminate; try reflexivity.
  - apply forallb_Forall in Hfree, Hser, Hav.
    rewrite (mapS_pure _ sort_keys); [reflexivity|].
    eapply Forall_impl2; [exact IH| |].
    + apply Forall_and. split; [exact Hfree|].
      apply Forall_and. split; [exact Hser|exact Hav].
    + simpl. intros x Hx (? & ? & ?). auto.
  - apply andb_true_iff in Hav as [Hres Hav].
    apply forallb_Forall in Hfree, Hser, Hav.
    rewrite andb_true_r in Hres. rewrite Hres. simpl.
    rewrite sorted_delay_items, (run_items_pure _ sort_keys).
    + simpl. rewrite sorted_items_map by reflexivity. reflexivity.
    + rewrite sorted_items_perm.
      eapply Forall_impl2; [exact IH| |].
      * apply Forall_and. split; [exact Hfree|].
        apply Forall_and. split; [exact Hser|exact Hav].
      * simpl. intros x Hx (? & ? & ?). auto.
Qed.
End entity_free.

(** * The serializers *)

(** C1, as stated, fails: a dictionary with the key ["_type"] is a value
    built from a string, an integer and a mapping with unique keys, and
    [PlainSerializer.encode] raises on it, so nothing is decoded; the same
    holds for the key ["*"] and the two deduplicating serializers. *)
Lemma round_trip_stops_at_reserved_keys :
  let v := VDict [("_type", VInt 1)] in
  let v' := VDict [("*", VInt 1)] in
  @wf sample_core v = true /\ serializable v = true /\
  @wf sample_core v' = true /\ serializable v' = true /\
  (@PlainSerializer.encode sample_core v ≫= @PlainSerializer.decode sample_core)
    = Raise AssertionError /\
  (forall copy,
     (@DeduplicatingSerializer.encode tree_pickle v'
        ≫= fun w => @DeduplicatingSerializer.decode sample_core w copy)
       = Raise AssertionError /\
     (@FullyDeduplicatingSerializer.encode tree_pickle v'
        ≫= fun w => @FullyDeduplicatingSerializer.decode sample_core w copy)
       = Raise AssertionError).
Proof. repeat split; reflexivity. Qed.

(** C1, amended: for every value built from [None], integers, strings,
    lists, dictionaries with unique keys and instances of the registered
    classes, whose dictionaries avoid the reserved key of the serializer
    (["_type"] for [PlainSerializer], ["*"] and ["&"] for the two
    deduplicating ones), encoding succeeds and decoding the result gives a
    structurally equal value: the value itself for [PlainSerializer], and
    for the deduplicating serializers, in both decode modes, the value with
    the keys of its dictionaries in sorted order. *)
Theorem serializers_round_trip `{Core} `{Pickle} (v : value) :
  (forall a b, pickle_dumps a = pickle_dumps b -> a = b) ->
  wf v = true -> serializable v = true ->
  (avoids ["_type"] v = true ->
     exists w, PlainSerializer.encode v = Ok w /\ PlainSerializer.decode w = Ok v
               /\ struct_eq v v = true) /\
  (avoids ["*"; "&"] v = true ->
     forall copy,
       (exists w, DeduplicatingSerializer.encode v = Ok w
                  /\ DeduplicatingSerializer.decode w copy = Ok (sort_keys v))
       /\ (exists w, FullyDeduplicatingSerializer.encode v = Ok w
                     /\ FullyDeduplicatingSerializer.decode w copy = Ok (sort_keys v))
       /\ struct_eq (sort_keys v) v = true).
Proof.
  intros Hinj Hwf Hser. split.
  - intros Hav. destruct (plain_roundtrip v Hwf Hser Hav) as (w & Henc & Hdec).
    exists w. split; [exact Henc|]. split; [exact Hdec|]. apply struct_eq_refl, Hwf.
  - intros Hav copy. split; [|split].
    + destruct (dedup_roundtrip_in Hinj copy v Hwf Hser Hav ∅ [] sync_empty)
        as (w & T' & D' & Henc & Hdec & _).
      exists w. unfold DeduplicatingSerializer.encode, DeduplicatingSerializer.decode.
      rewrite Henc, Hdec. split; reflexivity.
    + destruct (fully_roundtrip_in Hinj copy v Hwf Hser Hav ∅ [] sync_empty)
        as (w & T' & D' & Henc & Hdec & _).
      exists w.
      unfold FullyDeduplicatingSerializer.encode, FullyDeduplicatingSerializer.decode.
      rewrite Henc, Hdec. split; reflexivity.
    + apply struct_eq_sort_keys, Hwf.
Qed.

Lemma serializers_round_trip_witness :
  (@wf sample_core sample_document = true /\ serializable sample_document = true) /\
  (exists w, @PlainSerializer.encode sample_core sample_document = Ok w
             /\ @PlainSerializer.decode sample_core w = Ok sample_document
             /\ struct_eq sample_document sample_document = true) /\
  (forall copy,
     (exists w, @DeduplicatingSerializer.encode tree_pickle sample_document = Ok w
                /\ @DeduplicatingSerializer.decode sample_core w copy
                   = Ok (sort_keys sample_document))
     /\ (exists w, @FullyDeduplicatingSerializer.encode tree_pickle sample_document = Ok w
                   /\ @FullyDeduplicatingSerializer.decode sample_core w copy
                      = Ok (sort_keys sample_document))
     /\ struct_eq (sort_keys sample_document) sample_document = true).
Proof.
  pose proof (@serializers_round_trip sample_core tree_pickle sample_document
                to_tree_inj eq_refl eq_refl) as [Hplain Hdedup].
  split; [split; reflexivity|]. split; [exact (Hplain eq_refl)|exact (Hdedup eq_refl)].
Defined.

(** C10: on a value of the data model, each [encode] fails its assertion
    when some dictionary of the input has a reserved key of that serializer
    (["_type"] for [PlainSerializer]; ["*"] or ["&"] for
    [DeduplicatingSerializer] and [FullyDeduplicatingSerializer]), and
    returns a wire tree when no dictionary has one. *)
Theorem encode_defined_off_reserved_keys `{Core} `{Pickle} (v : value) :
  (forall a b, pickle_dumps a = pickle_dumps b -> a = b) ->
  wf v = true -> serializable v = true ->
  (if avoids ["_type"] v
   then exists w, PlainSerializer.encode v = Ok w
   else PlainSerializer.encode v = Raise AssertionError) /\
  (if avoids ["*"; "&"] v
   then (exists w, DeduplicatingSerializer.encode v = Ok w)
        /\ (exists w, FullyDeduplicatingSerializer.encode v = Ok w)
   else DeduplicatingSerializer.encode v = Raise AssertionError
        /\ FullyDeduplicatingSerializer.encode v = Raise AssertionError).
Proof.
  intros Hinj Hwf Hser. split.
  - destruct (avoids ["_type"] v) eqn:Hav.
    + destruct (plain_roundtrip v Hwf Hser Hav) as (w & Henc & _). eauto.
    + pose proof (plain_encode_guarded v Hwf) as Hg.
      destruct (PlainSerializer.encode v) as [w|e]; simpl in Hg; congruence.
  - destruct (avoids ["*"; "&"] v) eqn:Hav.
    + split.
      * destruct (dedup_roundtrip_in Hinj false v Hwf Hser Hav ∅ [] sync_empty)
          as (w & T' & D' & Henc & _).
        exists w. unfold DeduplicatingSerializer.encode. rewrite Henc. reflexivity.
      * destruct (fully_roundtrip_in Hinj false v Hwf Hser Hav ∅ [] sync_empty)
          as (w & T' & D' & Henc & _).
        exists w. unfold FullyDeduplicatingSerializer.encode. rewrite Henc. reflexivity.
    + split.
      * pose proof (dedup_encode_guarded Hinj v ∅ (clean_empty)) as Hg.
        unfold DeduplicatingSerializer.encode.
        destruct (DeduplicatingSerializer.encode_in v ∅) as [[w T']|e]; simpl in *.
        -- destruct Hg. congruence.
        -- congruence.
      * pose proof (fully_encode_guarded Hinj v ∅ (clean_empty)) as Hg.
        unfold FullyDeduplicatingSerializer.encode.
        destruct (FullyDeduplicatingSerializer.encode_in v ∅) as [[w T']|e]; simpl in *.
        -- destruct Hg. congruence.
        -- congruence.
Qed.

Lemma encode_defined_off_reserved_keys_witness :
  let v := VList [sample_text; VDict [("_type", sample_text)]] in
  (@wf sample_core v = true /\ serializable v = true) /\
  @PlainSerializer.encode sample_core v = Raise AssertionError /\
  (exists w, @DeduplicatingSerializer.encode tree_pickle v = Ok w) /\
  (exists w, @FullyDeduplicatingSerializer.encode tree_pickle v = Ok w).
Proof.
  intros v.
  pose proof (@encode_defined_off_reserved_keys sample_core tree_pickle v
                to_tree_inj eq_refl eq_refl) as [Hplain [Hdedup Hfully]].
  split; [split; reflexivity|]. split; [exact Hplain|]. split; assumption.
Defined.

(** C7, as stated, fails: on the entity-free value [{"*": 1}] the plain
    encoder returns the value and the deduplicating one raises; on
    [{"_type": 1}] it is the other way round; and on [{"b": 1, "a": 2}]
    both return a wire tree, with the keys in a different order. *)
Lemma dedup_differs_from_plain :
  let v1 := VDict [("*", VInt 1)] in
  let v2 := VDict [("_type", VInt 1)] in
  let v3 := VDict [("b", VInt 1); ("a", VInt 2)] in
  (entity_free v1 = true /\ entity_free v2 = true /\ entity_free v3 = true) /\
  (@PlainSerializer.encode sample_core v1 = Ok v1
   /\ @DeduplicatingSerializer.encode tree_pickle v1 = Raise AssertionError) /\
  (@PlainSerializer.encode sample_core v2 = Raise AssertionError
   /\ @DeduplicatingSerializer.encode tree_pickle v2 = Ok v2) /\
  (@PlainSerializer.encode sample_core v3 = Ok v3
   /\ @DeduplicatingSerializer.encode tree_pickle v3
      = Ok (VDict [("a", VInt 2); ("b", VInt 1)])) /\
  (forall v, In v [v1; v2] ->
     @DeduplicatingSerializer.encode tree_pickle v <> @PlainSerializer.encode sample_core v).
Proof.
  repeat split; try reflexivity.
  intros v [<-|[<-|[]]]; vm_compute; discriminate.
Qed.

(** C7, amended: for every value without instances of the registered
    classes, built from [None], integers, strings, lists and dictionaries
    with unique keys none of which is ["_type"], ["*"] or ["&"], both
    encoders succeed; [PlainSerializer.encode] returns the value as it is,
    [DeduplicatingSerializer.encode] returns it with the keys of every
    dictionary sorted, and the two wire trees are equal for Python. *)
Theorem dedup_agrees_with_plain_without_entities `{Core} `{Pickle} (v : value) :
  wf v = true -> entity_free v = true -> serializable v = true ->
  avoids ["_type"] v = true -> avoids ["*"; "&"] v = true ->
  PlainSerializer.encode v = Ok v
  /\ DeduplicatingSerializer.encode v = Ok (sort_keys v)
  /\ py_eq (sort_keys v) v = true.
Proof.
  intros Hwf Hfree Hser Hav Hav'. split; [|split].
  - apply plain_entity_free; assumption.
  - unfold DeduplicatingSerializer.encode.
    rewrite dedup_entity_free by assumption. reflexivity.
  - apply py_eq_sort_keys, Hwf.
Qed.

Lemma dedup_agrees_with_plain_without_entities_witness :
  let v := VList [VDict [("b", VInt 1); ("a", VList [VStr "x"; VNone])]; VInt 2] in
  (@wf sample_core v = true /\ entity_free v = true /\ serializable v = true
   /\ avoids ["_type"] v = true /\ avoids ["*"; "&"] v = true) /\
  @PlainSerializer.encode sample_core v = Ok v
  /\ @DeduplicatingSerializer.encode tree_pickle v = Ok (sort_keys v)
  /\ py_eq (sort_keys v) v = true.
Proof.
  intros v. split; [repeat split; reflexivity|].
  apply (@dedup_agrees_with_plain_without_entities sample_core tree_pickle v);
    reflexivity.
Defined.

(** ** The table of DeduplicatingSerializer.encode *)

Lemma mapS_cons {A B S} (f : A -> S -> result (B * S)) x l s w s1 ws s2 :
  f x s = Ok (w, s1) -> mapS f l s1 = Ok (ws, s2) ->
  mapS f (x :: l) s = Ok (w :: ws, s2).
Proof. intros Hx Hl. simpl. rewrite Hx; simpl. rewrite Hl. reflexivity. Qed.

Lemma mapS_app {A B S} (f : A -> S -> result (B * S)) l1 l2 s ws1 s1 ws2 s2 :
  mapS f l1 s = Ok (ws1, s1) -> mapS f l2 s1 = Ok (ws2, s2) ->
  mapS f (l1 ++ l2) s = Ok (ws1 ++ ws2, s2).
Proof.
  revert s ws1. induction l1 as [|x r IH]; intros s ws1; simpl.
  - intros [= <- <-] Hl2. exact Hl2.
  - destruct (f x s) as [[w s']|]; simpl; [|discriminate].
    destruct (mapS f r s') as [[ws' s'']|] eqn:Hr; simpl; [|discriminate].
    intros [= <- <-] Hl2. rewrite (IH _ _ Hr Hl2). reflexivity.
Qed.

Lemma mapS_length {A B S} (f : A -> S -> result (B * S)) l s ws s' :
  mapS f l s = Ok (ws, s') -> length ws = length l.
Proof.
  revert s ws s'. induction l as [|x r IH]; intros s ws s'; simpl.
  - intros [= <- _]. reflexivity.
  - destruct (f x s) as [[w s1]|]; simpl; [|discriminate].
    destruct (mapS f r s1) as [[ws' s2]|] eqn:Hr; simpl; [|discriminate].
    intros [= <- _]. simpl. rewrite (IH _ _ _ Hr). reflexivity.
Qed.

Lemma mapS_total {A B S} (f : A -> S -> result (B * S)) l :
  Forall (fun x => forall s, exists w s', f x s = Ok (w, s')) l ->
  forall s, exists ws s', mapS f l s = Ok (ws, s').
Proof.
  induction 1 as [|x r Hx _ IH]; intros s; simpl; [eauto|].
  destruct (Hx s) as (w & s1 & ->). simpl.
  destruct (IH s1) as (ws & s2 & ->). simpl. eauto.
Qed.

Lemma run_items_total {A B S} (f : A -> S -> result (B * S)) d :
  Forall (fun kv => forall s, exists w s', f (snd kv) s = Ok (w, s')) d ->
  forall s, exists ws s', run_items (delay_items f d) s = Ok (ws, s').
Proof.
  induction 1 as [|[k x] r Hx _ IH]; intros s; simpl in *; [eauto|].
  destruct (Hx s) as (w & s1 & ->). simpl.
  destruct (IH s1) as (ws & s2 & ->). simpl. eauto.
Qed.

(** ** The table of DeduplicatingSerializer.encode on objects *)

Lemma instances_consistent h o u :
  Objects.consistent h o = true -> u ∈ Objects.instances o ->
  Objects.consistent h u = true.
Proof.
  induction o as [| | |a l IH|a l IH|a d IH|a t vs IH] using Objects.obj_ind;
    simpl; intros Hc Hu; try (apply elem_of_nil in Hu; destruct Hu).
  - apply andb_true_iff in Hc as [_ Hc]. apply forallb_Forall in Hc.
    apply list_elem_of_In, in_flat_map in Hu as (x & Hx & Hu).
    apply list_elem_of_In in Hx, Hu. rewrite Forall_forall in IH, Hc.
    exact (IH x Hx (Hc x Hx) Hu).
  - apply andb_true_iff in Hc as [_ Hc]. apply forallb_Forall in Hc.
    apply list_elem_of_In, in_flat_map in Hu as (x & Hx & Hu).
    apply list_elem_of_In in Hx, Hu. rewrite Forall_forall in IH, Hc.
    exact (IH x Hx (Hc x Hx) Hu).
  - apply andb_true_iff in Hc as [_ Hc]. apply forallb_Forall in Hc.
    apply list_elem_of_In, in_flat_map in Hu as (x & Hx & Hu).
    apply list_elem_of_In in Hx, Hu. rewrite Forall_forall in IH, Hc.
    pose proof (Hc x Hx) as Hcx. apply andb_true_iff in Hcx as [_ Hcx].
    exact (IH x Hx Hcx Hu).
  - apply elem_of_cons in Hu as [->|Hu].
    + exact Hc.
    + apply andb_true_iff in Hc as [_ Hc]. apply forallb_Forall in Hc.
      apply list_elem_of_In, in_flat_map in Hu as (x & Hx & Hu).
      apply list_elem_of_In in Hx, Hu. rewrite Forall_forall in IH, Hc.
    exact (IH x Hx (Hc x Hx) Hu).
Qed.

Lemma instances_size o u :
  u ∈ Objects.instances o -> (vsize (Objects.erase u) <= vsize (Objects.erase o))%nat.
Proof.
  induction o as [| | |a l IH|a l IH|a d IH|a t vs IH] using Objects.obj_ind;
    simpl; intros Hu; try (apply elem_of_nil in Hu; destruct Hu).
  - apply list_elem_of_In, in_flat_map in Hu as (x & Hx & Hu).
    apply list_elem_of_In in Hx, Hu. rewrite Forall_forall in IH.
    pose proof (IH x Hx Hu).
    pose proof (vsize_elem (map Objects.erase l) (Objects.erase x)
                  ltac:(apply list_elem_of_fmap; eauto)). lia.
  - apply list_elem_of_In, in_flat_map in Hu as (x & Hx & Hu).
    apply list_elem_of_In in Hx, Hu. rewrite Forall_forall in IH.
    pose proof (IH x Hx Hu).
    pose proof (vsize_elem (map Objects.erase l) (Objects.erase x)
                  ltac:(apply list_elem_of_fmap; eauto)). lia.
  - apply list_elem_of_In, in_flat_map in Hu as (x & Hx & Hu).
    apply list_elem_of_In in Hx, Hu. rewrite Forall_forall in IH.
    pose proof (IH x Hx Hu).
    pose proof (vsize_item
                  (map (fun kv => (fst kv, Objects.erase (snd (snd kv)))) d)
                  (fst x, Objects.erase (snd (snd x)))
                  ltac:(apply list_elem_of_fmap; eauto)). simpl in *. lia.
  - apply elem_of_cons in Hu as [->|Hu]; [simpl; lia|].
    apply list_elem_of_In, in_flat_map in Hu as (x & Hx & Hu).
    apply list_elem_of_In in Hx, Hu. rewrite Forall_forall in IH.
    pose proof (IH x Hx Hu).
    pose proof (vsize_elem (map Objects.erase vs) (Objects.erase x)
                  ltac:(apply list_elem_of_fmap; eauto)). lia.
Qed.

Section recorded.
Context `{Objects.Pickle}.

Lemma recorded_refl T : recorded [] 0 T T.
Proof. split; [auto|]. split; [auto|lia]. Qed.

Lemma recorded_trans new1 n1 new2 n2 T T1 T2 :
  recorded new1 n1 T T1 -> recorded new2 n2 T1 T2 ->
  recorded (new1 ++ new2) (n1 + n2) T T2.
Proof.
  intros (Hk1 & Hg1 & Hs1) (Hk2 & Hg2 & Hs2). split; [auto|]. split; [|lia].
  intros k Hk. destruct (Hg2 k Hk) as [Hin|(u & Hu & ->)].
  - destruct (Hg1 k Hin) as [?|(u & Hu & ->)]; [auto|].
    right. exists u. split; [apply elem_of_app; auto|reflexivity].
  - right. exists u. split; [apply elem_of_app; auto|reflexivity].
Qed.

Lemma recorded_subseteq new new' n T T' :
  (forall u, u ∈ new -> u ∈ new') -> recorded new n T T' -> recorded new' n T T'.
Proof.
  intros Hsub (Hk & Hg & Hs). split; [exact Hk|]. split; [|exact Hs].
  intros k Hin. destruct (Hg k Hin) as [?|(u & Hu & ->)]; [auto|]. right. eauto.
Qed.

Lemma mapS_recorded {B} (count : B -> nat)
    (f : Objects.obj -> gmap Objects.pickled nat -> result (B * gmap Objects.pickled nat)) l :
  Forall (fun x => forall T w T', f x T = Ok (w, T') ->
                     recorded (Objects.instances x) (count w) T T') l ->
  forall T ws T', mapS f l T = Ok (ws, T') ->
    recorded (flat_map Objects.instances l) (list_sum (map count ws)) T T'.
Proof.
  induction 1 as [|x r Hx _ IH]; intros T ws T'; simpl.
  - intros [= <- <-]. apply recorded_refl.
  - destruct (f x T) as [[w T1]|] eqn:Hfx; simpl; [|discriminate].
    destruct (mapS f r T1) as [[ws' T2]|] eqn:Hr; simpl; [|discriminate].
    intros [= <- <-]. simpl. eapply recorded_trans; eauto.
Qed.

Lemma run_items_recorded {A B} (count : B -> nat) (inner : A -> Objects.obj)
    (f : A -> gmap Objects.pickled nat -> result (B * gmap Objects.pickled nat)) d :
  Forall (fun kv => forall T w T', f (snd kv) T = Ok (w, T') ->
                      recorded (Objects.instances (inner (snd kv))) (count w) T T') d ->
  forall T ws T', run_items (delay_items f d) T = Ok (ws, T') ->
    keys ws = keys d
    /\ recorded (flat_map (fun kv => Objects.instances (inner (snd kv))) d)
         (list_sum (map (fun kv => count (snd kv)) ws)) T T'.
Proof.
  induction 1 as [|[k x] r Hx _ IH]; intros T ws T'; simpl in *.
  - intros [= <- <-]. split; [reflexivity|apply recorded_refl].
  - destruct (f x T) as [[w T1]|] eqn:Hfx; simpl; [|discriminate].
    destruct (run_items (delay_items f r) T1) as [[ws' T2]|] eqn:Hr; simpl;
      [|discriminate].
    intros [= <- <-]. destruct (IH T1 ws' T2 Hr) as [Hkeys Hrec]. simpl. split.
    + rewrite Hkeys. reflexivity.
    + eapply recorded_trans; eauto.
Qed.

Lemma flat_map_sorted {A B} (g : string * A -> list B) d u :
  u ∈ flat_map g (sorted_items d) <-> u ∈ flat_map g d.
Proof.
  rewrite !list_elem_of_In, !in_flat_map.
  split; intros (x & Hx & Hu); exists x; (split; [|exact Hu]);
    apply list_elem_of_In; apply list_elem_of_In in Hx.
  - rewrite sorted_items_perm in Hx. exact Hx.
  - rewrite sorted_items_perm. exact Hx.
Qed.

Hypothesis Hloads : Objects.loads_content.

Lemma nested_instance_pickle h a t vs u :
  Objects.consistent h (Objects.OEnt a t vs) = true ->
  u ∈ flat_map Objects.instances vs ->
  Objects.dumps (Objects.OEnt a t vs) <> Objects.dumps u.
Proof.
  intros Hc Hu Heq.
  assert (u ∈ Objects.instances (Objects.OEnt a t vs)) as Hin
    by (simpl; apply elem_of_cons; auto).
  pose proof (instances_consistent h _ u Hc Hin) as Hcu.
  pose proof (Hloads h _ _ Hc Hcu Heq) as Herase.
  apply list_elem_of_In, in_flat_map in Hu as (x & Hx & Hu).
  apply list_elem_of_In in Hx, Hu.
  pose proof (instances_size x u Hu) as Hsize.
  pose proof (vsize_elem (map Objects.erase vs) (Objects.erase x)
                ltac:(apply list_elem_of_fmap; eauto)) as Hx'.
  rewrite <- Herase in Hsize. simpl in Hsize. lia.
Qed.

Lemma encode_recorded h o :
  Objects.consistent h o = true ->
  forall T w T', Objects.DeduplicatingSerializer.encode_in o T = Ok (w, T') ->
    recorded (Objects.instances o) (Objects.references w) T T'.
Proof.
  induction o as [| | |a l IH|a l IH|a d IH|a t vs IH] using Objects.obj_ind;
    intros Hc T w T'; simpl.
  - intros [= <- <-]. apply recorded_refl.
  - intros [= <- <-]. apply recorded_refl.
  - intros [= <- <-]. apply recorded_refl.
  - simpl in Hc. apply andb_true_iff in Hc as [_ Hc]. apply forallb_Forall in Hc.
    destruct (mapS _ l T) as [[ws T1]|] eqn:Hl; simpl; [|discriminate].
    intros [= <- <-]. simpl.
    refine (mapS_recorded Objects.references _ l _ T ws T1 Hl).
    eapply Forall_impl2; [exact IH|exact Hc|]. simpl. auto.
  - discriminate.
  - simpl in Hc. apply andb_true_iff in Hc as [_ Hc]. apply forallb_Forall in Hc.
    destruct (negb (dict_has "*" d) && negb (dict_has "&" d)) eqn:Hres; simpl;
      [|discriminate].
    rewrite sorted_delay_items.
    destruct (run_items _ T) as [[ws T1]|] eqn:Hd; simpl; [|discriminate].
    intros [= <- <-].
    destruct (run_items_recorded Objects.references snd
                (fun kv => Objects.DeduplicatingSerializer.encode_in (snd kv))
                (sorted_items d)
                ltac:(rewrite sorted_items_perm;
                      eapply Forall_impl2; [exact IH|exact Hc|]; simpl;
                      intros x Hx Hcx; apply andb_true_iff in Hcx as [_ Hcx];
                      exact (Hx Hcx))
                T ws T1 Hd) as [Hkeys Hrec].
    assert (dict_has "&" ws = false) as Hamp.
    { apply andb_true_iff in Hres as [_ Hres]. apply negb_true_iff in Hres.
      apply dict_has_false. apply dict_has_false in Hres.
      rewrite Hkeys, sorted_items_keys_perm. exact Hres. }
    simpl. rewrite Hamp. simpl.
    eapply recorded_subseteq; [|exact Hrec].
    intros u. rewrite flat_map_sorted. auto.
  - destruct (T !! Objects.dumps (Objects.OEnt a t vs)) as [n|] eqn:Hkey.
    + intros [= <- <-]. simpl.
      eapply recorded_subseteq; [|apply recorded_refl].
      intros u Hu. apply elem_of_nil in Hu. destruct Hu.
    + pose proof Hc as Hcs. simpl in Hcs.
      apply andb_true_iff in Hcs as [_ Hcs]. apply forallb_Forall in Hcs.
      destruct (mapS _ vs T) as [[ws T1]|] eqn:Hvs; simpl; [|discriminate].
      intros [= <- <-].
      pose proof (mapS_recorded Objects.references _ vs
                    ltac:(eapply Forall_impl2; [exact IH|exact Hcs|];
                          intros x Hx Hcx; exact (Hx Hcx))
                    T ws T1 Hvs) as (Hk & Hg & Hs).
      assert (T1 !! Objects.dumps (Objects.OEnt a t vs) = None) as Hfresh.
      { destruct (T1 !! Objects.dumps (Objects.OEnt a t vs)) as [i|] eqn:Hi;
          [|reflexivity].
        destruct (Hg _ (mk_is_Some _ _ Hi)) as [[j Hj]|(u & Hu & Heq)];
          [congruence|].
        destruct (nested_instance_pickle h a t vs u Hc Hu Heq). }
      split; [|split].
      * intros k i Hki. rewrite lookup_insert_ne by congruence. auto.
      * intros k Hin.
        destruct (decide (Objects.dumps (Objects.OEnt a t vs) = k)) as [<-|Hne].
        -- right. exists (Objects.OEnt a t vs). split; [|reflexivity].
           apply elem_of_cons. auto.
        -- rewrite lookup_insert_ne in Hin by exact Hne.
           destruct (Hg k Hin) as [?|(u & Hu & ->)]; [auto|].
           right. exists u. split; [apply elem_of_cons; auto|reflexivity].
      * rewrite map_size_insert_None by exact Hfresh. simpl. lia.
Qed.

Lemma encode_all_recorded h l :
  forallb (Objects.consistent h) l = true ->
  forall T ws T', mapS Objects.DeduplicatingSerializer.encode_in l T = Ok (ws, T') ->
    recorded (flat_map Objects.instances l) (Objects.references (VList ws)) T T'.
Proof.
  intros Hc. apply forallb_Forall in Hc. apply mapS_recorded.
  eapply Forall_impl; [exact Hc|]. simpl. intros x Hx. apply (encode_recorded h x Hx).
Qed.
End recorded.

Lemma forallb_map {A B} (f : B -> bool) (g : A -> B) l :
  forallb f (map g l) = forallb (fun x => f (g x)) l.
Proof. induction l as [|x r IH]; simpl; [reflexivity|]. rewrite IH. reflexivity. Qed.

Lemma dict_has_map_values {A B} (g : A -> B) k (d : list (string * A)) :
  dict_has k (map (fun kv => (fst kv, g (snd kv))) d) = dict_has k d.
Proof.
  unfold dict_has. induction d as [|[k' x] r IH]; simpl; [reflexivity|].
  destruct (String.eqb k k'); [reflexivity|exact IH].
Qed.

Section encode_total.
Context `{Objects.Pickle}.

Lemma encode_total o :
  serializable (Objects.erase o) = true ->
  avoids ["*"; "&"] (Objects.erase o) = true ->
  forall T, exists w T', Objects.DeduplicatingSerializer.encode_in o T = Ok (w, T').
Proof.
  induction o as [| | |a l IH|a l IH|a d IH|a t vs IH] using Objects.obj_ind;
    simpl; intros Hser Hav T; try discriminate; eauto.
  - rewrite forallb_map in Hser, Hav. apply forallb_Forall in Hser, Hav.
    destruct (mapS_total Objects.DeduplicatingSerializer.encode_in l) with (s := T)
      as (ws & T' & ->); [|simpl; eauto].
    eapply Forall_impl2; [exact IH| |].
    + apply Forall_and. split; [exact Hser|exact Hav].
    + simpl. intros x Hx [? ?]. auto.
  - apply andb_true_iff in Hav as [Hres Hav].
    rewrite forallb_map in Hser, Hav. apply forallb_Forall in Hser, Hav.
    pose proof (fun k => dict_has_map_values
                  (fun p : Objects.addr * Objects.obj => Objects.erase (snd p)) k d)
      as Hhas.
    cbv beta in Hhas. simpl in Hres. rewrite !Hhas, andb_true_r in Hres.
    rewrite Hres. simpl.
    rewrite sorted_delay_items.
    destruct (run_items_total
                (fun kv : Objects.addr * Objects.obj =>
                   Objects.DeduplicatingSerializer.encode_in (snd kv)) (sorted_items d))
      with (s := T) as (ws & T' & ->); [|simpl; eauto].
    rewrite sorted_items_perm.
    eapply Forall_impl2; [exact IH| |].
    + apply Forall_and. split; [exact Hser|exact Hav].
    + simpl. intros x Hx [? ?]. auto.
  - rewrite forallb_map in Hser, Hav. apply forallb_Forall in Hser, Hav.
    destruct (T !! Objects.dumps (Objects.OEnt a t vs)); [eauto|].
    destruct (mapS_total Objects.DeduplicatingSerializer.encode_in vs) with (s := T)
      as (ws & T' & ->); [|simpl; eauto].
    eapply Forall_impl2; [exact IH| |].
    + apply Forall_and. split; [exact Hser|exact Hav].
    + simpl. intros x Hx [? ?]. auto.
Qed.

Lemma encode_all_total l :
  forallb serializable (map Objects.erase l) = true ->
  forallb (avoids ["*"; "&"]) (map Objects.erase l) = true ->
  forall T, exists ws T',
    mapS Objects.DeduplicatingSerializer.encode_in l T = Ok (ws, T').
Proof.
  rewrite !forallb_map. intros Hser Hav. apply forallb_Forall in Hser, Hav.
  apply mapS_total. eapply Forall_impl2; [exact Hser|exact Hav|].
  simpl. intros x ? ?. apply encode_total; assumption.
Qed.
End encode_total.

(** ** The encoder on values and the encoder on objects

    A pickler that looks at nothing but the content of an object makes the
    encoder on objects the encoder on values: this is what the model on
    values leaves out of [pickle.dumps]. *)

Lemma mapS_map {A A' B S} (g : A -> A') (f : A' -> S -> result (B * S))
    (f' : A -> S -> result (B * S)) l :
  Forall (fun x => forall s, f' x s = f (g x) s) l ->
  forall s, mapS f' l s = mapS f (map g l) s.
Proof.
  induction 1 as [|x r Hx _ IH]; intros s; simpl; [reflexivity|].
  rewrite Hx. destruct (f (g x) s) as [[w s1]|]; simpl; [|reflexivity].
  rewrite IH. reflexivity.
Qed.

Lemma run_items_map {A A' B S} (g : A -> A') (f : A' -> S -> result (B * S))
    (f' : A -> S -> result (B * S)) d :
  Forall (fun kv => forall s, f' (snd kv) s = f (g (snd kv)) s) d ->
  forall s, run_items (delay_items f' d) s
            = run_items (delay_items f (map (fun kv => (fst kv, g (snd kv))) d)) s.
Proof.
  induction 1 as [|[k x] r Hx _ IH]; intros s; simpl in *; [reflexivity|].
  rewrite Hx. destruct (f (g x) s) as [[w s1]|]; simpl; [|reflexivity].
  rewrite IH. reflexivity.
Qed.

Lemma encode_in_erase `{Pickle} o :
  forall T, @Objects.DeduplicatingSerializer.encode_in content_pickle o T
            = DeduplicatingSerializer.encode_in (Objects.erase o) T.
Proof.
  induction o as [| | |a l IH|a l IH|a d IH|a t vs IH] using Objects.obj_ind;
    intros T; simpl; try reflexivity.
  - rewrite (mapS_map Objects.erase DeduplicatingSerializer.encode_in
               (@Objects.DeduplicatingSerializer.encode_in content_pickle) l IH).
    reflexivity.
  - pose proof (fun k => dict_has_map_values
                  (fun p : Objects.addr * Objects.obj => Objects.erase (snd p)) k d)
      as Hhas.
    cbv beta in Hhas. rewrite !Hhas.
    destruct (negb (dict_has "*" d) && negb (dict_has "&" d)); simpl; [|reflexivity].
    rewrite !sorted_delay_items.
    rewrite (sorted_items_map
               (fun kv : string * (Objects.addr * Objects.obj) =>
                  (fst kv, Objects.erase (snd (snd kv))))) by reflexivity.
    rewrite (run_items_map (fun p : Objects.addr * Objects.obj => Objects.erase (snd p))
               DeduplicatingSerializer.encode_in
               (fun kv => @Objects.DeduplicatingSerializer.encode_in content_pickle (snd kv))
               (sorted_items d)).
    + reflexivity.
    + rewrite sorted_items_perm. exact IH.
  - rewrite (mapS_map Objects.erase DeduplicatingSerializer.encode_in
               (@Objects.DeduplicatingSerializer.encode_in content_pickle) vs IH).
    reflexivity.
Qed.

Lemma encode_erase `{Pickle} o :
  @Objects.DeduplicatingSerializer.encode content_pickle o
  = DeduplicatingSerializer.encode (Objects.erase o).
Proof.
  unfold Objects.DeduplicatingSerializer.encode, DeduplicatingSerializer.encode.
  rewrite encode_in_erase. reflexivity.
Qed.

(** ** The pickler determines the content

    Two objects for which the pickler writes the same opcodes have the same
    content.  The two picklers are followed side by side: their memos grow
    in step, and the objects they hold at the same index have the same
    content, except for the lists and dictionaries still being written,
    which are larger than anything inside them. *)

Section memo_in_step.
Variables ha hb : gmap Objects.addr value.
Implicit Types (Ma Mb M : gmap Objects.addr nat) (n i : nat).

Lemma memo_ext_size h n M M' : memo_ext h n M M' -> (size M <= size M')%nat.
Proof.
  intros [Hk _]. apply map_subseteq_size, map_subseteq_spec. exact Hk.
Qed.

Lemma memo_ext_refl h n M : memo_ext h n M M.
Proof. split; auto. Qed.

Lemma memo_ext_trans h n M M1 M2 :
  memo_ext h n M M1 -> memo_ext h n M1 M2 -> memo_ext h n M M2.
Proof.
  intros H1 H2. pose proof (memo_ext_size _ _ _ _ H1) as Hsize.
  destruct H1 as [Hk1 Hn1], H2 as [Hk2 Hn2]. split; [auto|].
  intros x i Hx. destruct (Hn2 x i Hx) as [Hold|[Hi Hv]]; [auto|].
  right. split; [lia|exact Hv].
Qed.

Lemma memo_ext_le h n n' M M' :
  (n <= n')%nat -> memo_ext h n M M' -> memo_ext h n' M M'.
Proof.
  intros Hle [Hk Hn]. split; [exact Hk|].
  intros x i Hx. destruct (Hn x i Hx) as [?|[Hi (v & Hv & Hs)]]; [auto|].
  right. split; [exact Hi|]. exists v. split; [exact Hv|lia].
Qed.

Lemma memo_pre_le n n' Ma Mb :
  (n' <= n)%nat -> memo_pre ha hb n Ma Mb -> memo_pre ha hb n' Ma Mb.
Proof.
  intros Hle (Hs & Ha & Hb & Hag). repeat split; try assumption; try apply Ha;
    try apply Hb.
  intros x y i Hx Hy. destruct (Hag x y i Hx Hy) as [?|(v & Hv & Hsz)]; [auto|].
  right. exists v. split; [exact Hv|lia].
Qed.

Lemma memo_post_le n n' Ma Mb Ma' Mb' :
  (n <= n')%nat -> memo_post ha hb n Ma Mb Ma' Mb' -> memo_post ha hb n' Ma Mb Ma' Mb'.
Proof.
  intros Hle (Hs & Ha & Hb & Hea & Heb & Hag).
  split; [exact Hs|]. split; [exact Ha|]. split; [exact Hb|].
  split; [eapply memo_ext_le; eauto|]. split; [eapply memo_ext_le; eauto|exact Hag].
Qed.

Lemma memo_post_refl n Ma Mb : memo_pre ha hb n Ma Mb -> memo_post ha hb n Ma Mb Ma Mb.
Proof.
  intros (Hs & Ha & Hb & _).
  split; [exact Hs|]. split; [exact Ha|]. split; [exact Hb|].
  split; [apply memo_ext_refl|]. split; [apply memo_ext_refl|].
  intros x y i Hi Hx _. destruct Ha as [Hlt _]. specialize (Hlt x i Hx). lia.
Qed.

Lemma memo_post_trans n Ma Mb Ma1 Mb1 Ma2 Mb2 :
  size Ma = size Mb ->
  memo_post ha hb n Ma Mb Ma1 Mb1 -> memo_post ha hb n Ma1 Mb1 Ma2 Mb2 ->
  memo_post ha hb n Ma Mb Ma2 Mb2.
Proof.
  intros Hs (Hs1 & Ha1 & Hb1 & Hea1 & Heb1 & Hag1) (Hs2 & Ha2 & Hb2 & Hea2 & Heb2 & Hag2).
  split; [exact Hs2|]. split; [exact Ha2|]. split; [exact Hb2|].
  split; [eapply memo_ext_trans; eauto|]. split; [eapply memo_ext_trans; eauto|].
  intros x y i Hi Hx Hy.
  destruct (decide (size Ma1 <= i)%nat) as [Hnew|Hold]; [eauto|].
  destruct Hea2 as [_ Hna], Heb2 as [_ Hnb].
  destruct (Hna x i Hx) as [Hx1|[? _]]; [|lia].
  destruct (Hnb y i Hy) as [Hy1|[? _]]; [|lia].
  eauto.
Qed.

Lemma memo_pre_post n Ma Mb Ma' Mb' :
  memo_pre ha hb n Ma Mb -> memo_post ha hb n Ma Mb Ma' Mb' -> memo_pre ha hb n Ma' Mb'.
Proof.
  intros (Hs & Ha & Hb & Hag) (Hs' & Ha' & Hb' & [_ Hna] & [_ Hnb] & Hag').
  split; [exact Hs'|]. split; [exact Ha'|]. split; [exact Hb'|].
  intros x y i Hx Hy.
  destruct (Hna x i Hx) as [Hx0|[Hi _]].
  - destruct (Hnb y i Hy) as [Hy0|[Hi _]]; [eauto|].
    destruct Ha as [Hlt _]. specialize (Hlt x i Hx0). lia.
  - left. eauto.
Qed.

Lemma memo_ok_memoize M x :
  memo_ok M -> M !! x = None -> memo_ok (Objects.memoize x M).
Proof.
  intros [Hlt Hinj] Hx. unfold Objects.memoize. split.
  - intros x' i. rewrite map_size_insert_None by exact Hx.
    destruct (decide (x = x')) as [<-|Hne].
    + rewrite lookup_insert_eq. intros [= <-]. lia.
    + rewrite lookup_insert_ne by exact Hne. intros Hi. specialize (Hlt x' i Hi). lia.
  - intros x1 x2 i.
    destruct (decide (x = x1)) as [<-|Hne1]; destruct (decide (x = x2)) as [<-|Hne2];
      rewrite ?lookup_insert_eq, ?lookup_insert_ne by assumption.
    + reflexivity.
    + intros [= <-] Hi. specialize (Hlt x2 _ Hi). lia.
    + intros Hi [= <-]. specialize (Hlt x1 _ Hi). lia.
    + apply Hinj.
Qed.

Lemma memo_ext_memoize h n M x v :
  M !! x = None -> h !! x = Some v -> (vsize v <= n)%nat ->
  memo_ext h n M (Objects.memoize x M).
Proof.
  intros Hx Hv Hs. unfold Objects.memoize. split.
  - intros x' i Hi. rewrite lookup_insert_ne by congruence. exact Hi.
  - intros x' i. destruct (decide (x = x')) as [<-|Hne].
    + rewrite lookup_insert_eq. intros [= <-]. right. split; [lia|eauto].
    + rewrite lookup_insert_ne by exact Hne. auto.
Qed.

(** Both picklers memoize an object, of the same content. *)
Lemma memo_post_memoize n Ma Mb x y v :
  memo_pre ha hb n Ma Mb -> Ma !! x = None -> Mb !! y = None ->
  ha !! x = Some v -> hb !! y = Some v -> (vsize v <= n)%nat ->
  memo_post ha hb n Ma Mb (Objects.memoize x Ma) (Objects.memoize y Mb).
Proof.
  intros (Hs & Ha & Hb & _) Hx Hy Hvx Hvy Hsz.
  split; [unfold Objects.memoize; rewrite !map_size_insert_None by assumption; lia|].
  split; [apply memo_ok_memoize; assumption|].
  split; [apply memo_ok_memoize; assumption|].
  split; [eapply memo_ext_memoize; eauto|].
  split; [eapply memo_ext_memoize; eauto|].
  intros x' y' i Hi. unfold Objects.memoize.
  destruct (decide (x = x')) as [<-|Hnx].
  - rewrite lookup_insert_eq. intros [= <-].
    destruct (decide (y = y')) as [<-|Hny]; [congruence|].
    rewrite lookup_insert_ne by exact Hny. intros Hy'.
    destruct Hb as [Hlt _]. specialize (Hlt y' _ Hy'). lia.
  - rewrite lookup_insert_ne by exact Hnx. intros Hx'.
    destruct Ha as [Hlt _]. specialize (Hlt x' _ Hx'). lia.
Qed.

(** Both picklers find an object in their memo, at the same index. *)
Lemma memo_hit n Ma Mb x y i va vb :
  memo_pre ha hb n Ma Mb -> Ma !! x = Some i -> Mb !! y = Some i ->
  ha !! x = Some va -> hb !! y = Some vb -> (vsize va <= n)%nat -> va = vb.
Proof.
  intros (_ & _ & _ & Hag) Hx Hy Hva Hvb Hsz.
  destruct (Hag x y i Hx Hy) as [Heq|(v & Hv & Hbig)].
  - congruence.
  - assert (v = va) by congruence. subst v. lia.
Qed.
End memo_in_step.

(** What the pickler wrote tells what it was given. *)
Lemma save_get b M i M' :
  Objects.save b M = (Objects.BINGET i, M') ->
  exists y, Objects.addr_of b = Some y /\ M !! y = Some i /\ M' = M.
Proof.
  destruct b as [| |y s|y l|y l|y d|y t vs]; simpl; unfold Objects.save_str;
    try discriminate;
    destruct (M !! y) as [j|] eqn:Hy;
    try (intros [= <- <-]; eauto);
    try discriminate.
  - destruct (Objects.save_all _ l _); discriminate.
  - destruct l; [discriminate|]. destruct (Objects.save_all _ _ _); discriminate.
  - destruct (Objects.save_all _ d _); discriminate.
  - destruct (Objects.save_all _ vs _); discriminate.
Qed.

Lemma save_none b M M' :
  Objects.save b M = (Objects.NONE, M') -> b = Objects.ONone /\ M' = M.
Proof.
  destruct b as [| |y s|y l|y l|y d|y t vs]; simpl; unfold Objects.save_str;
    try discriminate; try (intros [= <-]; auto);
    destruct (M !! y) as [j|] eqn:Hy; try discriminate.
  - destruct (Objects.save_all _ l _); discriminate.
  - destruct l; [discriminate|]. destruct (Objects.save_all _ _ _); discriminate.
  - destruct (Objects.save_all _ d _); discriminate.
  - destruct (Objects.save_all _ vs _); discriminate.
Qed.

Lemma save_binint b M z M' :
  Objects.save b M = (Objects.BININT z, M') -> b = Objects.OInt z /\ M' = M.
Proof.
  destruct b as [|z'|y s|y l|y l|y d|y t vs]; simpl; unfold Objects.save_str;
    try discriminate; try (intros [= <- <-]; auto);
    destruct (M !! y) as [j|] eqn:Hy; try discriminate.
  - destruct (Objects.save_all _ l _); discriminate.
  - destruct l; [discriminate|]. destruct (Objects.save_all _ _ _); discriminate.
  - destruct (Objects.save_all _ d _); discriminate.
  - destruct (Objects.save_all _ vs _); discriminate.
Qed.

Lemma save_binunicode b M s M' :
  Objects.save b M = (Objects.BINUNICODE s, M') ->
  exists y, b = Objects.OStr y s /\ M !! y = None /\ M' = Objects.memoize y M.
Proof.
  destruct b as [| |y s'|y l|y l|y d|y t vs]; simpl; unfold Objects.save_str;
    try discriminate;
    destruct (M !! y) as [j|] eqn:Hy; try discriminate.
  - intros [= <- <-]. eauto.
  - destruct (Objects.save_all _ l _); discriminate.
  - destruct l; [discriminate|]. destruct (Objects.save_all _ _ _); discriminate.
  - destruct (Objects.save_all _ d _); discriminate.
  - destruct (Objects.save_all _ vs _); discriminate.
Qed.

Lemma save_appends b M ps M' :
  Objects.save b M = (Objects.APPENDS ps, M') ->
  exists y l, b = Objects.OList y l /\ M !! y = None
    /\ Objects.save_all Objects.save l (Objects.memoize y M) = (ps, M').
Proof.
  destruct b as [| |y s|y l|y l|y d|y t vs]; simpl; unfold Objects.save_str;
    try discriminate;
    destruct (M !! y) as [j|] eqn:Hy; try discriminate.
  - destruct (Objects.save_all _ l _) as [ps' M1] eqn:Hl. intros [= <- <-]. eauto.
  - destruct l; [discriminate|]. destruct (Objects.save_all _ _ _); discriminate.
  - destruct (Objects.save_all _ d _); discriminate.
  - destruct (Objects.save_all _ vs _); discriminate.
Qed.

Lemma save_tuple b M ps M' :
  Objects.save b M = (Objects.TUPLE ps, M') ->
  exists y l, b = Objects.OTuple y l /\ M !! y = None
    /\ ((l = [] /\ ps = [] /\ M' = M)
        \/ (l <> [] /\ exists M1, Objects.save_all Objects.save l M = (ps, M1)
                                  /\ M' = Objects.memoize y M1)).
Proof.
  destruct b as [| |y s|y l|y l|y d|y t vs]; simpl; unfold Objects.save_str;
    try discriminate;
    destruct (M !! y) as [j|] eqn:Hy; try discriminate.
  - destruct (Objects.save_all _ l _); discriminate.
  - destruct l as [|x r]; [intros [= <- <-]; eauto 8|].
    destruct (Objects.save_all _ _ _) as [ps' M1] eqn:Hl. intros [= <- <-].
    exists y, (x :: r). split; [reflexivity|]. split; [exact Hy|]. right.
    split; [discriminate|eauto].
  - destruct (Objects.save_all _ d _); discriminate.
  - destruct (Objects.save_all _ vs _); discriminate.
Qed.

Lemma save_setitems b M ps M' :
  Objects.save b M = (Objects.SETITEMS ps, M') ->
  exists y d, b = Objects.ODict y d /\ M !! y = None
    /\ Objects.save_all (Objects.save_item Objects.save) d (Objects.memoize y M)
       = (ps, M').
Proof.
  destruct b as [| |y s|y l|y l|y d|y t vs]; simpl; unfold Objects.save_str;
    try discriminate;
    destruct (M !! y) as [j|] eqn:Hy; try discriminate.
  - destruct (Objects.save_all _ l _); discriminate.
  - destruct l; [discriminate|]. destruct (Objects.save_all _ _ _); discriminate.
  - destruct (Objects.save_all _ d _) as [ps' M1] eqn:Hl. intros [= <- <-]. eauto.
  - destruct (Objects.save_all _ vs _); discriminate.
Qed.

Lemma save_newobj b M t ps M' :
  Objects.save b M = (Objects.NEWOBJ t ps, M') ->
  exists y vs, b = Objects.OEnt y t vs /\ M !! y = None
    /\ exists M1, Objects.save_all Objects.save vs M = (ps, M1)
                  /\ M' = Objects.memoize y M1.
Proof.
  destruct b as [| |y s|y l|y l|y d|y t' vs]; simpl; unfold Objects.save_str;
    try discriminate;
    destruct (M !! y) as [j|] eqn:Hy; try discriminate.
  - destruct (Objects.save_all _ l _); discriminate.
  - destruct l; [discriminate|]. destruct (Objects.save_all _ _ _); discriminate.
  - destruct (Objects.save_all _ d _); discriminate.
  - destruct (Objects.save_all _ vs _) as [ps' M1] eqn:Hl. intros [= <- <- <-]. eauto 8.
Qed.

Lemma consistent_addr h o x :
  Objects.consistent h o = true -> Objects.addr_of o = Some x ->
  h !! x = Some (Objects.erase o).
Proof.
  destruct o; simpl; try discriminate; intros Hc [= <-];
    try (apply andb_true_iff in Hc as [Hc _]);
    exact (bool_decide_eq_true_1 _ Hc).
Qed.
Section save_in_step.
Variables ha hb : gmap Objects.addr value.

(** Both picklers memoize a list or a dictionary they start writing: until
    it is closed, it only counts as larger than what is inside. *)
Lemma memo_pre_open n m Ma Mb x y v :
  memo_pre ha hb n Ma Mb -> Ma !! x = None -> Mb !! y = None ->
  ha !! x = Some v -> (m < vsize v)%nat -> (m <= n)%nat ->
  memo_pre ha hb m (Objects.memoize x Ma) (Objects.memoize y Mb).
Proof.
  intros (Hs & Ha & Hb & Hag) Hx Hy Hv Hbig Hle.
  split; [unfold Objects.memoize; rewrite !map_size_insert_None by assumption; lia|].
  split; [apply memo_ok_memoize; assumption|].
  split; [apply memo_ok_memoize; assumption|].
  intros x' y' i. unfold Objects.memoize.
  destruct (decide (x = x')) as [<-|Hnx].
  - rewrite lookup_insert_eq. intros [= <-] _. right. eauto.
  - rewrite lookup_insert_ne by exact Hnx. intros Hx'.
    destruct (decide (y = y')) as [<-|Hny].
    + rewrite lookup_insert_eq. intros [= <-].
      destruct Ha as [Hlt _]. specialize (Hlt x' _ Hx'). lia.
    + rewrite lookup_insert_ne by exact Hny. intros Hy'.
      destruct (Hag x' y' i Hx' Hy') as [?|(w & Hw & Hsz)]; [auto|].
      right. exists w. split; [exact Hw|lia].
Qed.

(** An address that holds an object larger than anything memoized since
    is not in the memo. *)
Lemma memo_ext_fresh h m M M' x v :
  memo_ext h m M M' -> M !! x = None -> h !! x = Some v -> (m < vsize v)%nat ->
  M' !! x = None.
Proof.
  intros [_ Hnew] Hx Hv Hbig. destruct (M' !! x) as [i|] eqn:Hi; [|reflexivity].
  destruct (Hnew x i Hi) as [Hold|[_ (w & Hw & Hsz)]]; [congruence|].
  assert (w = v) by congruence. subst w. lia.
Qed.

Lemma save_all_in_step {A B E : Type}
    (f : A -> gmap Objects.addr nat -> B * gmap Objects.addr nat)
    (er : A -> E) (Ca Cb : A -> Prop) n la :
  Forall (fun a => Ca a -> forall b Ma Mb p Ma' Mb',
            Cb b -> memo_pre ha hb n Ma Mb ->
            f a Ma = (p, Ma') -> f b Mb = (p, Mb') ->
            er a = er b /\ memo_post ha hb n Ma Mb Ma' Mb') la ->
  Forall Ca la ->
  forall lb Ma Mb ps Ma' Mb',
    Forall Cb lb -> memo_pre ha hb n Ma Mb ->
    Objects.save_all f la Ma = (ps, Ma') -> Objects.save_all f lb Mb = (ps, Mb') ->
    map er la = map er lb /\ memo_post ha hb n Ma Mb Ma' Mb'.
Proof.
  induction 1 as [|a ra Hstep _ IH]; intros Hca [|b rb] Ma Mb ps Ma' Mb' Hcb Hpre; simpl.
  - intros [= <- <-] [= <-]. split; [reflexivity|apply memo_post_refl; exact Hpre].
  - intros [= <- <-]. destruct (f b Mb) as [q Mb1].
    destruct (Objects.save_all f rb Mb1); discriminate.
  - destruct (f a Ma) as [q Ma1]. destruct (Objects.save_all f ra Ma1). 
    intros [= <- <-]. discriminate.
  - destruct (f a Ma) as [pa Ma1] eqn:Hfa.
    destruct (Objects.save_all f ra Ma1) as [psa Ma2] eqn:Hra.
    destruct (f b Mb) as [pb Mb1] eqn:Hfb.
    destruct (Objects.save_all f rb Mb1) as [psb Mb2] eqn:Hrb.
    intros [= <- <-] [= -> -> <-].
    apply Forall_cons in Hca as [Hca Hcra]. apply Forall_cons in Hcb as [Hcb Hcrb].
    destruct (Hstep Hca b Ma Mb pa Ma1 Mb1 Hcb Hpre Hfa Hfb) as [Hab Hpost1].
    pose proof (memo_pre_post _ _ _ _ _ _ _ Hpre Hpost1) as Hpre1.
    destruct (IH Hcra rb Ma1 Mb1 psa Ma2 Mb2 Hcrb Hpre1 Hra Hrb) as [Hrab Hpost2].
    split; [f_equal; assumption|].
    eapply memo_post_trans; [apply Hpre|exact Hpost1|exact Hpost2].
Qed.

Lemma hit_in_step n a b x i Ma Mb Mb' :
  (vsize (Objects.erase a) <= n)%nat ->
  Objects.consistent ha a = true -> Objects.consistent hb b = true ->
  memo_pre ha hb n Ma Mb ->
  Objects.addr_of a = Some x -> Ma !! x = Some i ->
  Objects.save b Mb = (Objects.BINGET i, Mb') ->
  Objects.erase a = Objects.erase b /\ memo_post ha hb n Ma Mb Ma Mb'.
Proof.
  intros Hn Hca Hcb Hpre Hx Hi Hsb.
  apply save_get in Hsb as (y & Hy & Hj & ->).
  pose proof (consistent_addr _ _ _ Hca Hx) as Hva.
  pose proof (consistent_addr _ _ _ Hcb Hy) as Hvb.
  split; [exact (memo_hit _ _ _ _ _ _ _ _ _ _ Hpre Hi Hj Hva Hvb Hn)|].
  apply memo_post_refl. exact Hpre.
Qed.

Lemma str_in_step n x s b Ma Mb p Ma' Mb' :
  (1 <= n)%nat ->
  ha !! x = Some (VStr s) -> Objects.consistent hb b = true ->
  memo_pre ha hb n Ma Mb ->
  Objects.save_str x s Ma = (p, Ma') -> Objects.save b Mb = (p, Mb') ->
  VStr s = Objects.erase b /\ memo_post ha hb n Ma Mb Ma' Mb'.
Proof.
  intros Hn Hva Hcb Hpre. unfold Objects.save_str.
  destruct (Ma !! x) as [i|] eqn:Hx.
  - intros [= <- <-] Hsb.
    apply (hit_in_step n (Objects.OStr x s) b x i Ma Mb Mb'); try assumption.
    + simpl. apply bool_decide_eq_true_2. exact Hva.
    + reflexivity.
  - intros [= <- <-] Hsb.
    apply save_binunicode in Hsb as (y & -> & Hy & ->). split; [reflexivity|].
    simpl in Hcb. apply bool_decide_eq_true_1 in Hcb. simpl in Hcb.
    apply (memo_post_memoize ha hb n Ma Mb x y (VStr s)); assumption.
Qed.

Lemma list_sum_elem (l : list nat) x : x ∈ l -> (x <= list_sum l)%nat.
Proof. induction 1 as [x r|x y r _ IH]; simpl; lia. Qed.

Lemma save_in_step a :
  forall n b Ma Mb p Ma' Mb',
    (vsize (Objects.erase a) <= n)%nat ->
    Objects.consistent ha a = true -> Objects.consistent hb b = true ->
    memo_pre ha hb n Ma Mb ->
    Objects.save a Ma = (p, Ma') -> Objects.save b Mb = (p, Mb') ->
    Objects.erase a = Objects.erase b /\ memo_post ha hb n Ma Mb Ma' Mb'.
Proof.
  induction a as [| |x s|x l IH|x l IH|x d IH|x t vs IH] using Objects.obj_ind;
    intros n b Ma Mb p Ma' Mb' Hn Hca Hcb Hpre Hsa Hsb.
  - simpl in Hsa. injection Hsa as <- <-.
    apply save_none in Hsb as [-> ->].
    split; [reflexivity|apply memo_post_refl; exact Hpre].
  - simpl in Hsa. injection Hsa as <- <-.
    apply save_binint in Hsb as [-> ->].
    split; [reflexivity|apply memo_post_refl; exact Hpre].
  - simpl in Hsa, Hca. apply bool_decide_eq_true_1 in Hca.
    exact (str_in_step n x s b Ma Mb p Ma' Mb' Hn Hca Hcb Hpre Hsa Hsb).
  - (* a list: memoized, then its elements *)
    simpl in Hsa. destruct (Ma !! x) as [i|] eqn:Hx.
    { injection Hsa as <- <-.
      exact (hit_in_step n _ b x i Ma Mb Mb' Hn Hca Hcb Hpre eq_refl Hx Hsb). }
    destruct (Objects.save_all Objects.save l (Objects.memoize x Ma))
      as [ps Ma1] eqn:Hl.
    injection Hsa as <- <-.
    apply save_appends in Hsb as (y & lb & -> & Hy & Hlb).
    pose proof (consistent_addr _ _ _ Hca eq_refl) as Hva.
    pose proof (consistent_addr _ _ _ Hcb eq_refl) as Hvb.
    simpl in Hca, Hcb. apply andb_true_iff in Hca as [_ Hca], Hcb as [_ Hcb].
    apply forallb_Forall in Hca, Hcb.
    set (m := list_sum (map vsize (map Objects.erase l))).
    assert (m < vsize (Objects.erase (Objects.OList x l)))%nat as Hm
      by (simpl; unfold m; lia).
    pose proof (memo_pre_open n m Ma Mb x y _ Hpre Hx Hy Hva Hm ltac:(lia)) as Hopen.
    destruct (save_all_in_step Objects.save Objects.erase
                (fun c => Objects.consistent ha c = true)
                (fun c => Objects.consistent hb c = true) m l) with
      (lb := lb) (Ma := Objects.memoize x Ma) (Mb := Objects.memoize y Mb)
      (ps := ps) (Ma' := Ma1) (Mb' := Mb') as [Herase Hpost]; try assumption.
    { rewrite Forall_forall in IH. apply Forall_forall. intros c Hc Hcc c' ? ? ? ? ?.
      intros Hcc'. apply (IH c Hc); [|assumption|assumption].
      apply list_sum_elem, list_elem_of_fmap. exists (Objects.erase c).
      split; [reflexivity|]. apply list_elem_of_fmap. eauto. }
    assert (Objects.erase (Objects.OList x l) = Objects.erase (Objects.OList y lb))
      as Heq by (simpl; f_equal; exact Herase).
    split; [exact Heq|].
    eapply memo_post_trans; [apply Hpre| |eapply memo_post_le; [|exact Hpost]; lia].
    apply (memo_post_memoize ha hb n Ma Mb x y _ Hpre Hx Hy Hva); [|exact Hn].
    rewrite Heq. exact Hvb.
  - (* a tuple: its elements, then memoized *)
    simpl in Hsa. destruct (Ma !! x) as [i|] eqn:Hx.
    { injection Hsa as <- <-.
      exact (hit_in_step n _ b x i Ma Mb Mb' Hn Hca Hcb Hpre eq_refl Hx Hsb). }
    destruct l as [|c0 l0] eqn:El.
    { injection Hsa as <- <-.
      apply save_tuple in Hsb as (y & lb & -> & Hy & [(-> & _ & ->)|(Hne & M1 & Hlb & _)]).
      - split; [reflexivity|apply memo_post_refl; exact Hpre].
      - destruct lb as [|c1 lb1]; [destruct Hne; reflexivity|]. simpl in Hlb.
        destruct (Objects.save c1 Mb) as [q Mb1].
        destruct (Objects.save_all Objects.save lb1 Mb1). discriminate. }
    rewrite <- El in *.
    destruct (Objects.save_all Objects.save l Ma) as [ps Ma1] eqn:Hl.
    injection Hsa as <- <-.
    apply save_tuple in Hsb as (y & lb & -> & Hy & [(-> & -> & _)|(_ & Mb1 & Hlb & ->)]).
    { subst l. simpl in Hl. destruct (Objects.save c0 Ma) as [q Ma2].
      destruct (Objects.save_all Objects.save l0 Ma2). discriminate. }
    pose proof (consistent_addr _ _ _ Hca eq_refl) as Hva.
    pose proof (consistent_addr _ _ _ Hcb eq_refl) as Hvb.
    simpl in Hca, Hcb. apply andb_true_iff in Hca as [_ Hca], Hcb as [_ Hcb].
    apply forallb_Forall in Hca, Hcb.
    set (m := list_sum (map vsize (map Objects.erase l))).
    assert (m < vsize (Objects.erase (Objects.OTuple x l)))%nat as Hm
      by (simpl; unfold m; lia).
    destruct (save_all_in_step Objects.save Objects.erase
                (fun c => Objects.consistent ha c = true)
                (fun c => Objects.consistent hb c = true) m l) with
      (lb := lb) (Ma := Ma) (Mb := Mb)
      (ps := ps) (Ma' := Ma1) (Mb' := Mb1) as [Herase Hpost]; try assumption.
    { rewrite Forall_forall in IH. apply Forall_forall. intros c Hc Hcc c' ? ? ? ? ?.
      intros Hcc'. apply (IH c Hc); [|assumption|assumption].
      apply list_sum_elem, list_elem_of_fmap. exists (Objects.erase c).
      split; [reflexivity|]. apply list_elem_of_fmap. eauto. }
    { eapply memo_pre_le; [|exact Hpre]. lia. }
    assert (Objects.erase (Objects.OTuple x l) = Objects.erase (Objects.OTuple y lb))
      as Heq by (simpl; f_equal; exact Herase).
    split; [exact Heq|].
    rewrite Heq in Hva.
    pose proof Hpost as (_ & _ & _ & Hea & Heb & _).
    pose proof (memo_ext_fresh _ _ _ _ _ _ Hea Hx Hva ltac:(rewrite <- Heq; exact Hm)) as Hx1.
    pose proof (memo_ext_fresh _ _ _ _ _ _ Heb Hy Hvb ltac:(rewrite <- Heq; exact Hm)) as Hy1.
    apply (memo_post_le ha hb m n) in Hpost; [|lia].
    eapply memo_post_trans; [apply Hpre|exact Hpost|].
    apply (memo_post_memoize ha hb n Ma1 Mb1 x y _
             (memo_pre_post _ _ _ _ _ _ _ Hpre Hpost) Hx1 Hy1 Hva Hvb).
    rewrite <- Heq. exact Hn.
  - (* a dictionary: memoized, then its keys and values *)
    simpl in Hsa. destruct (Ma !! x) as [i|] eqn:Hx.
    { injection Hsa as <- <-.
      exact (hit_in_step n _ b x i Ma Mb Mb' Hn Hca Hcb Hpre eq_refl Hx Hsb). }
    destruct (Objects.save_all (Objects.save_item Objects.save) d (Objects.memoize x Ma))
      as [ps Ma1] eqn:Hl.
    injection Hsa as <- <-.
    apply save_setitems in Hsb as (y & db & -> & Hy & Hlb).
    pose proof (consistent_addr _ _ _ Hca eq_refl) as Hva.
    pose proof (consistent_addr _ _ _ Hcb eq_refl) as Hvb.
    simpl in Hca, Hcb. apply andb_true_iff in Hca as [_ Hca], Hcb as [_ Hcb].
    apply forallb_Forall in Hca, Hcb.
    set (er := fun kv : string * (Objects.addr * Objects.obj) =>
                 (fst kv, Objects.erase (snd (snd kv)))).
    set (m := list_sum (map (fun kv => vsize (snd kv)) (map er d))).
    assert (m < vsize (Objects.erase (Objects.ODict x d)))%nat as Hm
      by (simpl; unfold m, er; lia).
    pose proof (memo_pre_open n m Ma Mb x y _ Hpre Hx Hy Hva Hm ltac:(lia)) as Hopen.
    destruct (save_all_in_step (Objects.save_item Objects.save) er
                (fun kv => bool_decide (ha !! fst (snd kv) = Some (VStr (fst kv)))
                           && Objects.consistent ha (snd (snd kv)) = true)
                (fun kv => bool_decide (hb !! fst (snd kv) = Some (VStr (fst kv)))
                           && Objects.consistent hb (snd (snd kv)) = true) m d) with
      (lb := db) (Ma := Objects.memoize x Ma) (Mb := Objects.memoize y Mb)
      (ps := ps) (Ma' := Ma1) (Mb' := Mb') as [Herase Hpost]; try assumption.
    { rewrite Forall_forall in IH. apply Forall_forall.
      intros [k [ka v]] Hkv Hckv [k' [kb v']] Ma0 Mb0 [pk pv] Ma2 Mb2 Hckv' Hpre0.
      unfold Objects.save_item. simpl.
      destruct (Objects.save_str ka k Ma0) as [qk Ma3] eqn:Hka.
      destruct (Objects.save v Ma3) as [qv Ma4] eqn:Hsv.
      destruct (Objects.save_str kb k' Mb0) as [qk' Mb3] eqn:Hkb.
      destruct (Objects.save v' Mb3) as [qv' Mb4] eqn:Hsv'.
      intros [= -> -> <-] [= -> -> <-]. simpl in Hckv, Hckv'.
      apply andb_true_iff in Hckv as [Hck Hcv], Hckv' as [Hck' Hcv'].
      apply bool_decide_eq_true_1 in Hck.
      assert (vsize (Objects.erase v) <= m)%nat as Hvm.
      { apply (list_sum_elem _ (vsize (Objects.erase v))), list_elem_of_fmap.
        exists (er (k, (ka, v))). split; [reflexivity|].
        apply list_elem_of_fmap. eauto. }
      assert (1 <= vsize (Objects.erase v))%nat as Hpos
        by (destruct (Objects.erase v); simpl; lia).
      destruct (str_in_step m ka k (Objects.OStr kb k') Ma0 Mb0 pk Ma3 Mb3
                  ltac:(lia) Hck ltac:(simpl; exact Hck') Hpre0 Hka Hkb)
        as [Hkk Hpost1].
      injection Hkk as <-.
      pose proof (memo_pre_post _ _ _ _ _ _ _ Hpre0 Hpost1) as Hpre1.
      destruct (IH (k, (ka, v)) Hkv m v' Ma3 Mb3 pv Ma4 Mb4 Hvm Hcv Hcv' Hpre1 Hsv Hsv')
        as [Hvv Hpost2].
      split; [unfold er; simpl; f_equal; exact Hvv|].
      eapply memo_post_trans; [apply Hpre0|exact Hpost1|exact Hpost2]. }
    assert (Objects.erase (Objects.ODict x d) = Objects.erase (Objects.ODict y db))
      as Heq by (simpl; f_equal; exact Herase).
    split; [exact Heq|].
    eapply memo_post_trans; [apply Hpre| |eapply memo_post_le; [|exact Hpost]; lia].
    apply (memo_post_memoize ha hb n Ma Mb x y _ Hpre Hx Hy Hva); [|exact Hn].
    rewrite Heq. exact Hvb.
  - (* an instance: its values, then memoized *)
    simpl in Hsa. destruct (Ma !! x) as [i|] eqn:Hx.
    { injection Hsa as <- <-.
      exact (hit_in_step n _ b x i Ma Mb Mb' Hn Hca Hcb Hpre eq_refl Hx Hsb). }
    destruct (Objects.save_all Objects.save vs Ma) as [ps Ma1] eqn:Hl.
    injection Hsa as <- <-.
    apply save_newobj in Hsb as (y & lb & -> & Hy & Mb1 & Hlb & ->).
    pose proof (consistent_addr _ _ _ Hca eq_refl) as Hva.
    pose proof (consistent_addr _ _ _ Hcb eq_refl) as Hvb.
    simpl in Hca, Hcb. apply andb_true_iff in Hca as [_ Hca], Hcb as [_ Hcb].
    apply forallb_Forall in Hca, Hcb.
    set (m := list_sum (map vsize (map Objects.erase vs))).
    assert (m < vsize (Objects.erase (Objects.OEnt x t vs)))%nat as Hm
      by (simpl; unfold m; lia).
    destruct (save_all_in_step Objects.save Objects.erase
                (fun c => Objects.consistent ha c = true)
                (fun c => Objects.consistent hb c = true) m vs) with
      (lb := lb) (Ma := Ma) (Mb := Mb)
      (ps := ps) (Ma' := Ma1) (Mb' := Mb1) as [Herase Hpost]; try assumption.
    { rewrite Forall_forall in IH. apply Forall_forall. intros c Hc Hcc c' ? ? ? ? ?.
      intros Hcc'. apply (IH c Hc); [|assumption|assumption].
      apply list_sum_elem, list_elem_of_fmap. exists (Objects.erase c).
      split; [reflexivity|]. apply list_elem_of_fmap. eauto. }
    { eapply memo_pre_le; [|exact Hpre]. lia. }
    assert (Objects.erase (Objects.OEnt x t vs) = Objects.erase (Objects.OEnt y t lb))
      as Heq by (simpl; f_equal; exact Herase).
    split; [exact Heq|].
    rewrite Heq in Hva.
    pose proof Hpost as (_ & _ & _ & Hea & Heb & _).
    pose proof (memo_ext_fresh _ _ _ _ _ _ Hea Hx Hva ltac:(rewrite <- Heq; exact Hm)) as Hx1.
    pose proof (memo_ext_fresh _ _ _ _ _ _ Heb Hy Hvb ltac:(rewrite <- Heq; exact Hm)) as Hy1.
    apply (memo_post_le ha hb m n) in Hpost; [|lia].
    eapply memo_post_trans; [apply Hpre|exact Hpost|].
    apply (memo_post_memoize ha hb n Ma1 Mb1 x y _
             (memo_pre_post _ _ _ _ _ _ _ Hpre Hpost) Hx1 Hy1 Hva Hvb).
    rewrite <- Heq. exact Hn.
Qed.
End save_in_step.

Lemma memo_pre_empty ha hb n : memo_pre ha hb n ∅ ∅.
Proof.
  assert (memo_ok ∅) as Hok.
  { split; [intros x i|intros x x' i]; rewrite lookup_empty; discriminate. }
  split; [reflexivity|]. split; [exact Hok|]. split; [exact Hok|].
  intros x y i. rewrite lookup_empty. discriminate.
Qed.

(** Objects pickled alike have the same content. *)
Lemma memo_dumps_content : @Objects.loads_content memo_pickle.
Proof.
  intros h a b Hca Hcb Heq. simpl in Heq. apply opcodes_tree_inj in Heq.
  unfold Objects.memo_dumps in Heq.
  destruct (Objects.save a ∅) as [p Ma'] eqn:Hsa.
  destruct (Objects.save b ∅) as [q Mb'] eqn:Hsb. simpl in Heq. subst q.
  exact (proj1 (save_in_step h h a (vsize (Objects.erase a)) b ∅ ∅ p Ma' Mb'
                  ltac:(lia) Hca Hcb (memo_pre_empty h h _) Hsa Hsb)).
Qed.

(** ** Objects built alike are pickled alike *)

Section rebuild.
Variable f : Objects.addr -> Objects.addr.
Hypothesis f_inj : Inj (=) (=) f.

Lemma size_kmap (M : gmap Objects.addr nat) :
  size (kmap f M : gmap Objects.addr nat) = size M.
Proof.
  induction M as [|x i M Hx IH] using map_ind.
  - rewrite kmap_empty. reflexivity.
  - rewrite kmap_insert by exact f_inj.
    rewrite !map_size_insert_None; [rewrite IH; reflexivity|exact Hx|].
    rewrite lookup_kmap by exact f_inj. exact Hx.
Qed.

Lemma memoize_kmap a (M : gmap Objects.addr nat) :
  Objects.memoize (f a) (kmap f M) = kmap f (Objects.memoize a M).
Proof.
  unfold Objects.memoize. rewrite kmap_insert by exact f_inj.
  rewrite size_kmap. reflexivity.
Qed.

Lemma save_all_rebuild {A B} (g : A -> A)
    (sv : A -> gmap Objects.addr nat -> B * gmap Objects.addr nat) l :
  Forall (fun x => forall M, sv (g x) (kmap f M)
                             = (fst (sv x M), kmap f (snd (sv x M)))) l ->
  forall M, Objects.save_all sv (map g l) (kmap f M)
            = (fst (Objects.save_all sv l M), kmap f (snd (Objects.save_all sv l M))).
Proof.
  induction 1 as [|x r Hx _ IH]; intros M; simpl; [reflexivity|].
  rewrite Hx. destruct (sv x M) as [p M1]. simpl. rewrite IH.
  destruct (Objects.save_all sv r M1) as [ps M2]. reflexivity.
Qed.

Lemma save_str_rebuild a s (M : gmap Objects.addr nat) :
  Objects.save_str (f a) s (kmap f M)
  = (fst (Objects.save_str a s M), kmap f (snd (Objects.save_str a s M))).
Proof.
  unfold Objects.save_str. rewrite lookup_kmap by exact f_inj.
  destruct (M !! a); simpl; [reflexivity|]. rewrite memoize_kmap. reflexivity.
Qed.

(** The pickler writes for the second object what it writes for the first. *)
Lemma save_rebuild o :
  forall M, Objects.save (Objects.rebuild f o) (kmap f M)
            = (fst (Objects.save o M), kmap f (snd (Objects.save o M))).
Proof.
  induction o as [| |a s|a l IH|a l IH|a d IH|a t vs IH] using Objects.obj_ind;
    intros M; simpl; try reflexivity.
  - apply save_str_rebuild.
  - rewrite lookup_kmap by exact f_inj. destruct (M !! a); [reflexivity|].
    rewrite memoize_kmap, (save_all_rebuild _ _ l IH).
    destruct (Objects.save_all Objects.save l _). reflexivity.
  - rewrite lookup_kmap by exact f_inj. destruct (M !! a); [reflexivity|].
    destruct l as [|x r]; [reflexivity|].
    change (Objects.rebuild f x :: map (Objects.rebuild f) r)
      with (map (Objects.rebuild f) (x :: r)).
    rewrite (save_all_rebuild _ _ (x :: r) IH).
    destruct (Objects.save_all Objects.save (x :: r) M) as [ps M1]. simpl.
    rewrite memoize_kmap. reflexivity.
  - rewrite lookup_kmap by exact f_inj. destruct (M !! a); [reflexivity|].
    rewrite memoize_kmap.
    rewrite (save_all_rebuild
               (fun kv => (fst kv, (f (fst (snd kv)), Objects.rebuild f (snd (snd kv)))))
               (Objects.save_item Objects.save) d).
    + destruct (Objects.save_all _ d _). reflexivity.
    + eapply Forall_impl; [exact IH|]. intros [k [ka v]] Hv M0.
      unfold Objects.save_item. simpl in *.
      rewrite save_str_rebuild. destruct (Objects.save_str ka k M0) as [pk M1].
      simpl. rewrite Hv. destruct (Objects.save v M1). reflexivity.
  - rewrite lookup_kmap by exact f_inj. destruct (M !! a); [reflexivity|].
    rewrite (save_all_rebuild _ _ vs IH).
    destruct (Objects.save_all Objects.save vs M) as [ps M1]. simpl.
    rewrite memoize_kmap. reflexivity.
Qed.

Lemma memo_dumps_rebuild o :
  Objects.memo_dumps (Objects.rebuild f o) = Objects.memo_dumps o.
Proof.
  unfold Objects.memo_dumps.
  rewrite <- (kmap_empty f) at 1. rewrite save_rebuild. reflexivity.
Qed.

Lemma erase_rebuild o : Objects.erase (Objects.rebuild f o) = Objects.erase o.
Proof.
  induction o as [| |a s|a l IH|a l IH|a d IH|a t vs IH] using Objects.obj_ind;
    simpl; try reflexivity.
  - f_equal. rewrite map_map. apply map_ext_Forall. exact IH.
  - f_equal. rewrite map_map. apply map_ext_Forall. exact IH.
  - f_equal. rewrite map_map. apply map_ext_Forall.
    eapply Forall_impl; [exact IH|]. intros [k [ka v]] Hv. simpl in *.
    rewrite Hv. reflexivity.
  - f_equal. rewrite map_map. apply map_ext_Forall. exact IH.
Qed.
End rebuild.

(** Two instances built alike are pickled to the same bytes. *)
Lemma rebuilt_is_pickled_alike (f : Objects.addr -> Objects.addr) o :
  Inj (=) (=) f ->
  @Objects.dumps memo_pickle (Objects.rebuild f o) = @Objects.dumps memo_pickle o.
Proof. intros Hf. simpl. rewrite (memo_dumps_rebuild f Hf). reflexivity. Qed.



(** The encoding of the document above. *)
Example encode_document_with_shared_goal :
  let text := Objects.OEnt 20 TText [Objects.OStr 21 "x"] in
  let goal (a : nat) :=
    Objects.OEnt a TGoal
      [Objects.OStr (a + 1) "g"; Objects.OStr (a + 2) "True";
       Objects.OList (a + 3)
         [Objects.OEnt (a + 4) THypothesis
            [Objects.OList (a + 5) [Objects.OStr (a + 6) "H"];
             Objects.OStr (a + 2) "True"; Objects.OStr (a + 2) "True"]]] in
  @Objects.DeduplicatingSerializer.encode memo_pickle
    (Objects.OList 100
       [Objects.OInt 0; text; goal 1%nat; Objects.OStr 30 "m"; Objects.OList 31 [text];
        goal 41%nat; Objects.OInt 1])
  = Ok (VList
          [VInt 0;
           VDict [("&", VStr "text"); ("_", VList [VStr "x"])];
           VDict [("&", VStr "goal");
                  ("_", VList [VStr "g"; VStr "True";
                               VList [VDict [("&", VStr "hypothesis");
                                             ("_", VList [VList [VStr "H"];
                                                          VStr "True"; VStr "True"])]]])];
           VStr "m";
           VList [VDict [("*", VInt 0)]];
           VDict [("*", VInt 2)];
           VInt 1]).
Proof. reflexivity. Qed.

(** * The cache *)

Lemma normalize_strings (l : list string) :
  Cache.normalize (VList (VStr <$> l)) = VList (VStr <$> l).
Proof.
  simpl. f_equal. induction l as [|s r IH]; [reflexivity|].
  change (VStr s :: map Cache.normalize (VStr <$> r) = VStr s :: (VStr <$> r)).
  f_equal. exact IH.
Qed.

Lemma py_eq_strings (a b : list string) :
  py_eq (VList (VStr <$> a)) (VList (VStr <$> b)) = true <-> a = b.
Proof.
  simpl. revert b. induction a as [|x r IH]; intros [|y r']; simpl;
    try (split; [discriminate|discriminate]); [tauto|].
  rewrite andb_true_iff, IH, String.eqb_eq. split.
  - intros [-> ->]. reflexivity.
  - intros [= -> ->]. auto.
Qed.

Section cache_lemmas.
Context `{Core}.

Lemma wf_normalize v : wf v = true -> wf (Cache.normalize v) = true.
Proof.
  induction v as [| | |l IH|l IH|d IH|t vs IH] using value_ind; simpl; intros Hwf;
    try reflexivity.
  - apply forallb_Forall in Hwf. apply forallb_Forall, Forall_map.
    eapply Forall_impl2; [exact IH|exact Hwf|]. auto.
  - apply forallb_Forall in Hwf. apply forallb_Forall, Forall_map.
    eapply Forall_impl2; [exact IH|exact Hwf|]. auto.
  - apply andb_true_iff in Hwf as [Hnd Hwf]. apply forallb_Forall in Hwf.
    apply andb_true_iff. split.
    + rewrite keys_map_items by reflexivity. exact Hnd.
    + apply forallb_Forall, Forall_map.
      eapply Forall_impl2; [exact IH|exact Hwf|]. auto.
  - apply andb_true_iff in Hwf as [_ Hwf]. apply forallb_Forall in Hwf.
    apply forallb_Forall, Forall_map.
    eapply Forall_impl2; [exact IH|exact Hwf|]. auto.
Qed.

Lemma get_of_empty file chunks metadata :
  Cache.get (Cache.init VNone file) chunks metadata = Ok VNone.
Proof. reflexivity. Qed.

Lemma get_of_populated self d config chunks metadata :
  Cache.data self = VDict d -> dict_get "config" d = Some config ->
  Cache.get self chunks metadata
  = if py_eq config (Cache.normalize metadata)
       && py_eq (default VNone (dict_get "chunks" d)) (Cache.normalize chunks)
    then PlainSerializer.decode (default VNone (dict_get "annotated" d))
    else Ok VNone.
Proof.
  intros Hdata Hconfig. unfold Cache.get, Cache._validate.
  rewrite Hdata. simpl. rewrite Hconfig. simpl.
  unfold validate_detailed, validate_contents.
  destruct (py_eq config (Cache.normalize metadata)); simpl; [|reflexivity].
  destruct (py_eq _ (Cache.normalize chunks)); reflexivity.
Qed.
End cache_lemmas.

(** C2: [Cache.get] on an empty entry is a miss; on a populated entry it
    returns the decoded stored annotation when the stored configuration
    equals the normalized incoming one and the stored chunks equal the
    normalized incoming ones, and is a miss ([None], no exception) as soon
    as one of the two comparisons fails -- in particular when the incoming
    chunk strings differ from the stored ones anywhere. *)
Theorem cache_get_exact_match `{Core} (self : Cache.t) (chunks metadata : value) :
  (Cache.data self = VNone -> Cache.get self chunks metadata = Ok VNone) /\
  (forall d config,
     Cache.data self = VDict d -> dict_get "config" d = Some config ->
     let stored_chunks := default VNone (dict_get "chunks" d) in
     let annotated := default VNone (dict_get "annotated" d) in
     (py_eq config (Cache.normalize metadata) = true ->
      py_eq stored_chunks (Cache.normalize chunks) = true ->
      Cache.get self chunks metadata = PlainSerializer.decode annotated) /\
     (py_eq config (Cache.normalize metadata) = false
      \/ py_eq stored_chunks (Cache.normalize chunks) = false ->
      Cache.get self chunks metadata = Ok VNone)) /\
  (forall d config (stored incoming : list string),
     Cache.data self = VDict d -> dict_get "config" d = Some config ->
     dict_get "chunks" d = Some (VList (VStr <$> stored)) ->
     chunks = VList (VStr <$> incoming) -> stored <> incoming ->
     Cache.get self chunks metadata = Ok VNone).
Proof.
  split; [|split].
  - intros Hdata. unfold Cache.get, Cache._validate. rewrite Hdata. reflexivity.
  - intros d config Hdata Hconfig stored_chunks annotated. split.
    + intros Hc Hch. rewrite (get_of_populated self d config) by assumption.
      fold stored_chunks. rewrite Hc, Hch. reflexivity.
    + intros Hne. rewrite (get_of_populated self d config) by assumption.
      fold stored_chunks. destruct Hne as [-> | ->]; [reflexivity|].
      rewrite andb_false_r. reflexivity.
  - intros d config stored incoming Hdata Hconfig Hchunks -> Hne.
    rewrite (get_of_populated self d config) by assumption.
    rewrite Hchunks, normalize_strings. simpl default.
    destruct (py_eq (VList (VStr <$> stored)) (VList (VStr <$> incoming))) eqn:Heq.
    + apply py_eq_strings in Heq. contradiction.
    + rewrite andb_false_r. reflexivity.
Qed.

Lemma cache_get_exact_match_witness :
  let typo := VList [VStr "Lemma foo: True."; VStr "Proof. trivial. Qed"] in
  let other_config := VDict [("args", VList [VStr "-Q"; VStr "dir,lib"])] in
  @Cache.get sample_core (Cache.init VNone (VStr "doc.v.cache")) sample_chunks sample_config
    = Ok VNone
  /\ @Cache.get sample_core sample_entry sample_chunks sample_config = Ok sample_annotated
  /\ @Cache.get sample_core sample_entry typo sample_config = Ok VNone
  /\ @Cache.get sample_core sample_entry sample_chunks other_config = Ok VNone.
Proof.
  intros typo other_config. split; [|split; [|split]].
  - apply (@cache_get_exact_match sample_core). reflexivity.
  - destruct (@cache_get_exact_match sample_core sample_entry sample_chunks sample_config)
      as (_ & Hpopulated & _).
    destruct (Hpopulated _ _ eq_refl eq_refl) as [Hhit _].
    rewrite Hhit by reflexivity. reflexivity.
  - destruct (@cache_get_exact_match sample_core sample_entry typo sample_config)
      as (_ & _ & Hchunks).
    apply (Hchunks _ _ sample_lines ["Lemma foo: True."; "Proof. trivial. Qed"]
             eq_refl eq_refl eq_refl eq_refl).
    discriminate.
  - destruct (@cache_get_exact_match sample_core sample_entry sample_chunks other_config)
      as (_ & Hpopulated & _).
    destruct (Hpopulated _ _ eq_refl eq_refl) as [_ Hmiss].
    apply Hmiss. left. reflexivity.
Defined.

(** C9 does not hold of the code: the [generator] property of an entry
    that was never populated raises [AttributeError] (its [data] is
    [None], which has no [get]) instead of returning the placeholder
    pair. *)
Theorem generator_of_empty_entry_raises (cache_file : value) :
  Cache.generator (Cache.init VNone cache_file) = Raise AttributeError.
Proof. reflexivity. Qed.

(** On a populated entry the property does what C9 says: the stored pair,
    or the placeholder when the entry has no generator. *)
Lemma generator_of_populated_entry (self : Cache.t) (d : dict) :
  Cache.data self = VDict d ->
  (dict_get "generator" d = None ->
   Cache.generator self = Ok (VTuple [VStr "Coq+SerAPI"; VStr "??"])) /\
  (forall name version,
     dict_get "generator" d = Some (VList [name; version]) ->
     Cache.generator self = Ok (VTuple [name; version])).
Proof.
  intros Hdata. unfold Cache.generator. rewrite Hdata. simpl. split.
  - intros ->. reflexivity.
  - intros name version ->. reflexivity.
Qed.

Lemma update_on_hit `{Core} `{Prover} self chunks config calls annotated :
  Cache.get self chunks config = Ok annotated -> annotated <> VNone ->
  Cache.update self chunks config calls = (Ok annotated, self, calls).
Proof.
  intros Hget Hsome. unfold Cache.update. rewrite Hget. destruct annotated; congruence.
Qed.

(** C3: [Cache.update] makes no call to the prover's [annotate] on a hit
    and returns the decoded stored annotation; on a miss it makes exactly
    one call, whatever happens next, and when the call and [put] succeed it
    stores the result and returns it.  In particular, starting from an
    empty entry, with chunks that are strings and a prover that returns a
    serializable annotation: the first update calls the prover once and
    stores the result, a second update with the same chunks and
    configuration returns it without calling the prover, and a third update
    with one more, empty, chunk calls the prover again. *)
Theorem update_calls_prover_only_on_miss `{Core} `{Prover} :
  (forall self chunks config calls annotated,
     Cache.get self chunks config = Ok annotated -> annotated <> VNone ->
     Cache.update self chunks config calls = (Ok annotated, self, calls)) /\
  (forall self chunks kwargs calls,
     Cache.get self chunks (VDict kwargs) = Ok VNone ->
     snd (Cache.update self chunks (VDict kwargs) calls) = calls ++ [(chunks, kwargs)]) /\
  (forall self chunks kwargs calls result info self',
     Cache.get self chunks (VDict kwargs) = Ok VNone ->
     annotate chunks kwargs = Ok result -> version_info = Ok info ->
     Cache.put self chunks (VDict kwargs) result info = Ok self' ->
     Cache.update self chunks (VDict kwargs) calls
     = (Ok result, self', calls ++ [(chunks, kwargs)])) /\
  (forall file (lines : list string) kwargs result info,
     let chunks := VList (VStr <$> lines) in
     let longer := VList (VStr <$> (lines ++ [""])) in
     let config := VDict kwargs in
     wf config = true ->
     annotate chunks kwargs = Ok result -> version_info = Ok info ->
     result <> VNone ->
     wf result = true -> serializable result = true -> avoids ["_type"] result = true ->
     exists entry,
       Cache.update (Cache.init VNone file) chunks config []
       = (Ok result, entry, [(chunks, kwargs)])
       /\ Cache.update entry chunks config [(chunks, kwargs)]
          = (Ok result, entry, [(chunks, kwargs)])
       /\ snd (Cache.update entry longer config [(chunks, kwargs)])
          = [(chunks, kwargs); (longer, kwargs)]).
Proof.
  assert (forall self chunks kwargs calls,
            Cache.get self chunks (VDict kwargs) = Ok VNone ->
            snd (Cache.update self chunks (VDict kwargs) calls)
            = calls ++ [(chunks, kwargs)]) as Hmiss.
  { intros self chunks kwargs calls Hget. unfold Cache.update. rewrite Hget.
    destruct (annotate chunks kwargs) as [result|]; [|reflexivity].
    destruct version_info as [info|]; [|reflexivity].
    destruct (Cache.put self chunks (VDict kwargs) result info); reflexivity. }
  split; [|split; [exact Hmiss|split]].
  - intros self chunks config calls annotated Hget Hsome.
    apply update_on_hit; assumption.
  - intros self chunks kwargs calls result info self' Hget Hann Hinfo Hput.
    unfold Cache.update. rewrite Hget, Hann, Hinfo, Hput. reflexivity.
  - intros file lines kwargs result info chunks longer config
      Hwf_config Hann Hinfo Hsome Hwf Hser Hav.
    subst chunks longer config.
    destruct (plain_roundtrip result Hwf Hser Hav) as (w & Henc & Hdec).
    set (stored := [("generator", Cache.normalize info);
                    ("config", Cache.normalize (VDict kwargs));
                    ("chunks", VList (VStr <$> lines)); ("annotated", w)]).
    set (entry := Cache.Build (VDict stored) file).
    assert (Cache.put (Cache.init VNone file) (VList (VStr <$> lines)) (VDict kwargs)
                      result info = Ok entry) as Hput.
    { unfold Cache.put. simpl. rewrite Henc. reflexivity. }
    assert (Cache.get entry (VList (VStr <$> lines)) (VDict kwargs) = Ok result) as Hhit.
    { rewrite (get_of_populated entry stored (Cache.normalize (VDict kwargs)))
        by reflexivity.
      simpl default. rewrite normalize_strings.
      rewrite (py_eq_refl _ (wf_normalize _ Hwf_config)).
      rewrite (proj2 (py_eq_strings lines lines) eq_refl). exact Hdec. }
    assert (Cache.get entry (VList (VStr <$> lines ++ [""])) (VDict kwargs) = Ok VNone)
      as Hlonger.
    { rewrite (get_of_populated entry stored (Cache.normalize (VDict kwargs)))
        by reflexivity.
      simpl default. rewrite normalize_strings.
      destruct (py_eq (VList (VStr <$> lines)) (VList (VStr <$> lines ++ [""]))) eqn:Heq.
      - apply py_eq_strings in Heq. apply (f_equal length) in Heq.
        rewrite length_app in Heq. simpl in Heq. lia.
      - rewrite andb_false_r. reflexivity. }
    exists entry. split; [|split].
    + unfold Cache.update. rewrite get_of_empty, Hann, Hinfo, Hput. reflexivity.
    + unfold Cache.update. rewrite Hhit. destruct result; congruence.
    + rewrite (Hmiss entry _ kwargs _ Hlonger). reflexivity.
Qed.

Lemma update_calls_prover_only_on_miss_witness :
  let kwargs := [("args", VList [])] in
  let longer := VList (VStr <$> (sample_lines ++ [""])) in
  exists entry,
    @Cache.update sample_core sample_prover (Cache.init VNone (VStr "doc.v.cache"))
                  sample_chunks (VDict kwargs) []
    = (Ok sample_annotated, entry, [(sample_chunks, kwargs)])
    /\ @Cache.update sample_core sample_prover entry sample_chunks (VDict kwargs)
                     [(sample_chunks, kwargs)]
       = (Ok sample_annotated, entry, [(sample_chunks, kwargs)])
    /\ snd (@Cache.update sample_core sample_prover entry longer (VDict kwargs)
                          [(sample_chunks, kwargs)])
       = [(sample_chunks, kwargs); (longer, kwargs)].
Proof.
  intros kwargs longer.
  destruct (@update_calls_prover_only_on_miss sample_core sample_prover)
    as (_ & _ & _ & Hscenario).
  apply (Hscenario (VStr "doc.v.cache") sample_lines kwargs sample_annotated
           (VTuple [VStr "Coq+SerAPI"; VStr "8.13.2"]));
    try reflexivity.
  discriminate.
Defined.

(** * The cache file set *)

Lemma dict_set_same {A} k (x : A) d : dict_get k d = Some x -> dict_set k x d = d.
Proof.
  induction d as [|[k' y] r IH]; simpl; [discriminate|].
  destruct (String.eqb_spec k k') as [->|Hne].
  - intros [= ->]. reflexivity.
  - intros Hr. rewrite IH by exact Hr. reflexivity.
Qed.

Lemma foldl_dict_set {A B} (g : A -> B) (l : list (string * A)) :
  NoDup (keys l) ->
  forall acc, (forall k, k ∈ keys l -> k ∉ keys acc) ->
    foldl (fun (acc : list (string * B)) (e : string * A) =>
             dict_set (fst e) (g (snd e)) acc) acc l
    = acc ++ map (fun e => (fst e, g (snd e))) l.
Proof.
  induction l as [|[k x] r IH]; simpl; intros Hnd acc Hfresh.
  - rewrite app_nil_r. reflexivity.
  - apply NoDup_cons in Hnd as [Hk Hnd].
    rewrite dict_set_fresh by (apply Hfresh, list_elem_of_here).
    rewrite IH; [rewrite <- app_assoc; reflexivity|exact Hnd|].
    intros k' Hk'. unfold keys. rewrite map_app. simpl.
    rewrite not_elem_of_app, not_elem_of_cons. split; [|split].
    + apply Hfresh, list_elem_of_further, Hk'.
    + intros ->. exact (Hk Hk').
    + apply not_elem_of_nil.
Qed.

Lemma py_eq_metadata m :
  py_eq m FileCacheSet.METADATA = true -> m = FileCacheSet.METADATA.
Proof.
  destruct m as [| | | | |d|]; simpl; try discriminate.
  destruct d as [|[k x] [|? ?]]; simpl; try discriminate.
  destruct (String.eqb_spec k "cache_version") as [->|]; simpl; [|discriminate].
  destruct x; simpl; try discriminate.
  rewrite !andb_true_r. intros Hs. apply String.eqb_eq in Hs. subst. reflexivity.
Qed.

Section file_set_lemmas.
Context `{Core}.

Lemma py_eq_sorted_items (entries : dict) :
  wf (VDict entries) = true ->
  py_eq (VDict (sorted_items entries)) (VDict entries) = true.
Proof.
  simpl. intros Hwf. apply andb_true_iff in Hwf as [Hnd Hwf].
  apply bool_decide_eq_true in Hnd. apply forallb_Forall in Hwf.
  rewrite sorted_items_length, Nat.eqb_refl. simpl.
  apply items_within_Forall. rewrite sorted_items_perm.
  rewrite Forall_forall in Hwf |- *. intros [k x] Hkx. simpl. exists x. split.
  - apply dict_get_unique; assumption.
  - apply py_eq_refl. exact (Hwf _ Hkx).
Qed.

Lemma wf_dict_get (d : dict) k x :
  wf (VDict d) = true -> dict_get k d = Some x -> wf x = true.
Proof.
  simpl. intros Hwf Hk. apply andb_true_iff in Hwf as [_ Hwf].
  apply forallb_Forall in Hwf. rewrite Forall_forall in Hwf.
  exact (Hwf _ (dict_get_elem _ _ _ Hk)).
Qed.

(** Opening a file set on a cache file of the current version. *)
Lemma init_on_current_file (w : world) rel_file cache_compression wanted d entries :
  wanted = match cache_compression with
           | Some c => if String.eqb c "" then "none" else c
           | None => "none"
           end ->
  FileCacheSet._read (World (files w) (trace w ++ [Makedirs])) = (Some wanted, VDict d) ->
  wf (VDict d) = true -> length d = 2%nat ->
  dict_get "metadata" d = Some FileCacheSet.METADATA ->
  dict_get "caches" d = Some (VDict entries) ->
  exists self,
    FileCacheSet.init rel_file cache_compression w
    = (Ok self, World (files w) (trace w ++ [Makedirs]))
    /\ FileCacheSet.js self = VDict d
    /\ FileCacheSet.ondisk_compression self = Some (FileCacheSet.wanted_compression self)
    /\ FileCacheSet.caches self
       = map (fun e => (fst e, Cache.init (snd e) (VStr rel_file))) (sorted_items entries)
    /\ py_eq (FileCacheSet.snapshot self) (FileCacheSet.js self) = true.
Proof.
  intros Hwanted Hread Hwf Hlen Hmeta Hcaches.
  assert (dict_has wanted FileCacheSet.KNOWN_COMPRESSIONS = true) as Hknown.
  { unfold FileCacheSet._read in Hread.
    destruct (omap _ FileCacheSet.KNOWN_COMPRESSIONS) as [|[c doc] rest] eqn:Hfound;
      [discriminate|].
    injection Hread as -> _.
    assert ((wanted, doc) ∈ (wanted, doc) :: rest) as Hin by apply list_elem_of_here.
    rewrite <- Hfound in Hin. apply list_elem_of_omap in Hin as ([c [m ext]] & Hin & Hsome).
    simpl in Hsome. destruct (files _ !! ext); simpl in Hsome; [|discriminate].
    injection Hsome as -> _.
    simpl in Hin. repeat (apply elem_of_cons in Hin as [[= -> _ _]|Hin]; [reflexivity|]).
    apply elem_of_nil in Hin. destruct Hin. }
  assert (wf (VDict entries) = true) as Hwf_entries
    by exact (wf_dict_get d "caches" _ Hwf Hcaches).
  assert (NoDup (keys entries)) as Hnd.
  { simpl in Hwf_entries. apply andb_true_iff in Hwf_entries as [Hnd _].
    apply bool_decide_eq_true in Hnd. exact Hnd. }
  set (loaded := map (fun e : string * value => (fst e, Cache.init (snd e) (VStr rel_file)))
                     (sorted_items entries)).
  exists (FileCacheSet.Build rel_file wanted (Some wanted) (VDict d) loaded).
  split; [|split; [reflexivity|split; [reflexivity|split; [reflexivity|]]]].
  - unfold FileCacheSet.init. rewrite <- Hwanted, Hknown. simpl negb. cbv iota.
    rewrite Hread. unfold FileCacheSet._validate.
    assert (truthy (VDict d) = true) as -> by (destruct d; [discriminate|reflexivity]).
    simpl. rewrite Hmeta, Hcaches. simpl.
    rewrite (foldl_dict_set (fun data => Cache.init data (VStr rel_file)));
      [reflexivity|apply sorted_items_nodup, Hnd|].
    intros k _. apply not_elem_of_nil.
  - unfold FileCacheSet.snapshot. simpl FileCacheSet.caches. simpl FileCacheSet.js.
    unfold loaded. rewrite sorted_items_map by reflexivity. rewrite sorted_items_idemp.
    rewrite map_map. simpl. rewrite map_ext with (g := fun e => e) by (intros []; reflexivity).
    rewrite map_id.
    change (py_eq (VDict [("metadata", FileCacheSet.METADATA);
                          ("caches", VDict (sorted_items entries))]) (VDict d) = true).
    cbn [py_eq]. rewrite Hlen. cbn [length Nat.eqb andb items_within].
    rewrite Hmeta, Hcaches. rewrite py_eq_sorted_items by exact Hwf_entries.
    reflexivity.
Qed.
End file_set_lemmas.

Lemma delete_old_caches_trace (w : world) :
  exists unlinked,
    trace (FileCacheSet._delete_old_caches w) = trace w ++ unlinked
    /\ Forall (fun ev => exists ext, ev = Unlink ext) unlinked.
Proof.
  unfold FileCacheSet._delete_old_caches.
  generalize FileCacheSet.KNOWN_COMPRESSIONS. intros l. revert w.
  induction l as [|[c [m ext]] r IH]; intros w; simpl.
  - exists []. rewrite app_nil_r. split; [reflexivity|constructor].
  - destruct (files w !! ext) as [?|].
    + destruct (IH (World (delete ext (files w)) (trace w ++ [Unlink ext])))
        as (unlinked & Htrace & Hunlinked).
      exists (Unlink ext :: unlinked). rewrite Htrace. simpl.
      rewrite <- app_assoc. split; [reflexivity|]. constructor; eauto.
    + apply IH.
Qed.

Lemma exit_unchanged (self : FileCacheSet.t) (w : world) :
  py_eq (FileCacheSet.snapshot self) (FileCacheSet.js self) = true ->
  FileCacheSet.ondisk_compression self = Some (FileCacheSet.wanted_compression self) ->
  FileCacheSet.exit self w = (self, w).
Proof.
  intros Hsame Hcompression.
  unfold FileCacheSet.exit, FileCacheSet._write, FileCacheSet._check_recompression.
  rewrite Hsame, bool_decide_eq_true_2 by exact Hcompression. reflexivity.
Qed.

Lemma dict_get_loaded {A B} (g : A -> B) (entries : list (string * A)) lang :
  NoDup (keys entries) ->
  dict_get lang (map (fun e => (fst e, g (snd e))) (sorted_items entries))
  = g <$> dict_get lang entries.
Proof.
  intros Hnd. destruct (dict_get lang entries) as [x|] eqn:Hlang; simpl.
  - apply dict_get_unique.
    + rewrite keys_map_items by reflexivity. apply sorted_items_nodup, Hnd.
    + apply (list_elem_of_fmap_2 (fun e => (fst e, g (snd e))) _ (lang, x)).
      rewrite sorted_items_perm. apply dict_get_elem, Hlang.
  - apply dict_get_None. rewrite keys_map_items by reflexivity.
    rewrite sorted_items_keys_perm. apply dict_get_None, Hlang.
Qed.

(** C5: closing a file set leaves the disk as it is when the recomputed
    snapshot equals the loaded content and the on-disk compression is the
    requested one; otherwise it writes the snapshot under the requested
    compression, after unlinking the existing variants.  In particular,
    opening a set on a cache file of the current version, stored under the
    requested compression, and closing it at once writes nothing. *)
Theorem close_writes_only_on_change `{Core} :
  (forall self w,
     py_eq (FileCacheSet.snapshot self) (FileCacheSet.js self) = true ->
     FileCacheSet.ondisk_compression self = Some (FileCacheSet.wanted_compression self) ->
     FileCacheSet.exit self w = (self, w)) /\
  (forall self w,
     py_eq (FileCacheSet.snapshot self) (FileCacheSet.js self) = false
     \/ FileCacheSet.ondisk_compression self <> Some (FileCacheSet.wanted_compression self) ->
     let ext := FileCacheSet.extension (FileCacheSet.wanted_compression self) in
     let doc := FileCacheSet.snapshot self in
     exists unlinked,
       trace (snd (FileCacheSet.exit self w)) = trace w ++ unlinked ++ [WriteFile ext doc]
       /\ Forall (fun ev => exists ext, ev = Unlink ext) unlinked
       /\ files (snd (FileCacheSet.exit self w)) !! ext
          = Some (FileCacheSet.json_document doc)) /\
  (forall (w : world) rel_file cache_compression wanted d metadata entries,
     wanted = match cache_compression with
              | Some c => if String.eqb c "" then "none" else c
              | None => "none"
              end ->
     FileCacheSet._read (World (files w) (trace w ++ [Makedirs])) = (Some wanted, VDict d) ->
     wf (VDict d) = true -> length d = 2%nat ->
     dict_get "metadata" d = Some metadata ->
     py_eq metadata FileCacheSet.METADATA = true ->
     dict_get "caches" d = Some (VDict entries) ->
     exists self,
       let opened := World (files w) (trace w ++ [Makedirs]) in
       FileCacheSet.init rel_file cache_compression w = (Ok self, opened)
       /\ FileCacheSet.exit self opened = (self, opened)).
Proof.
  split; [exact exit_unchanged|split].
  - intros self w Hchange ext doc.
    assert (negb (py_eq doc (FileCacheSet.js self))
            || FileCacheSet._check_recompression self = true) as Hwrite.
    { unfold FileCacheSet._check_recompression. destruct Hchange as [Hne|Hne].
      - fold doc in Hne. rewrite Hne. reflexivity.
      - rewrite (bool_decide_eq_false_2 _ Hne). apply orb_true_r. }
    unfold FileCacheSet.exit, FileCacheSet._write. fold doc. rewrite Hwrite.
    unfold FileCacheSet._force_write. fold ext. simpl.
    destruct (delete_old_caches_trace w) as (unlinked & Htrace & Hunlinked).
    exists unlinked. rewrite Htrace, <- app_assoc. split; [reflexivity|].
    split; [exact Hunlinked|]. apply lookup_insert_eq.
  - intros w rel_file cache_compression wanted d metadata entries
      Hwanted Hread Hwf Hlen Hmeta Hversion Hcaches.
    apply py_eq_metadata in Hversion. subst metadata.
    destruct (init_on_current_file w rel_file cache_compression wanted d entries
                Hwanted Hread Hwf Hlen Hmeta Hcaches)
      as (self & Hinit & _ & Hcompression & _ & Hsame).
    exists self. split; [exact Hinit|]. apply exit_unchanged; assumption.
Qed.

Lemma close_writes_only_on_change_witness :
  exists self,
    let opened := World (files sample_world) [Makedirs] in
    @FileCacheSet.init "doc.v.cache" None sample_world = (Ok self, opened)
    /\ FileCacheSet.exit self opened = (self, opened).
Proof.
  destruct (@close_writes_only_on_change sample_core) as (_ & _ & Hidle).
  apply (Hidle sample_world "doc.v.cache" None "none" sample_file
           FileCacheSet.METADATA [("coq", Cache.data sample_entry)]);
    reflexivity.
Defined.

(** C6, as stated, fails: when no cache file exists, closing a scope in
    which nothing happened writes a cache file with no entry; and when the
    prover fails, so that the entry looked up is never populated, closing
    writes a file with an empty entry for the language. *)
Lemma close_writes_without_cache_file :
  let fresh := World ∅ [] in
  let opened := World ∅ [Makedirs] in
  (exists self,
     FileCacheSet.init "doc.v.cache" None fresh = (Ok self, opened)
     /\ FileCacheSet.caches self = []
     /\ trace (snd (FileCacheSet.exit self opened))
        = [Makedirs;
           WriteFile "" (VDict [("metadata", FileCacheSet.METADATA); ("caches", VDict [])])])
  /\ (let '(outcome, closed, calls) :=
        @annotate_with_cache sample_core failing_prover (Some "doc.v.cache") None "coq"
                             sample_chunks sample_config fresh [] in
      outcome = Raise (ProverError "sertop not found")
      /\ trace closed
         = [Makedirs;
            WriteFile "" (VDict [("metadata", FileCacheSet.METADATA);
                                 ("caches", VDict [("coq", VNone)])])]).
Proof.
  split.
  - eexists. split; [reflexivity|]. split; reflexivity.
  - split; reflexivity.
Qed.

(** C6, amended: for a scope opened on a cache file of the current
    version, stored under the requested compression, in which the annotate
    step finds the entry of its language in the file and leaves it as it was
    loaded (the update hits, or fails before storing anything), no entry is
    registered or populated and closing writes nothing: the files and the
    trace are as the opening left them.  A scope opened when no cache file
    exists writes one on closing, even if no entry was populated. *)
Theorem close_writes_nothing_when_entry_unchanged `{Core} `{Prover}
    (w : world) rel_file cache_compression wanted :
  wanted = match cache_compression with
           | Some c => if String.eqb c "" then "none" else c
           | None => "none"
           end ->
  (forall d metadata entries lang data chunks config calls outcome calls',
     FileCacheSet._read (World (files w) (trace w ++ [Makedirs])) = (Some wanted, VDict d) ->
     wf (VDict d) = true -> length d = 2%nat ->
     dict_get "metadata" d = Some metadata ->
     py_eq metadata FileCacheSet.METADATA = true ->
     dict_get "caches" d = Some (VDict entries) ->
     dict_get lang entries = Some data ->
     let entry := Cache.init data (VStr rel_file) in
     Cache.update entry chunks config calls = (outcome, entry, calls') ->
     annotate_with_cache (Some rel_file) cache_compression lang chunks config w calls
     = (outcome, World (files w) (trace w ++ [Makedirs]), calls')) /\
  (dict_has wanted FileCacheSet.KNOWN_COMPRESSIONS = true ->
   files w !! "" = None -> files w !! ".gz" = None -> files w !! ".xz" = None ->
   exists self,
     let opened := World (files w) (trace w ++ [Makedirs]) in
     FileCacheSet.init rel_file cache_compression w = (Ok self, opened)
     /\ FileCacheSet.caches self = []
     /\ trace (snd (FileCacheSet.exit self opened))
        = trace opened
          ++ [WriteFile (FileCacheSet.extension wanted)
                        (VDict [("metadata", FileCacheSet.METADATA); ("caches", VDict [])])]).
Proof.
  intros Hwanted. split.
  - intros d metadata entries lang data chunks config calls outcome calls'
      Hread Hwf Hlen Hmeta Hversion Hcaches Hlang entry Hupdate. subst entry.
    apply py_eq_metadata in Hversion. subst metadata.
    destruct (init_on_current_file w rel_file cache_compression wanted d entries
                Hwanted Hread Hwf Hlen Hmeta Hcaches)
      as (self & Hinit & _ & Hcompression & Hloaded & Hsame).
    assert (NoDup (keys entries)) as Hnd.
    { pose proof (wf_dict_get d "caches" _ Hwf Hcaches) as Hwf_entries.
      simpl in Hwf_entries. apply andb_true_iff in Hwf_entries as [Hnd _].
      apply bool_decide_eq_true in Hnd. exact Hnd. }
    assert (dict_get lang (FileCacheSet.caches self)
            = Some (Cache.init data (VStr rel_file))) as Hentry.
    { rewrite Hloaded.
      rewrite (dict_get_loaded (fun data => Cache.init data (VStr rel_file)))
        by exact Hnd.
      rewrite Hlang. reflexivity. }
    unfold annotate_with_cache. rewrite Hinit.
    unfold FileCacheSet.getitem. rewrite Hentry.
    rewrite Hupdate.
    assert (FileCacheSet.store self lang (Cache.init data (VStr rel_file)) = self) as ->.
    { unfold FileCacheSet.store. rewrite (dict_set_same _ _ _ Hentry).
      destruct self; reflexivity. }
    rewrite (exit_unchanged self _ Hsame Hcompression). reflexivity.
  - intros Hknown Hnone Hgz Hxz.
    exists (FileCacheSet.Build rel_file wanted None VNone []).
    assert (FileCacheSet.init rel_file cache_compression w
            = (Ok (FileCacheSet.Build rel_file wanted None VNone []),
               World (files w) (trace w ++ [Makedirs]))) as Hinit.
    { unfold FileCacheSet.init. rewrite <- Hwanted, Hknown. simpl negb. cbv iota.
      unfold FileCacheSet._read. simpl. rewrite Hnone, Hgz, Hxz. reflexivity. }
    split; [exact Hinit|]. split; [reflexivity|].
    unfold FileCacheSet.exit, FileCacheSet._write, FileCacheSet._force_write,
      FileCacheSet._delete_old_caches.
    simpl. rewrite Hnone. simpl. rewrite Hgz. simpl. rewrite Hxz. reflexivity.
Qed.

Lemma close_writes_nothing_when_entry_unchanged_witness :
  @annotate_with_cache sample_core failing_prover (Some "doc.v.cache") None "coq"
                       sample_chunks sample_config sample_world []
  = (Ok sample_annotated, World (files sample_world) [Makedirs], []).
Proof.
  destruct (@close_writes_nothing_when_entry_unchanged sample_core failing_prover sample_world
              "doc.v.cache" None "none" eq_refl) as [Hhit _].
  apply (Hhit sample_file FileCacheSet.METADATA [("coq", Cache.data sample_entry)]
           "coq" (Cache.data sample_entry) sample_chunks sample_config []);
    reflexivity.
Defined.

(** * Pipeline resolution *)

Lemma mapR_fails {A B} (f : A -> result B) l x e :
  x ∈ l -> f x = Raise e -> exists e', mapR f l = Raise e'.
Proof.
  induction 1 as [x r|x y r _ IH]; intros Hx; simpl.
  - rewrite Hx. simpl. eauto.
  - destruct (f y); simpl; [|eauto].
    destruct (IH Hx) as (e' & ->). simpl. eauto.
Qed.

(** C8: when the frontend resolved for a document is a registered one and
    does not support the backend requested or inferred for it,
    [resolve_pipeline] raises the argument error whose message names the
    frontend, the backend, and the backends the frontend supports; and
    since every document is resolved while the arguments are processed, a
    run in which the resolution of some document fails ends with an error
    before any step of any pipeline has started. *)
Theorem unsupported_backend_is_rejected
    (parse_int : string -> option Z)
    (call_pipeline_step : Cli.step -> value -> Cli.context -> result value) :
  (forall fpath a frontend backend supported,
     Cli.or_else (Cli.frontend a) (Cli.infer_frontend fpath) = Ok frontend ->
     dict_get frontend Cli.PIPELINES = Some supported ->
     Cli.or_else (Cli.backend a) (Cli.infer_backend frontend (Cli.output a)) = Ok backend ->
     dict_get backend supported = None ->
     Cli.resolve_pipeline fpath a
     = Raise (ArgumentTypeError
                ("argument --backend: Frontend " +:+ Cli.repr frontend
                 +:+ " does not support backend " +:+ Cli.repr backend
                 +:+ ": expecting one of "
                 +:+ String.concat ", " (map Cli.repr (keys supported))))) /\
  (forall a fpath e,
     fpath ∈ Cli.input a -> Cli.resolve_pipeline fpath a = Raise e ->
     exists e', Cli.main parse_int call_pipeline_step a = (Raise e', [])) /\
  (forall fpath frontend backend output e,
     let a := Cli.Args [fpath] None frontend backend output (None, None) in
     Cli.resolve_pipeline fpath a = Raise e ->
     Cli.main parse_int call_pipeline_step a = (Raise e, [])).
Proof.
  split; [|split].
  - intros fpath a frontend backend supported Hfrontend Hsupported Hbackend Hmissing.
    unfold Cli.resolve_pipeline. rewrite Hfrontend. unfold mbind, result_bind.
    rewrite Hsupported, Hbackend, Hmissing. reflexivity.
  - intros a fpath e Hin Hfail.
    unfold Cli.main, Cli.post_process_arguments.
    destruct (Nat.ltb 1 (length (Cli.input a)) && Cli.truthy_opt (Cli.output a));
      [eauto|].
    destruct (Cli.truthy_opt (Cli.stdin_filename a)
              && negb (existsb (String.eqb "-") (Cli.input a))); [eauto|].
    destruct (fst (Cli.mark_point a)) as [p|]; simpl.
    + destruct (parse_int p); simpl; [|eauto].
      destruct (mapR_fails
                  (fun fpath => r ← Cli.resolve_pipeline fpath a; Ok (fpath, r))
                  (Cli.input a) fpath e Hin) as (e' & ->);
        [rewrite Hfail; reflexivity|]. simpl. eauto.
    + destruct (mapR_fails
                  (fun fpath => r ← Cli.resolve_pipeline fpath a; Ok (fpath, r))
                  (Cli.input a) fpath e Hin) as (e' & ->);
        [rewrite Hfail; reflexivity|]. simpl. eauto.
  - intros fpath frontend backend output e a Hfail.
    unfold Cli.main, Cli.post_process_arguments. simpl.
    destruct (Cli.truthy_opt output); simpl; rewrite Hfail; reflexivity.
Qed.

Lemma unsupported_backend_is_rejected_witness :
  let a := Cli.Args ["proof.v"] None None None (Some "proof.out.v") (None, None) in
  let run := fun (_ : Cli.step) (state : value) (_ : Cli.context) => Ok state in
  Cli.resolve_pipeline "proof.v" a
  = Raise (ArgumentTypeError
             "argument --backend: Frontend 'coq+rst' does not support backend 'coq': expecting one of 'webpage', 'latex', 'lint', 'rst'")
  /\ exists e', Cli.main (fun _ => None) run a = (Raise e', []).
Proof.
  intros a run.
  destruct (unsupported_backend_is_rejected (fun _ => None) run)
    as (Hmessage & Hbefore & _).
  split.
  - apply (Hmessage "proof.v" a "coq+rst" "coq"
             [("webpage", [Cli.read_plain; Cli.register_docutils; Cli.gen_docutils;
                           Cli.copy_assets; Cli.write_file ".html" [".v"; ".rst"]]);
              ("latex", [Cli.read_plain; Cli.register_docutils; Cli.gen_docutils;
                         Cli.copy_assets; Cli.write_file ".tex" [".v"; ".rst"]]);
              ("lint", [Cli.read_plain; Cli.register_docutils; Cli.lint_docutils;
                        Cli.write_file ".lint.json" [".v"; ".rst"]]);
              ("rst", [Cli.read_plain; Cli.code_to_rst;
                       Cli.write_file ".v.rst" [".v"; ".rst"]])]);
      reflexivity.
  - apply (Hbefore a "proof.v" (ArgumentTypeError
             "argument --backend: Frontend 'coq+rst' does not support backend 'coq': expecting one of 'webpage', 'latex', 'lint', 'rst'")).
    + apply list_elem_of_here.
    + reflexivity.
Defined.

(** The two resolutions the design document gives as examples: the longer
    suffix [.v.json] is not shadowed by [.v]. *)
Example resolve_v :
  Cli.resolve_pipeline "proof.v" (Cli.Args ["proof.v"] None None None None (None, None))
  = Ok ("coq+rst", "webpage",
        [Cli.read_plain; Cli.register_docutils; Cli.gen_docutils; Cli.copy_assets;
         Cli.write_file ".html" [".v"; ".rst"]]).
Proof. reflexivity. Qed.

Example resolve_v_json :
  Cli.resolve_pipeline "proof.v.json"
    (Cli.Args ["proof.v.json"] None None None None (None, None))
  = Ok ("coq.json", "json",
        [Cli.read_json; Cli.annotate_chunks; Cli.encode_json; Cli.dump_json;
         Cli.write_file ".io.json" [".json"]]).
Proof. reflexivity. Qed.

(** * Further properties of the serializers and of the cache *)

(** ** Normalisation *)

Lemma json_tree_normalize v : json_tree (Cache.normalize v) = true.
Proof.
  induction v as [| | |l IH|l IH|d IH|t l IH] using value_ind; simpl; try reflexivity.
  all: apply forallb_Forall, Forall_map; exact IH.
Qed.

Lemma normalize_json_tree v : json_tree v = true -> Cache.normalize v = v.
Proof.
  induction v as [| | |l IH|l IH|d IH|t l IH] using value_ind; simpl;
    intros Hj; try reflexivity; try discriminate.
  - f_equal. apply forallb_Forall in Hj.
    induction IH as [|x r Hx _ IHr]; [reflexivity|].
    inversion Hj; subst. simpl. f_equal; auto.
  - f_equal. apply forallb_Forall in Hj.
    induction IH as [|[k x] r Hx _ IHr]; [reflexivity|].
    inversion Hj; subst. simpl in *. f_equal; [f_equal|]; auto.
Qed.

(** X1: [Cache.normalize] returns a JSON tree, in which tuples and
    instances of the named tuples have become lists; normalising twice is
    normalising once; and the values it leaves as they are, are exactly the
    JSON trees. *)
Theorem normalize_projects_on_json_trees (v : value) :
  json_tree (Cache.normalize v) = true
  /\ Cache.normalize (Cache.normalize v) = Cache.normalize v
  /\ (json_tree v = true <-> Cache.normalize v = v).
Proof.
  split; [apply json_tree_normalize|split].
  - apply normalize_json_tree, json_tree_normalize.
  - split; [apply normalize_json_tree|].
    intros <-. apply json_tree_normalize.
Qed.

Lemma normalize_projects_on_json_trees_witness :
  let config := VDict [("args", VTuple [VStr "-Q"; VStr "dir,lib"])] in
  Cache.normalize config = VDict [("args", VList [VStr "-Q"; VStr "dir,lib"])]
  /\ json_tree (Cache.normalize config) = true
  /\ Cache.normalize (Cache.normalize config) = Cache.normalize config.
Proof.
  intros config. split; [reflexivity|].
  destruct (normalize_projects_on_json_trees config) as (Hjson & Hidem & _).
  split; [exact Hjson|exact Hidem].
Defined.

(** ** What the encoders return *)

Section outputs.
Context {A B : Type} (Q : B -> Prop).

Lemma mapR_Forall (f : A -> result B) l :
  Forall (fun x => forall w, f x = Ok w -> Q w) l ->
  forall ws, mapR f l = Ok ws -> Forall Q ws.
Proof.
  induction 1 as [|x r Hx _ IH]; simpl; intros ws Hws.
  - injection Hws as <-. constructor.
  - destruct (f x) as [w|] eqn:Hw; simpl in Hws; [|discriminate].
    destruct (mapR f r) as [ws'|]; simpl in Hws; [|discriminate].
    injection Hws as <-. constructor; auto.
Qed.

Lemma mapR_items_Forall (f : A -> result B) d :
  Forall (fun kv => forall w, f (snd kv) = Ok w -> Q w) d ->
  forall ws, mapR_items f d = Ok ws -> Forall (fun kv => Q (snd kv)) ws.
Proof.
  induction 1 as [|[k x] r Hx _ IH]; simpl; intros ws Hws.
  - injection Hws as <-. constructor.
  - simpl in Hx. destruct (f x) as [w|] eqn:Hw; simpl in Hws; [|discriminate].
    destruct (mapR_items f r) as [ws'|]; simpl in Hws; [|discriminate].
    injection Hws as <-. constructor; simpl; auto.
Qed.

Context {S : Type}.

Lemma mapS_Forall (f : A -> S -> result (B * S)) l :
  Forall (fun x => forall s w s', f x s = Ok (w, s') -> Q w) l ->
  forall s ws s', mapS f l s = Ok (ws, s') -> Forall Q ws.
Proof.
  induction 1 as [|x r Hx _ IH]; simpl; intros s ws s' Hws.
  - injection Hws as <- _. constructor.
  - destruct (f x s) as [[w s1]|] eqn:Hw; simpl in Hws; [|discriminate].
    destruct (mapS f r s1) as [[ws' s2]|] eqn:Hr; simpl in Hws; [|discriminate].
    injection Hws as <- _. constructor; eauto.
Qed.

Lemma run_items_Forall (f : A -> S -> result (B * S)) d :
  Forall (fun kv => forall s w s', f (snd kv) s = Ok (w, s') -> Q w) d ->
  forall s ws s', run_items (delay_items f d) s = Ok (ws, s') ->
    Forall (fun kv => Q (snd kv)) ws.
Proof.
  induction 1 as [|[k x] r Hx _ IH]; simpl; intros s ws s' Hws.
  - injection Hws as <- _. constructor.
  - simpl in Hx. destruct (f x s) as [[w s1]|] eqn:Hw; simpl in Hws; [|discriminate].
    destruct (run_items (delay_items f r) s1) as [[ws' s2]|] eqn:Hr;
      simpl in Hws; [|discriminate].
    injection Hws as <- _. constructor; simpl; eauto.
Qed.

Lemma sorted_run_items_Forall (f : A -> S -> result (B * S)) d :
  Forall (fun kv => forall s w s', f (snd kv) s = Ok (w, s') -> Q w) d ->
  forall s ws s', run_items (sorted_items (delay_items f d)) s = Ok (ws, s') ->
    Forall (fun kv => Q (snd kv)) ws.
Proof.
  intros Hd s ws s'. rewrite sorted_delay_items. apply run_items_Forall.
  rewrite sorted_items_perm. exact Hd.
Qed.
End outputs.

Lemma dict_set_Forall {A} (Q : string * A -> Prop) k x d :
  Forall Q d -> (forall k', Q (k', x)) -> Forall Q (dict_set k x d).
Proof.
  intros Hd Hx. induction Hd as [|[k' y] r Hy Hr IH]; simpl.
  - constructor; [apply Hx|constructor].
  - destruct (String.eqb k k'); constructor; try apply Hx; assumption.
Qed.

Lemma store_fields_Forall (Q : value -> Prop) (enc : value -> result value) vs :
  Forall (fun x => forall w, enc x = Ok w -> Q w) vs ->
  forall ks d0 d, Forall (fun kv => Q (snd kv)) d0 ->
    PlainSerializer.store_fields enc ks vs d0 = Ok d ->
    Forall (fun kv => Q (snd kv)) d.
Proof.
  induction 1 as [|x r Hx _ IH]; intros ks d0 d Hd0 Hd; simpl in Hd.
  - injection Hd as <-. exact Hd0.
  - destruct ks as [|k ks]; [injection Hd as <-; exact Hd0|].
    destruct (enc x) as [w|] eqn:Hw; simpl in Hd; [|discriminate].
    apply (IH ks (dict_set k w d0) d); [|exact Hd].
    apply dict_set_Forall; [exact Hd0|]. intros k'. simpl. auto.
Qed.

Lemma plain_encode_json `{Core} v :
  forall w, PlainSerializer.encode v = Ok w -> json_tree w = true.
Proof.
  induction v as [| | |l IH|l IH|d IH|t l IH] using value_ind; simpl; intros w Hw;
    try (injection Hw as <-; reflexivity); try discriminate.
  - destruct (mapR PlainSerializer.encode l) as [ws|] eqn:Hws; simpl in Hw; [|discriminate].
    injection Hw as <-. simpl. apply forallb_Forall.
    apply (mapR_Forall _ _ _ IH _ Hws).
  - destruct (assert _); simpl in Hw; [|discriminate].
    destruct (mapR_items PlainSerializer.encode d) as [ws|] eqn:Hws; simpl in Hw; [|discriminate].
    injection Hw as <-. simpl. apply forallb_Forall.
    apply (mapR_items_Forall _ _ _ IH _ Hws).
  - destruct (PlainSerializer.store_fields _ _ _ _) as [ws|] eqn:Hws; simpl in Hw; [|discriminate].
    injection Hw as <-. simpl. apply forallb_Forall.
    apply (store_fields_Forall (fun w => json_tree w = true) _ _ IH
             (fields t) [("_type", VStr (alias_of_type t))]); [|exact Hws].
    repeat constructor.
Qed.

Lemma dedup_encode_json `{Pickle} v :
  forall T w T', DeduplicatingSerializer.encode_in v T = Ok (w, T') -> json_tree w = true.
Proof.
  induction v as [| | |l IH|l IH|d IH|t l IH] using value_ind; simpl; intros T w T' Hw;
    try (injection Hw as <- _; reflexivity); try discriminate.
  - destruct (mapS _ l T) as [[ws T1]|] eqn:Hws; simpl in Hw; [|discriminate].
    injection Hw as <- _. simpl. apply forallb_Forall.
    apply (mapS_Forall _ _ _ IH _ _ _ Hws).
  - destruct (assert _); simpl in Hw; [|discriminate].
    destruct (run_items _ T) as [[ws T1]|] eqn:Hws; simpl in Hw; [|discriminate].
    injection Hw as <- _. simpl. apply forallb_Forall.
    apply (sorted_run_items_Forall _ _ _ IH _ _ _ Hws).
  - destruct (T !! pickle_dumps (VEnt t l)); [injection Hw as <- _; reflexivity|].
    destruct (mapS _ l T) as [[ws T1]|] eqn:Hws; simpl in Hw; [|discriminate].
    injection Hw as <- _. simpl. rewrite andb_true_r. apply forallb_Forall.
    apply (mapS_Forall _ _ _ IH _ _ _ Hws).
Qed.

Lemma fully_encode_json `{Pickle} v :
  forall T w T', FullyDeduplicatingSerializer.encode_in v T = Ok (w, T') -> json_tree w = true.
Proof.
  induction v as [| | |l IH|l IH|d IH|t l IH] using value_ind; simpl; intros T w T' Hw;
    match type of Hw with
    | context [T !! ?k] => destruct (T !! k); [injection Hw as <- _; reflexivity|]
    end; simpl in Hw;
    try (injection Hw as <- _; reflexivity); try discriminate.
  - destruct (mapS _ l T) as [[ws T1]|] eqn:Hws; simpl in Hw; [|discriminate].
    injection Hw as <- _. simpl. apply forallb_Forall.
    apply (mapS_Forall _ _ _ IH _ _ _ Hws).
  - destruct (assert _); simpl in Hw; [|discriminate].
    destruct (run_items _ T) as [[ws T1]|] eqn:Hws; simpl in Hw; [|discriminate].
    injection Hw as <- _. simpl. apply forallb_Forall.
    apply (sorted_run_items_Forall _ _ _ IH _ _ _ Hws).
  - destruct (mapS _ l T) as [[ws T1]|] eqn:Hws; simpl in Hw; [|discriminate].
    injection Hw as <- _. simpl. rewrite andb_true_r. apply forallb_Forall.
    apply (mapS_Forall _ _ _ IH _ _ _ Hws).
Qed.

Lemma fmap_fst_Ok {A B} (r : result (A * B)) (a : A) :
  fst <$> r = Ok a -> exists b, r = Ok (a, b).
Proof.
  destruct r as [[a' b]|]; simpl; intros Hr; [|discriminate].
  injection Hr as <-. eauto.
Qed.

(** X2: whatever value it is given, an encoder that returns, returns a
    JSON tree: the output of [PlainSerializer.encode],
    [DeduplicatingSerializer.encode] and [FullyDeduplicatingSerializer.encode]
    holds no tuple and no instance of a registered class. *)
Theorem encoders_return_json_trees `{Core} `{Pickle} (v w : value) :
  (PlainSerializer.encode v = Ok w -> json_tree w = true) /\
  (DeduplicatingSerializer.encode v = Ok w -> json_tree w = true) /\
  (FullyDeduplicatingSerializer.encode v = Ok w -> json_tree w = true).
Proof.
  split; [apply plain_encode_json|split]; intros Hw.
  - apply fmap_fst_Ok in Hw as (T' & Hw). exact (dedup_encode_json _ _ _ _ Hw).
  - apply fmap_fst_Ok in Hw as (T' & Hw). exact (fully_encode_json _ _ _ _ Hw).
Qed.

Lemma encoders_return_json_trees_witness :
  exists w1 w2 w3,
    (@PlainSerializer.encode sample_core sample_document = Ok w1 /\ json_tree w1 = true)
    /\ (@DeduplicatingSerializer.encode tree_pickle sample_document = Ok w2
        /\ json_tree w2 = true)
    /\ (@FullyDeduplicatingSerializer.encode tree_pickle sample_document = Ok w3
        /\ json_tree w3 = true).
Proof.
  eexists _, _, _. split; [|split]; (split; [vm_compute; reflexivity|]).
  - refine (proj1 (@encoders_return_json_trees sample_core tree_pickle sample_document _) _).
    vm_compute; reflexivity.
  - refine (proj1 (proj2 (@encoders_return_json_trees sample_core tree_pickle sample_document _)) _).
    vm_compute; reflexivity.
  - refine (proj2 (proj2 (@encoders_return_json_trees sample_core tree_pickle sample_document _)) _).
    vm_compute; reflexivity.
Defined.

(** ** The layout of an encoded instance *)

(** X3: [PlainSerializer.encode] turns an instance that has one value
    per declared field into a dictionary with the key ["_type"] first,
    bound to the alias of the class, followed by the declared fields in
    their order, each bound to the encoding of its value. *)
Theorem plain_encode_puts_type_first `{Core} (t : etype) (vs ws : list value) :
  length vs = length (fields t) ->
  mapR PlainSerializer.encode vs = Ok ws ->
  PlainSerializer.encode (VEnt t vs)
  = Ok (VDict (("_type", VStr (alias_of_type t)) :: zip (fields t) ws)).
Proof.
  intros Hlen Hws. simpl.
  rewrite (store_fields_spec _ (fields t) vs ws [("_type", VStr (alias_of_type t))] Hws);
    [reflexivity|symmetry; exact Hlen|apply fields_nodup|].
  intros k Hk Hin. apply list_elem_of_singleton in Hin as ->.
  exact (type_key_not_field t Hk).
Qed.

Lemma plain_encode_puts_type_first_witness :
  @PlainSerializer.encode sample_core
     (VEnt THypothesis [VList [VStr "H"]; VNone; VStr "False"])
  = Ok (VDict [("_type", VStr "hypothesis"); ("names", VList [VStr "H"]);
               ("body", VNone); ("type", VStr "False")]).
Proof.
  apply (@plain_encode_puts_type_first sample_core THypothesis
           [VList [VStr "H"]; VNone; VStr "False"] [VList [VStr "H"]; VNone; VStr "False"]);
    reflexivity.
Defined.

(** ** Decoding plain trees *)
Lemma mapR_Raise {A B} (f : A -> result B) l e :
  mapR f l = Raise e -> exists x, x ∈ l /\ f x = Raise e.
Proof.
  induction l as [|x r IH]; simpl; [discriminate|].
  destruct (f x) as [y|e'] eqn:Hx; simpl.
  - destruct (mapR f r) as [ys|e'] eqn:Hr; simpl; [discriminate|].
    intros [= ->]. destruct (IH eq_refl) as (x' & Hin & Hx').
    exists x'. split; [apply list_elem_of_further, Hin|exact Hx'].
  - intros [= ->]. exists x. split; [apply list_elem_of_here|exact Hx].
Qed.

Lemma mapR_items_Raise {A B} (f : A -> result B) d e :
  mapR_items f d = Raise e -> exists kv, kv ∈ d /\ f (snd kv) = Raise e.
Proof.
  induction d as [|[k x] r IH]; simpl; [discriminate|].
  destruct (f x) as [y|e'] eqn:Hx; simpl.
  - destruct (mapR_items f r) as [ys|e'] eqn:Hr; simpl; [discriminate|].
    intros [= ->]. destruct (IH eq_refl) as (x' & Hin & Hx').
    exists x'. split; [apply list_elem_of_further, Hin|exact Hx'].
  - intros [= ->]. exists (k, x). split; [apply list_elem_of_here|exact Hx].
Qed.

Lemma plain_decode_id `{Core} w :
  avoids ["_type"] w = true -> PlainSerializer.decode w = Ok w.
Proof.
  induction w as [| | |l IH|l IH|d IH|t l IH] using value_ind; simpl; intros Hav;
    try reflexivity.
  - rewrite (mapR_id _ l); [reflexivity|].
    apply forallb_Forall in Hav. apply (Forall_impl2 _ _ _ _ IH Hav). auto.
  - apply andb_true_iff in Hav as [Hkey Hav].
    rewrite andb_true_r in Hkey. apply negb_true_iff in Hkey.
    rewrite (mapR_items_id _ d).
    + simpl. unfold dict_has in Hkey. destruct (dict_get "_type" d); [discriminate|reflexivity].
    + apply forallb_Forall in Hav. apply (Forall_impl2 _ _ _ _ IH Hav). auto.
Qed.

Lemma construct_keywords_errors `{Core} t kwargs e :
  construct_keywords t kwargs = Raise e -> e = TypeError.
Proof.
  unfold construct_keywords. destruct (forallb _ _); [|congruence].
  destruct (mapM _ _); congruence.
Qed.

Lemma lookup_type_errors key e :
  lookup_type key = Raise e -> e = KeyError \/ e = TypeError.
Proof.
  destruct key; simpl; try (intros [= <-]; auto; fail).
  - destruct (type_of_alias s); [discriminate|]. intros [= <-]; auto.
  - destruct (forallb hashable l); intros [= <-]; auto.
  - destruct (forallb hashable vs); intros [= <-]; auto.
Qed.

Lemma plain_decode_errors `{Core} w e :
  PlainSerializer.decode w = Raise e -> e = KeyError \/ e = TypeError.
Proof.
  induction w as [| | |l IH|l IH|d IH|t l IH] using value_ind; simpl; intros He;
    try discriminate.
  - destruct (mapR PlainSerializer.decode l) as [vs|e'] eqn:Hl; simpl in He; [discriminate|].
    injection He as ->. apply mapR_Raise in Hl as (x & Hin & Hx).
    rewrite Forall_forall in IH. exact (IH x Hin Hx).
  - destruct (mapR_items PlainSerializer.decode d) as [obj|e'] eqn:Hd; simpl in He.
    + destruct (dict_get "_type" obj) as [type_name|]; [|discriminate].
      destruct (truthy type_name); [|discriminate].
      destruct (lookup_type type_name) as [t|e'] eqn:Ht; simpl in He.
      * right. exact (construct_keywords_errors _ _ _ He).
      * injection He as ->. exact (lookup_type_errors _ _ Ht).
    + injection He as ->. apply mapR_items_Raise in Hd as (kv & Hin & Hx).
      rewrite Forall_forall in IH. exact (IH kv Hin Hx).
Qed.

(** X4: [PlainSerializer.decode] returns as it is every tree none of
    whose dictionaries has the key ["_type"]; and when it fails, it fails
    with [KeyError] (a type name that is no alias) or with [TypeError] (an
    unhashable type name, or keys that are not the fields of the class). *)
Theorem plain_decode_leaves_untyped_trees `{Core} (w : value) :
  (avoids ["_type"] w = true -> PlainSerializer.decode w = Ok w) /\
  (forall e, PlainSerializer.decode w = Raise e -> e = KeyError \/ e = TypeError).
Proof. split; [apply plain_decode_id|apply plain_decode_errors]. Qed.

Lemma plain_decode_leaves_untyped_trees_witness :
  @PlainSerializer.decode sample_core (VList [VDict [("a", VInt 1)]; VStr "x"])
  = Ok (VList [VDict [("a", VInt 1)]; VStr "x"])
  /\ (KeyError = KeyError \/ KeyError = TypeError).
Proof.
  split.
  - apply (proj1 (@plain_decode_leaves_untyped_trees sample_core _)). reflexivity.
  - apply (proj2 (@plain_decode_leaves_untyped_trees sample_core
                    (VDict [("_type", VStr "proof")])) KeyError).
    reflexivity.
Defined.

(** ** Injectivity of the encoders *)

(** X5: two well-formed values that an encoder maps to the same wire
    tree are the same value: equal for [PlainSerializer], and equal once
    the keys of their dictionaries are sorted for the two deduplicating
    serializers (pickling being determined by content). *)
Theorem encoders_are_injective `{Core} `{Pickle} (v v' w : value) :
  (forall a b, pickle_dumps a = pickle_dumps b -> a = b) ->
  wf v = true -> serializable v = true ->
  wf v' = true -> serializable v' = true ->
  (PlainSerializer.encode v = Ok w -> PlainSerializer.encode v' = Ok w -> v = v') /\
  (DeduplicatingSerializer.encode v = Ok w -> DeduplicatingSerializer.encode v' = Ok w ->
   sort_keys v = sort_keys v') /\
  (FullyDeduplicatingSerializer.encode v = Ok w ->
   FullyDeduplicatingSerializer.encode v' = Ok w ->
   sort_keys v = sort_keys v').
Proof.
  intros Hinj Hwf Hser Hwf' Hser'. split; [|split]; intros Hv Hv'.
  - pose proof (plain_encode_guarded v Hwf) as Hav. rewrite Hv in Hav.
    pose proof (plain_encode_guarded v' Hwf') as Hav'. rewrite Hv' in Hav'.
    destruct (plain_roundtrip v Hwf Hser Hav) as (w0 & Hw0 & Hback).
    destruct (plain_roundtrip v' Hwf' Hser' Hav') as (w0' & Hw0' & Hback').
    congruence.
  - apply fmap_fst_Ok in Hv as (T & Hv). apply fmap_fst_Ok in Hv' as (T' & Hv').
    pose proof (dedup_encode_guarded Hinj v ∅ clean_empty) as Hav.
    rewrite Hv in Hav. destruct Hav as [Hav _].
    pose proof (dedup_encode_guarded Hinj v' ∅ clean_empty) as Hav'.
    rewrite Hv' in Hav'. destruct Hav' as [Hav' _].
    destruct (dedup_roundtrip_in Hinj false v Hwf Hser Hav ∅ [] sync_empty)
      as (w0 & T0 & D0 & Hw0 & Hback & _).
    destruct (dedup_roundtrip_in Hinj false v' Hwf' Hser' Hav' ∅ [] sync_empty)
      as (w0' & T0' & D0' & Hw0' & Hback' & _).
    congruence.
  - apply fmap_fst_Ok in Hv as (T & Hv). apply fmap_fst_Ok in Hv' as (T' & Hv').
    pose proof (fully_encode_guarded Hinj v ∅ clean_empty) as Hav.
    rewrite Hv in Hav. destruct Hav as [Hav _].
    pose proof (fully_encode_guarded Hinj v' ∅ clean_empty) as Hav'.
    rewrite Hv' in Hav'. destruct Hav' as [Hav' _].
    destruct (fully_roundtrip_in Hinj false v Hwf Hser Hav ∅ [] sync_empty)
      as (w0 & T0 & D0 & Hw0 & Hback & _).
    destruct (fully_roundtrip_in Hinj false v' Hwf' Hser' Hav' ∅ [] sync_empty)
      as (w0' & T0' & D0' & Hw0' & Hback' & _).
    congruence.
Qed.

Lemma encoders_are_injective_witness :
  let v := VDict [("b", VInt 1); ("a", sample_text)] in
  let v' := VDict [("a", sample_text); ("b", VInt 1)] in
  sort_keys v = sort_keys v'.
Proof.
  intros v v'.
  apply (proj1 (proj2 (@encoders_are_injective sample_core tree_pickle v v'
                         (VDict [("a", VDict [("&", VStr "text"); ("_", VList [VStr "x"])]);
                                 ("b", VInt 1)])
                         to_tree_inj eq_refl eq_refl eq_refl eq_refl)));
    vm_compute; reflexivity.
Defined.

(** ** Pointers *)

Lemma list_index_out (l : list value) (z : Z) :
  Z.of_nat (length l) <= z \/ z < - Z.of_nat (length l) ->
  list_index l (VInt z) = Raise IndexError.
Proof.
  intros Hz. unfold list_index.
  destruct (Z.ltb_spec z 0).
  - destruct (Z.leb_spec 0 (z + Z.of_nat (length l))); simpl; [lia|reflexivity].
  - destruct (Z.leb_spec 0 z); simpl; [|reflexivity].
    destruct (Z.ltb_spec z (Z.of_nat (length l))); [lia|reflexivity].
Qed.

Lemma list_index_back (l : list value) (z : Z) x :
  - Z.of_nat (length l) <= z < 0 ->
  l !! Z.to_nat (z + Z.of_nat (length l)) = Some x ->
  list_index l (VInt z) = Ok x.
Proof.
  intros Hz Hx. unfold list_index.
  destruct (Z.ltb_spec z 0); [|lia].
  destruct (Z.leb_spec 0 (z + Z.of_nat (length l))); [|lia].
  destruct (Z.ltb_spec (z + Z.of_nat (length l)) (Z.of_nat (length l))); [|lia].
  simpl. rewrite Hx. reflexivity.
Qed.

Lemma list_index_front (l : list value) (z : Z) x :
  0 <= z -> l !! Z.to_nat z = Some x -> list_index l (VInt z) = Ok x.
Proof.
  intros Hz Hx. rewrite <- (Z2Nat.id z Hz). apply list_index_nat. exact Hx.
Qed.

(** X6: a pointer [{"*": z}] is resolved in the table of the objects
    decoded so far, as Python indexes a list: an index from [0] up to the
    length of the table gives the object decoded at that position, a
    negative index down to minus the length counts from the end, and any
    other index raises [IndexError]; the table is left as it was.  A
    pointer at the root of a wire tree finds the table empty and raises
    [IndexError]. *)
Theorem pointers_resolve_in_the_table `{Core} (copy : bool) (D : list value) (z : Z) :
  let n := Z.of_nat (length D) in
  let pointer := VDict [("*", VInt z)] in
  (n <= z \/ z < - n ->
   DeduplicatingSerializer.decode_in copy pointer D = Raise IndexError
   /\ FullyDeduplicatingSerializer.decode_in copy pointer D = Raise IndexError) /\
  (forall x, 0 <= z -> D !! Z.to_nat z = Some x ->
   DeduplicatingSerializer.decode_in copy pointer D = Ok (x, D)
   /\ FullyDeduplicatingSerializer.decode_in copy pointer D = Ok (x, D)) /\
  (forall x, - n <= z < 0 -> D !! Z.to_nat (z + n) = Some x ->
   DeduplicatingSerializer.decode_in copy pointer D = Ok (x, D)
   /\ FullyDeduplicatingSerializer.decode_in copy pointer D = Ok (x, D)) /\
  DeduplicatingSerializer.decode pointer copy = Raise IndexError /\
  FullyDeduplicatingSerializer.decode pointer copy = Raise IndexError.
Proof.
  intros n pointer. split; [|split; [|split; [|split]]].
  - intros Hz. simpl. rewrite (list_index_out D z Hz). split; reflexivity.
  - intros x Hz Hx. simpl. rewrite (list_index_front D z x Hz Hx).
    destruct copy; split; reflexivity.
  - intros x Hz Hx. simpl. rewrite (list_index_back D z x Hz Hx).
    destruct copy; split; reflexivity.
  - unfold DeduplicatingSerializer.decode. simpl.
    rewrite (list_index_out [] z); [reflexivity|simpl; lia].
  - unfold FullyDeduplicatingSerializer.decode. simpl.
    rewrite (list_index_out [] z); [reflexivity|simpl; lia].
Qed.

Lemma pointers_resolve_in_the_table_witness :
  let D := [sample_text; sample_goal] in
  @DeduplicatingSerializer.decode_in sample_core false (VDict [("*", VInt 2)]) D
    = Raise IndexError
  /\ @DeduplicatingSerializer.decode_in sample_core false (VDict [("*", VInt 1)]) D
     = Ok (sample_goal, D)
  /\ @FullyDeduplicatingSerializer.decode_in sample_core true
       (VDict [("*", VInt (-2))]) D
     = Ok (sample_text, D).
Proof.
  intros D. split; [|split].
  - apply (proj1 (@pointers_resolve_in_the_table sample_core false D 2)). simpl. lia.
  - apply (proj1 (proj2 (@pointers_resolve_in_the_table sample_core false D 1)) sample_goal);
      [lia|reflexivity].
  - apply (proj1 (proj2 (proj2 (@pointers_resolve_in_the_table sample_core true D (-2))))
             sample_text); [simpl; lia|reflexivity].
Defined.

(** ** Repeated values under full deduplication *)
Lemma fully_encode_stores `{Pickle} v T w T' :
  FullyDeduplicatingSerializer.encode_in v T = Ok (w, T') ->
  is_Some (T' !! pickle_dumps v).
Proof.
  intros Hw. destruct (T !! pickle_dumps v) as [n|] eqn:Hn.
  - rewrite (fully_encode_pointer v T n Hn) in Hw. injection Hw as _ <-. eauto.
  - destruct v; simpl in Hw; rewrite Hn in Hw; simpl in Hw;
      try (injection Hw as _ <-; rewrite lookup_insert_eq; eauto; fail);
      try discriminate.
    + destruct (mapS _ l T) as [[ws T1]|]; simpl in Hw; [|discriminate].
      injection Hw as _ <-. rewrite lookup_insert_eq. eauto.
    + destruct (assert _); simpl in Hw; [|discriminate].
      destruct (run_items _ T) as [[ws T1]|]; simpl in Hw; [|discriminate].
      injection Hw as _ <-. rewrite lookup_insert_eq. eauto.
    + destruct (mapS _ vs T) as [[ws T1]|]; simpl in Hw; [|discriminate].
      injection Hw as _ <-. rewrite lookup_insert_eq. eauto.
Qed.

Lemma fully_encode_list `{Pickle} l T :
  T !! pickle_dumps (VList l) = None ->
  FullyDeduplicatingSerializer.encode_in (VList l) T
  = '(ws, tbl) ← mapS FullyDeduplicatingSerializer.encode_in l T;
    Ok (VList ws, <[pickle_dumps (VList l) := size tbl]> tbl).
Proof.
  intros Hn. simpl. rewrite Hn.
  destruct (mapS _ l T) as [[ws T1]|]; reflexivity.
Qed.

(** X7: [FullyDeduplicatingSerializer] deduplicates every value, basic
    ones included: in a list of two equal values the first is encoded in
    full and the second as a pointer. *)
Theorem fully_encodes_repeats_as_pointers `{Pickle} (v w : value) :
  FullyDeduplicatingSerializer.encode v = Ok w ->
  exists n, FullyDeduplicatingSerializer.encode (VList [v; v])
            = Ok (VList [w; VDict [("*", VInt (Z.of_nat n))]]).
Proof.
  intros Hw. apply fmap_fst_Ok in Hw as (T1 & Hw).
  destruct (fully_encode_stores v ∅ w T1 Hw) as [n Hn].
  exists n. unfold FullyDeduplicatingSerializer.encode.
  rewrite fully_encode_list by apply lookup_empty.
  rewrite (mapS_cons _ v [v] ∅ w T1 [VDict [("*", VInt (Z.of_nat n))]] T1 Hw).
  - reflexivity.
  - apply (mapS_cons _ v [] T1 _ T1 [] T1); [|reflexivity].
    apply fully_encode_pointer, Hn.
Qed.

Lemma fully_encodes_repeats_as_pointers_witness :
  exists n, @FullyDeduplicatingSerializer.encode tree_pickle (VList [VStr "x"; VStr "x"])
            = Ok (VList [VStr "x"; VDict [("*", VInt (Z.of_nat n))]]).
Proof.
  apply (@fully_encodes_repeats_as_pointers tree_pickle (VStr "x") (VStr "x")).
  reflexivity.
Defined.

(** ** validate_inputs *)
Lemma all_missing_true r : all_missing r = Ok true -> r = [].
Proof. destruct r; [reflexivity|discriminate]. Qed.

Lemma validate_inputs_true a :
  forall r, validate_inputs a r = Ok true -> lists_only a = true /\ r = a.
Proof.
  induction a as [| | |l IH|l IH|d IH|t l IH] using value_ind; simpl; intros r Hr;
    try discriminate.
  destruct r as [| | |r| | |]; try discriminate.
  enough (forallb lists_only l = true /\ r = l) as [-> ->] by auto.
  revert r Hr. induction IH as [|x l' Hx _ IHl]; intros r Hr; simpl in Hr.
  - apply all_missing_true in Hr as ->. auto.
  - destruct r as [|y r'].
    + destruct (validate_inputs x VNone) as [[|]|] eqn:Hxn; simpl in Hr; try discriminate.
      destruct (Hx _ Hxn) as [_ Heq]. subst x. discriminate.
    + destruct (validate_inputs x y) as [[|]|] eqn:Hxy; simpl in Hr; try discriminate.
      destruct (Hx _ Hxy) as [Hlx ->]. destruct (IHl _ Hr) as [Hl ->].
      simpl. rewrite Hlx, Hl. auto.
Qed.

Lemma validate_inputs_refl a : lists_only a = true -> validate_inputs a a = Ok true.
Proof.
  induction a as [| | |l IH|l IH|d IH|t l IH] using value_ind; simpl; intros Hl;
    try discriminate.
  apply forallb_Forall in Hl.
  induction IH as [|x l' Hx _ IHl]; [reflexivity|].
  inversion Hl; subst. simpl. rewrite Hx by assumption. simpl. auto.
Qed.

Lemma validate_inputs_errors a : forall r e, validate_inputs a r = Raise e -> e = TypeError.
Proof.
  induction a as [| | |l IH|l IH|d IH|t l IH] using value_ind; simpl; intros r e Hr;
    try (injection Hr as <-; reflexivity).
  destruct r as [| | |r| | |]; try discriminate.
  revert r Hr. induction IH as [|x l' Hx _ IHl]; intros r Hr; simpl in Hr.
  - destruct r; [discriminate|]. simpl in Hr. injection Hr as <-. reflexivity.
  - destruct r as [|y r'].
    + destruct (validate_inputs x VNone) as [[|]|] eqn:Hxn; simpl in Hr; try discriminate.
      * exact (IHl _ Hr).
      * injection Hr as <-. exact (Hx _ _ Hxn).
    + destruct (validate_inputs x y) as [[|]|] eqn:Hxy; simpl in Hr; try discriminate.
      * exact (IHl _ Hr).
      * injection Hr as <-. exact (Hx _ _ Hxy).
Qed.

(** X8: [validate_inputs] returns [True] exactly when [annotated] is
    made of lists alone, down to empty lists, and [reference] is the same
    nest of lists; any exception it raises is a [TypeError]; and it never
    accepts a list that holds an instance of a registered class, since
    [isinstance] rejects the list [TYPES] as its second argument. *)
Theorem validate_inputs_accepts_only_nested_lists (annotated reference : value) :
  (validate_inputs annotated reference = Ok true
   <-> lists_only annotated = true /\ reference = annotated) /\
  (forall e, validate_inputs annotated reference = Raise e -> e = TypeError) /\
  (forall t vs, validate_inputs (VList [VEnt t vs]) reference <> Ok true).
Proof.
  split; [split|split].
  - apply validate_inputs_true.
  - intros [Hl ->]. apply validate_inputs_refl, Hl.
  - apply validate_inputs_errors.
  - intros t vs Htrue. apply validate_inputs_true in Htrue as [Hl _]. discriminate.
Qed.

Lemma validate_inputs_accepts_only_nested_lists_witness :
  validate_inputs (VList [VList []; VList [VList []]]) (VList [VList []; VList [VList []]])
  = Ok true
  /\ TypeError = TypeError.
Proof.
  split.
  - apply (proj2 (proj1 (validate_inputs_accepts_only_nested_lists _ _))).
    split; reflexivity.
  - apply (proj1 (proj2 (validate_inputs_accepts_only_nested_lists
                           (VList [sample_text]) (VList [VStr "x"]))) TypeError).
    reflexivity.
Defined.

(** ** Entries with missing keys *)

(** X9: how [Cache.get] and [Cache.update] treat stored data with
    missing keys.  Without ["config"], [get] raises [KeyError], and so does
    [update], which neither calls the prover nor changes the entry; without
    ["chunks"], every lookup with chunks other than [None] is a miss;
    without ["annotated"], [get] returns [None]; and stored data that is
    neither [None] nor a dictionary raises [TypeError]. *)
Theorem entry_with_missing_keys `{Core} `{Prover}
    (self : Cache.t) (chunks config : value) (calls : list (value * dict)) :
  (forall d, Cache.data self = VDict d -> dict_get "config" d = None ->
     Cache.get self chunks config = Raise KeyError
     /\ Cache.update self chunks config calls = (Raise KeyError, self, calls)) /\
  (forall d stored, Cache.data self = VDict d -> dict_get "config" d = Some stored ->
     dict_get "chunks" d = None -> chunks <> VNone ->
     Cache.get self chunks config = Ok VNone) /\
  (forall d stored, Cache.data self = VDict d -> dict_get "config" d = Some stored ->
     dict_get "annotated" d = None ->
     Cache.get self chunks config = Ok VNone) /\
  (match Cache.data self with
   | VNone | VDict _ => True
   | _ => Cache.get self chunks config = Raise TypeError
          /\ Cache.update self chunks config calls = (Raise TypeError, self, calls)
   end).
Proof.
  split; [|split; [|split]].
  - intros d Hd Hconfig.
    assert (Cache.get self chunks config = Raise KeyError) as Hget.
    { unfold Cache.get, Cache._validate. rewrite Hd. simpl. rewrite Hconfig. reflexivity. }
    split; [exact Hget|]. unfold Cache.update. rewrite Hget. reflexivity.
  - intros d stored Hd Hconfig Hchunks Hsome.
    rewrite (get_of_populated self d stored chunks config Hd Hconfig), Hchunks. simpl.
    replace (match Cache.normalize chunks with VNone => true | _ => false end) with false;
      [rewrite andb_false_r; reflexivity|].
    destruct chunks; try reflexivity. congruence.
  - intros d stored Hd Hconfig Hannotated.
    rewrite (get_of_populated self d stored chunks config Hd Hconfig), Hannotated. simpl.
    destruct (_ && _); reflexivity.
  - destruct self as [data file]. simpl.
    destruct data; try exact I;
      (split; [reflexivity|unfold Cache.update; reflexivity]).
Qed.

Lemma entry_with_missing_keys_witness :
  let self := Cache.init (VDict [("chunks", sample_chunks)]) (VStr "doc.v.cache") in
  @Cache.get sample_core self sample_chunks sample_config = Raise KeyError
  /\ @Cache.update sample_core sample_prover self sample_chunks sample_config []
     = (Raise KeyError, self, []).
Proof.
  intros self.
  apply (proj1 (@entry_with_missing_keys sample_core sample_prover self
                  sample_chunks sample_config []) [("chunks", sample_chunks)]);
    reflexivity.
Defined.

(** ** Running without a cache directory *)

(** X10: without a cache directory, [annotate_chunks] works on a fresh
    empty entry: it calls the prover exactly once, whatever was computed
    before, touches no file, and returns the annotation of the prover or
    the exception it raised. *)
Theorem without_cache_directory_the_prover_always_runs `{Core} `{Prover}
    (cache_compression : option string) (lang : string)
    (chunks : value) (kwargs : dict) (w : world) (calls : list (value * dict)) :
  exists outcome,
    annotate_with_cache None cache_compression lang chunks (VDict kwargs) w calls
    = (outcome, w, calls ++ [(chunks, kwargs)])
    /\ (forall e, annotate chunks kwargs = Raise e -> outcome = Raise e)
    /\ (forall result info entry,
          annotate chunks kwargs = Ok result -> version_info = Ok info ->
          Cache.put (Cache.init VNone VNone) chunks (VDict kwargs) result info = Ok entry ->
          outcome = Ok result).
Proof.
  unfold annotate_with_cache, Cache.update. rewrite get_of_empty.
  destruct (annotate chunks kwargs) as [result|e] eqn:Hannotate.
  - destruct version_info as [info|e] eqn:Hinfo.
    + destruct (Cache.put _ chunks (VDict kwargs) result info) as [entry|e] eqn:Hput.
      * eexists. split; [reflexivity|]. split; [discriminate|].
        intros result' info' entry' [= <-] _ _. reflexivity.
      * eexists. split; [reflexivity|]. split; [discriminate|].
        intros result' info' entry' Hr Hi Hp. congruence.
    + eexists. split; [reflexivity|]. split; discriminate.
  - eexists. split; [reflexivity|]. split; [intros e' [= <-]; reflexivity|discriminate].
Qed.

Lemma without_cache_directory_the_prover_always_runs_witness :
  exists outcome,
    @annotate_with_cache sample_core sample_prover None None "coq" sample_chunks
      sample_config sample_world [(sample_chunks, [("args", VList [])])]
    = (outcome, sample_world,
       [(sample_chunks, [("args", VList [])]); (sample_chunks, [("args", VList [])])])
    /\ outcome = Ok sample_annotated.
Proof.
  destruct (@without_cache_directory_the_prover_always_runs sample_core sample_prover
              None "coq" sample_chunks [("args", VList [])] sample_world
              [(sample_chunks, [("args", VList [])])]) as (outcome & Hrun & _ & Hok).
  exists outcome. split; [exact Hrun|].
  eapply Hok; reflexivity.
Defined.

(** ** What a write leaves on disk *)
Lemma known_compression (wanted : string) :
  dict_has wanted FileCacheSet.KNOWN_COMPRESSIONS = true <->
  wanted = "none" \/ wanted = "gzip" \/ wanted = "xz".
Proof.
  unfold dict_has, FileCacheSet.KNOWN_COMPRESSIONS. simpl.
  destruct (String.eqb_spec wanted "none") as [->|Hn]; [tauto|].
  destruct (String.eqb_spec wanted "gzip") as [->|Hg]; [tauto|].
  destruct (String.eqb_spec wanted "xz") as [->|Hx]; [tauto|].
  split; [discriminate|]. intros [?|[?|?]]; contradiction.
Qed.

Lemma delete_old_caches_files (w : world) :
  files (FileCacheSet._delete_old_caches w)
  = delete ".xz" (delete ".gz" (delete "" (files w))).
Proof.
  unfold FileCacheSet._delete_old_caches, FileCacheSet.KNOWN_COMPRESSIONS. simpl.
  destruct (files w !! "") eqn:Hnone; simpl.
  - destruct (delete "" (files w) !! ".gz") eqn:Hgz; simpl.
    + destruct (delete ".gz" (delete "" (files w)) !! ".xz") eqn:Hxz; simpl; [reflexivity|].
      rewrite (delete_id _ _ Hxz). reflexivity.
    + rewrite (delete_id _ _ Hgz).
      destruct (delete "" (files w) !! ".xz") eqn:Hxz; simpl; [reflexivity|].
      rewrite (delete_id _ _ Hxz). reflexivity.
  - rewrite (delete_id _ _ Hnone).
    destruct (files w !! ".gz") eqn:Hgz; simpl.
    + destruct (delete ".gz" (files w) !! ".xz") eqn:Hxz; simpl; [reflexivity|].
      rewrite (delete_id _ _ Hxz). reflexivity.
    + rewrite (delete_id _ _ Hgz).
      destruct (files w !! ".xz") eqn:Hxz; simpl; [reflexivity|].
      rewrite (delete_id _ _ Hxz). reflexivity.
Qed.

Lemma force_write_files (self : FileCacheSet.t) (doc : value) (w : world) :
  files (snd (FileCacheSet._force_write self doc w))
  = <[FileCacheSet.extension (FileCacheSet.wanted_compression self)
      := FileCacheSet.json_document doc]>
      (delete ".xz" (delete ".gz" (delete "" (files w)))).
Proof.
  unfold FileCacheSet._force_write. simpl. rewrite delete_old_caches_files. reflexivity.
Qed.

Lemma read_after_write (self : FileCacheSet.t) (doc : value) (w : world) tr :
  dict_has (FileCacheSet.wanted_compression self) FileCacheSet.KNOWN_COMPRESSIONS = true ->
  FileCacheSet._read (World (files (snd (FileCacheSet._force_write self doc w))) tr)
  = (Some (FileCacheSet.wanted_compression self), FileCacheSet.json_document doc).
Proof.
  intros Hknown. apply known_compression in Hknown.
  unfold FileCacheSet._read. cbn [files]. rewrite force_write_files.
  unfold FileCacheSet.KNOWN_COMPRESSIONS. simpl omap.
  destruct Hknown as [Hw | [Hw | Hw]]; rewrite Hw; simpl.
  - rewrite lookup_insert_eq. reflexivity.
  - rewrite lookup_insert_ne by discriminate.
    rewrite lookup_delete_ne by discriminate.
    rewrite lookup_delete_ne by discriminate.
    rewrite lookup_delete_eq. simpl.
    rewrite lookup_insert_eq. reflexivity.
  - rewrite lookup_insert_ne by discriminate.
    rewrite lookup_delete_ne by discriminate.
    rewrite lookup_delete_ne by discriminate.
    rewrite lookup_delete_eq. simpl.
    rewrite lookup_insert_ne by discriminate.
    rewrite lookup_delete_ne by discriminate.
    rewrite lookup_delete_eq. simpl.
    rewrite lookup_insert_eq. reflexivity.
Qed.

(** X11: after [_force_write] exactly one of the three variants of the
    cache file exists, the one of the requested compression, holding the
    document written; other files are untouched; and [_read] then finds
    that variant and loads that document. *)
Theorem write_leaves_one_variant (self : FileCacheSet.t) (doc : value) (w : world) :
  dict_has (FileCacheSet.wanted_compression self) FileCacheSet.KNOWN_COMPRESSIONS = true ->
  let ext := FileCacheSet.extension (FileCacheSet.wanted_compression self) in
  let written := snd (FileCacheSet._force_write self doc w) in
  (forall e, e ∈ ["" ; ".gz"; ".xz"] ->
     files written !! e
     = if String.eqb e ext then Some (FileCacheSet.json_document doc) else None)
  /\ (forall p, p ∉ [""; ".gz"; ".xz"] -> files written !! p = files w !! p)
  /\ FileCacheSet._read written
     = (Some (FileCacheSet.wanted_compression self), FileCacheSet.json_document doc).
Proof.
  intros Hknown ext written. split; [|split].
  - intros e He. unfold written. rewrite force_write_files. fold ext.
    destruct (String.eqb_spec e ext) as [->|Hne]; [apply lookup_insert_eq|].
    rewrite lookup_insert_ne by congruence.
    apply list_elem_of_In in He. simpl in He.
    destruct He as [<-|[<-|[<-|[]]]].
    + rewrite lookup_delete_ne by discriminate.
      rewrite lookup_delete_ne by discriminate. apply lookup_delete_eq.
    + rewrite lookup_delete_ne by discriminate. apply lookup_delete_eq.
    + apply lookup_delete_eq.
  - intros p Hp. unfold written. rewrite force_write_files. fold ext.
    assert (ext ∈ [""; ".gz"; ".xz"]) as Hext.
    { unfold ext. apply known_compression in Hknown as [Hw | [Hw | Hw]]; rewrite Hw;
        apply list_elem_of_In; simpl; auto. }
    rewrite lookup_insert_ne by (intros <-; contradiction).
    rewrite !lookup_delete_ne; [reflexivity|..];
      intros <-; apply Hp, list_elem_of_In; simpl; auto.
  - unfold written. destruct (FileCacheSet._force_write self doc w) as [self' w'] eqn:Hw.
    pose proof (read_after_write self doc w (trace w') Hknown) as Hread.
    rewrite Hw in Hread. simpl in *. destruct w'. exact Hread.
Qed.

Lemma write_leaves_one_variant_witness :
  let self := FileCacheSet.Build "doc.v.cache" "gzip" (Some "none")
                (VDict sample_file) [("coq", sample_entry)] in
  let written := snd (FileCacheSet._force_write self (FileCacheSet.snapshot self) sample_world) in
  files written !! "" = None
  /\ FileCacheSet._read written
     = (Some "gzip", FileCacheSet.json_document (FileCacheSet.snapshot self)).
Proof.
  intros self written.
  destruct (write_leaves_one_variant self (FileCacheSet.snapshot self) sample_world eq_refl)
    as (Hvariants & _ & Hread).
  split; [|exact Hread].
  apply (Hvariants ""). apply list_elem_of_here.
Defined.

Lemma wanted_of_known (wanted : string) :
  dict_has wanted FileCacheSet.KNOWN_COMPRESSIONS = true ->
  wanted = (if String.eqb wanted "" then "none" else wanted).
Proof.
  intros Hknown. apply known_compression in Hknown as [Hw | [Hw | Hw]]; rewrite Hw;
    reflexivity.
Qed.

Lemma wf_entries `{Core} (caches : list (string * Cache.t)) :
  NoDup (keys caches) ->
  Forall (fun e => wf (Cache.data (snd e)) = true) caches ->
  wf (VDict (map (fun e => (fst e, Cache.normalize (Cache.data (snd e))))
                 (sorted_items caches))) = true.
Proof.
  intros Hnd Hwf. simpl. apply andb_true_iff. split.
  - apply bool_decide_eq_true_2. rewrite keys_map_items by reflexivity.
    apply sorted_items_nodup, Hnd.
  - apply forallb_Forall, Forall_map. simpl.
    rewrite sorted_items_perm. eapply Forall_impl; [exact Hwf|].
    intros e He. apply wf_normalize, He.
Qed.

(** X12: a cache file that was just written is stable: opening a file
    set on it with the same compression loads the entries that were
    written, each with its data as JSON returns it, and closing that set
    writes nothing. *)
Theorem written_cache_reopens_unchanged `{Core}
    (self : FileCacheSet.t) (w : world) (rel_file : string) :
  let wanted := FileCacheSet.wanted_compression self in
  dict_has wanted FileCacheSet.KNOWN_COMPRESSIONS = true ->
  NoDup (keys (FileCacheSet.caches self)) ->
  Forall (fun e => wf (Cache.data (snd e)) = true) (FileCacheSet.caches self) ->
  let written := snd (FileCacheSet._force_write self (FileCacheSet.snapshot self) w) in
  let opened := World (files written) (trace written ++ [Makedirs]) in
  exists again,
    FileCacheSet.init rel_file (Some wanted) written = (Ok again, opened)
    /\ map (fun e => (fst e, Cache.data (snd e))) (FileCacheSet.caches again)
       = map (fun e => (fst e, Cache.normalize (Cache.data (snd e))))
             (sorted_items (FileCacheSet.caches self))
    /\ FileCacheSet.exit again opened = (again, opened).
Proof.
  intros wanted Hknown Hnd Hwf written opened.
  set (entries := map (fun e => (fst e, Cache.normalize (Cache.data (snd e))))
                      (sorted_items (FileCacheSet.caches self))).
  set (d := [("metadata", FileCacheSet.METADATA); ("caches", VDict entries)]).
  assert (FileCacheSet.json_document (FileCacheSet.snapshot self) = VDict d) as Hdoc.
  { unfold FileCacheSet.json_document, FileCacheSet.snapshot, d, entries. simpl.
    rewrite map_map. reflexivity. }
  assert (sorted_items entries = entries) as Hsorted.
  { unfold entries. rewrite sorted_items_map by reflexivity.
    rewrite sorted_items_idemp. reflexivity. }
  destruct (init_on_current_file written rel_file (Some wanted) wanted d entries)
    as (again & Hinit & Hjs & Hdisk & Hcaches & Heq).
  - simpl. apply wanted_of_known, Hknown.
  - unfold written. rewrite (read_after_write self _ w _ Hknown), Hdoc. reflexivity.
  - unfold d. change (wf (VDict [("metadata", FileCacheSet.METADATA); ("caches", VDict entries)]))
      with (true && (true && (wf (VDict entries) && true))).
    simpl andb. rewrite andb_true_r. apply wf_entries; assumption.
  - reflexivity.
  - reflexivity.
  - reflexivity.
  - exists again. split; [exact Hinit|]. split.
    + rewrite Hcaches, Hsorted, map_map. simpl. unfold entries.
      rewrite map_map. simpl. apply map_ext. intros [k c]. reflexivity.
    + apply exit_unchanged; assumption.
Qed.

Lemma written_cache_reopens_unchanged_witness :
  let self := FileCacheSet.Build "doc.v.cache" "gzip" (Some "none")
                (VDict sample_file) [("coq", sample_entry)] in
  let written := snd (FileCacheSet._force_write self (FileCacheSet.snapshot self) sample_world) in
  let opened := World (files written) (trace written ++ [Makedirs]) in
  exists again,
    @FileCacheSet.init "doc.v.cache" (Some "gzip") written = (Ok again, opened)
    /\ map (fun e => (fst e, Cache.data (snd e))) (FileCacheSet.caches again)
       = [("coq", Cache.data sample_entry)]
    /\ FileCacheSet.exit again opened = (again, opened).
Proof.
  intros self written opened.
  assert (NoDup (keys (FileCacheSet.caches self))) as Hnd
    by (apply (bool_decide_unpack _); vm_compute; exact I).
  assert (Forall (fun e => @wf sample_core (Cache.data (snd e)) = true)
                 (FileCacheSet.caches self)) as Hwf
    by (repeat constructor).
  exact (@written_cache_reopens_unchanged sample_core self sample_world "doc.v.cache"
           eq_refl Hnd Hwf).
Defined.

(** ** Cache files of another version *)
Lemma py_eq_metadata_sym m :
  py_eq FileCacheSet.METADATA m = true -> py_eq m FileCacheSet.METADATA = true.
Proof.
  unfold FileCacheSet.METADATA. intros Hm.
  destruct m as [| | | | |d|]; try discriminate.
  destruct d as [|[k v] [|? ?]]; try discriminate. cbn -[String.eqb] in Hm.
  destruct (String.eqb_spec "cache_version" k) as [<-|]; [|discriminate].
  destruct v; try discriminate. cbn -[String.eqb] in Hm.
  rewrite !andb_true_r in Hm. apply String.eqb_eq in Hm as <-. reflexivity.
Qed.

Lemma py_eq_dict_cons k x r d' :
  py_eq (VDict ((k, x) :: r)) (VDict d')
  = Nat.eqb (length ((k, x) :: r)) (length d')
    && (match dict_get k d' with Some y => py_eq x y | None => false end
        && items_within py_eq r d').
Proof. reflexivity. Qed.

(** X13: a cache file whose metadata is not the current one is ignored
    when the set is opened (no entry is loaded), and replaced when the set
    is closed: the existing variants are unlinked and a file with the
    current metadata is written under the requested compression, holding
    only the entries of this run. *)
Theorem outdated_cache_file_is_replaced
    (w : world) (rel_file : string) (cache_compression : option string)
    (wanted compression : string) (d : dict) (metadata : value) :
  wanted = match cache_compression with
           | Some c => if String.eqb c "" then "none" else c
           | None => "none"
           end ->
  dict_has wanted FileCacheSet.KNOWN_COMPRESSIONS = true ->
  let opened := World (files w) (trace w ++ [Makedirs]) in
  FileCacheSet._read opened = (Some compression, VDict d) ->
  dict_get "metadata" d = Some metadata ->
  py_eq metadata FileCacheSet.METADATA = false ->
  let fresh := VDict [("metadata", FileCacheSet.METADATA); ("caches", VDict [])] in
  exists self unlinked,
    FileCacheSet.init rel_file cache_compression w = (Ok self, opened)
    /\ FileCacheSet.caches self = []
    /\ trace (snd (FileCacheSet.exit self opened))
       = trace opened ++ unlinked ++ [WriteFile (FileCacheSet.extension wanted) fresh]
    /\ Forall (fun ev => exists ext, ev = Unlink ext) unlinked
    /\ FileCacheSet._read (snd (FileCacheSet.exit self opened)) = (Some wanted, fresh).
Proof.
  intros Hwanted Hknown opened Hread Hmeta Hold fresh.
  assert (truthy (VDict d) = true) as Htruthy
    by (destruct d; [discriminate|reflexivity]).
  set (self := FileCacheSet.Build rel_file wanted (Some compression) (VDict d) []).
  assert (FileCacheSet.init rel_file cache_compression w = (Ok self, opened)) as Hinit.
  { unfold FileCacheSet.init. rewrite <- Hwanted, Hknown. simpl negb. cbv iota.
    fold opened. rewrite Hread. unfold FileCacheSet._validate. rewrite Htruthy.
    simpl. rewrite Hmeta. simpl. unfold validate_detailed. rewrite Hold. reflexivity. }
  assert (py_eq (FileCacheSet.snapshot self) (FileCacheSet.js self) = false) as Hdiff.
  { unfold FileCacheSet.snapshot, self.
    cbn [FileCacheSet.caches FileCacheSet.js sorted_items map].
    rewrite py_eq_dict_cons, Hmeta.
    destruct (py_eq FileCacheSet.METADATA metadata) eqn:Hsym.
    - apply py_eq_metadata_sym in Hsym. congruence.
    - cbn [andb]. apply andb_false_r. }
  assert (FileCacheSet.exit self opened
          = FileCacheSet._force_write self (FileCacheSet.snapshot self) opened) as Hexit.
  { unfold FileCacheSet.exit, FileCacheSet._write. rewrite Hdiff. reflexivity. }
  destruct (delete_old_caches_trace opened) as (unlinked & Htrace & Hunlinked).
  exists self, unlinked. split; [exact Hinit|]. split; [reflexivity|].
  rewrite Hexit. split; [|split; [exact Hunlinked|]].
  - unfold FileCacheSet._force_write. simpl. rewrite Htrace, <- app_assoc. reflexivity.
  - destruct (FileCacheSet._force_write self (FileCacheSet.snapshot self) opened)
      as [self' closed] eqn:Hclosed.
    pose proof (read_after_write self (FileCacheSet.snapshot self) opened (trace closed) Hknown)
      as Hback.
    rewrite Hclosed in Hback. simpl in Hback. destruct closed. exact Hback.
Qed.

Lemma outdated_cache_file_is_replaced_witness :
  let old := VDict [("metadata", VDict [("cache_version", VStr "1")]);
                    ("caches", VDict [("coq", Cache.data sample_entry)])] in
  let w := World {[ ".xz" := old ]} [] in
  let opened := World (files w) [Makedirs] in
  let fresh := VDict [("metadata", FileCacheSet.METADATA); ("caches", VDict [])] in
  exists self unlinked,
    FileCacheSet.init "doc.v.cache" None w = (Ok self, opened)
    /\ FileCacheSet.caches self = []
    /\ trace (snd (FileCacheSet.exit self opened))
       = trace opened ++ unlinked ++ [WriteFile "" fresh]
    /\ Forall (fun ev => exists ext, ev = Unlink ext) unlinked
    /\ FileCacheSet._read (snd (FileCacheSet.exit self opened)) = (Some "none", fresh).
Proof.
  intros old w opened fresh.
  exact (outdated_cache_file_is_replaced w "doc.v.cache" None "none" "xz"
           [("metadata", VDict [("cache_version", VStr "1")]);
            ("caches", VDict [("coq", Cache.data sample_entry)])]
           (VDict [("cache_version", VStr "1")])
           eq_refl eq_refl eq_refl eq_refl eq_refl).
Defined.

(** ** Malformed cache files *)

(** X14: a cache file that holds a non-empty document of the wrong
    shape (no ["metadata"], or current metadata and no dictionary under
    ["caches"]) makes the constructor of the file set raise; the exception
    leaves [annotate_chunks] before the prover is called, and nothing is
    written. *)
Theorem malformed_cache_file_aborts_annotation `{Core} `{Prover}
    (w : world) (rel_file : string) (cache_compression : option string)
    (wanted compression lang : string) (doc chunks config : value)
    (calls : list (value * dict)) (e : pyerr) :
  wanted = match cache_compression with
           | Some c => if String.eqb c "" then "none" else c
           | None => "none"
           end ->
  dict_has wanted FileCacheSet.KNOWN_COMPRESSIONS = true ->
  let opened := World (files w) (trace w ++ [Makedirs]) in
  FileCacheSet._read opened = (Some compression, doc) ->
  truthy doc = true ->
  subscript doc "metadata" = Raise e
  \/ (exists metadata,
        subscript doc "metadata" = Ok metadata
        /\ py_eq metadata FileCacheSet.METADATA = true
        /\ (subscript doc "caches" ≫= FileCacheSet.items) = Raise e) ->
  fst (FileCacheSet.init rel_file cache_compression w) = Raise e
  /\ annotate_with_cache (Some rel_file) cache_compression lang chunks config w calls
     = (Raise e, opened, calls).
Proof.
  intros Hwanted Hknown opened Hread Htruthy Hshape.
  assert (FileCacheSet.init rel_file cache_compression w = (Raise e, opened)) as Hinit.
  { unfold FileCacheSet.init. rewrite <- Hwanted, Hknown. simpl negb. cbv iota.
    fold opened. rewrite Hread. unfold FileCacheSet._validate. rewrite Htruthy.
    destruct Hshape as [Hmeta|(metadata & Hmeta & Hcurrent & Hcaches)].
    - rewrite Hmeta. reflexivity.
    - rewrite Hmeta. simpl. unfold validate_detailed. rewrite Hcurrent.
      destruct (subscript doc "caches") as [stored|e'] eqn:Hstored; simpl in *.
      + rewrite Hcaches. reflexivity.
      + injection Hcaches as ->. reflexivity. }
  split; [rewrite Hinit; reflexivity|].
  unfold annotate_with_cache. rewrite Hinit. reflexivity.
Qed.

Lemma malformed_cache_file_aborts_annotation_witness :
  let w := World {[ "" := VList [VInt 1] ]} [] in
  @annotate_with_cache sample_core sample_prover (Some "doc.v.cache") None "coq"
    sample_chunks sample_config w []
  = (Raise TypeError, World (files w) [Makedirs], []).
Proof.
  intros w.
  apply (proj2 (@malformed_cache_file_aborts_annotation sample_core sample_prover
                  w "doc.v.cache" None "none" "none" "coq" (VList [VInt 1])
                  sample_chunks sample_config [] TypeError
                  eq_refl eq_refl eq_refl eq_refl (or_introl eq_refl))).
Defined.

(** ** The requested compression *)

(** X15: the constructor of [FileCacheSet] accepts the compressions
    ["none"], ["gzip"] and ["xz"] (and no compression at all) and raises
    [ValueError] with the name of any other one before it creates the
    directory; with an accepted compression it creates the directory
    and changes no file. *)
Theorem compression_is_checked_before_anything
    (rel_file : string) (cache_compression : option string) (w : world) :
  let wanted := match cache_compression with
                | Some c => if String.eqb c "" then "none" else c
                | None => "none"
                end in
  (wanted <> "none" -> wanted <> "gzip" -> wanted <> "xz" ->
   FileCacheSet.init rel_file cache_compression w
   = (Raise (ValueError ("Unsupported cache compression: " +:+ wanted)), w)) /\
  (wanted = "none" \/ wanted = "gzip" \/ wanted = "xz" ->
   snd (FileCacheSet.init rel_file cache_compression w)
   = World (files w) (trace w ++ [Makedirs])).
Proof.
  intros wanted. split.
  - intros Hn Hg Hx.
    assert (dict_has wanted FileCacheSet.KNOWN_COMPRESSIONS = false) as Hunknown.
    { destruct (dict_has wanted FileCacheSet.KNOWN_COMPRESSIONS) eqn:Hk; [|reflexivity].
      apply known_compression in Hk. tauto. }
    unfold FileCacheSet.init. fold wanted. rewrite Hunknown. simpl negb. cbv iota.
    do 3 f_equal. unfold wanted in *.
    destruct cache_compression as [c|]; [|congruence].
    destruct (String.eqb c ""); [congruence|reflexivity].
  - intros Hk. apply known_compression in Hk.
    unfold FileCacheSet.init. fold wanted. rewrite Hk. simpl negb. cbv iota.
    destruct (FileCacheSet._read _) as [ondisk loaded]. reflexivity.
Qed.

Lemma compression_is_checked_before_anything_witness :
  FileCacheSet.init "doc.v.cache" (Some "bzip2") sample_world
  = (Raise (ValueError "Unsupported cache compression: bzip2"), sample_world)
  /\ snd (FileCacheSet.init "doc.v.cache" (Some "gzip") sample_world)
     = World (files sample_world) [Makedirs].
Proof.
  split.
  - apply (proj1 (compression_is_checked_before_anything "doc.v.cache"
                    (Some "bzip2") sample_world)); discriminate.
  - apply (proj2 (compression_is_checked_before_anything "doc.v.cache"
                    (Some "gzip") sample_world)). right. left. reflexivity.
Defined.

(** ** Looking up a language *)
Lemma dict_get_set_eq {A} k (x : A) d : dict_get k (dict_set k x d) = Some x.
Proof.
  induction d as [|[k' y] r IH]; simpl.
  - rewrite String.eqb_refl. reflexivity.
  - destruct (String.eqb k k') eqn:Hk; simpl; rewrite Hk; [reflexivity|exact IH].
Qed.

Lemma dict_get_set_ne {A} k k' (x : A) d :
  k' <> k -> dict_get k' (dict_set k x d) = dict_get k' d.
Proof.
  intros Hne. induction d as [|[k0 y] r IH]; simpl.
  - destruct (String.eqb_spec k' k); [contradiction|reflexivity].
  - destruct (String.eqb_spec k k0) as [<-|Hk]; simpl.
    + destruct (String.eqb_spec k' k); [contradiction|reflexivity].
    + destruct (String.eqb k' k0); [reflexivity|exact IH].
Qed.

(** X16: [caches[lang]] returns the entry loaded or registered for
    [lang]; for a language without one it registers an empty entry, after
    the existing ones; a second lookup returns the same entry and changes
    nothing; and the entries of the other languages are untouched. *)
Theorem getitem_registers_an_entry_once (self : FileCacheSet.t) (lang : string) :
  let looked := FileCacheSet.getitem self lang in
  FileCacheSet.getitem (snd looked) lang = looked
  /\ (forall c, dict_get lang (FileCacheSet.caches self) = Some c -> looked = (c, self))
  /\ (dict_get lang (FileCacheSet.caches self) = None ->
      fst looked = Cache.init VNone (VStr (FileCacheSet.cache_rel_file self))
      /\ FileCacheSet.caches (snd looked)
         = FileCacheSet.caches self ++ [(lang, fst looked)])
  /\ (forall other, other <> lang ->
      dict_get other (FileCacheSet.caches (snd looked))
      = dict_get other (FileCacheSet.caches self)).
Proof.
  intros looked. unfold looked, FileCacheSet.getitem.
  destruct (dict_get lang (FileCacheSet.caches self)) as [c|] eqn:Hc; simpl.
  - rewrite Hc. repeat split; try reflexivity.
    + intros c' [= <-]. reflexivity.
    + discriminate.
    + discriminate.
  - rewrite dict_get_set_eq. split; [reflexivity|]. split; [discriminate|]. split.
    + intros _. split; [reflexivity|]. apply dict_set_fresh, dict_get_None, Hc.
    + intros other Hne. apply dict_get_set_ne, Hne.
Qed.

Lemma getitem_registers_an_entry_once_witness :
  let self := FileCacheSet.Build "doc.v.cache" "none" (Some "none")
                (VDict sample_file) [("coq", sample_entry)] in
  FileCacheSet.getitem self "coq" = (sample_entry, self)
  /\ FileCacheSet.caches (snd (FileCacheSet.getitem self "lean3"))
     = [("coq", sample_entry); ("lean3", fst (FileCacheSet.getitem self "lean3"))].
Proof.
  intros self. split.
  - apply (proj1 (proj2 (getitem_registers_an_entry_once self "coq"))). reflexivity.
  - apply (proj1 (proj2 (proj2 (getitem_registers_an_entry_once self "lean3")))).
    reflexivity.
Defined.

(** ** Two runs on the same document *)
Lemma mapR_items_keys {A B} (f : A -> result B) d :
  forall ws, mapR_items f d = Ok ws -> keys ws = keys d.
Proof.
  induction d as [|[k x] r IH]; simpl; intros ws Hws.
  - injection Hws as <-. reflexivity.
  - destruct (f x); simpl in Hws; [|discriminate].
    destruct (mapR_items f r) as [ws'|]; simpl in Hws; [|discriminate].
    injection Hws as <-. simpl. f_equal. apply IH. reflexivity.
Qed.

Lemma mapR_same_length {A B} (f : A -> result B) l :
  forall ws, mapR f l = Ok ws -> length ws = length l.
Proof.
  induction l as [|x r IH]; simpl; intros ws Hws.
  - injection Hws as <-. reflexivity.
  - destruct (f x); simpl in Hws; [|discriminate].
    destruct (mapR f r) as [ws'|]; simpl in Hws; [|discriminate].
    injection Hws as <-. simpl. f_equal. apply IH. reflexivity.
Qed.

Lemma store_fields_inv (enc : value -> result value) vs :
  forall ks d0 d, length ks = length vs ->
    PlainSerializer.store_fields enc ks vs d0 = Ok d ->
    exists ws, mapR enc vs = Ok ws.
Proof.
  induction vs as [|v vs IH]; intros ks d0 d Hlen Hd; simpl in *; [eauto|].
  destruct ks as [|k ks]; [discriminate|].
  destruct (enc v) as [w|]; simpl in *; [|discriminate].
  destruct (IH ks _ d ltac:(lia) Hd) as (ws & ->). simpl. eauto.
Qed.

Lemma Forall_zip_snd {A} (Q : A -> Prop) (ks : list string) (ws : list A) :
  Forall Q ws -> Forall (fun kv => Q (snd kv)) (zip ks ws).
Proof.
  intros Hws. revert ks. induction Hws as [|w ws Hw _ IH]; intros [|k ks]; simpl;
    constructor; auto.
Qed.

Lemma plain_encode_wf `{Core} v :
  wf v = true -> forall w, PlainSerializer.encode v = Ok w -> wf w = true.
Proof.
  induction v as [| | |l IH|l IH|d IH|t l IH] using value_ind; simpl; intros Hwf w Hw;
    try (injection Hw as <-; reflexivity); try discriminate.
  - destruct (mapR PlainSerializer.encode l) as [ws|] eqn:Hws; simpl in Hw; [|discriminate].
    injection Hw as <-. simpl. apply forallb_Forall.
    apply (mapR_Forall (fun w => wf w = true) PlainSerializer.encode l); [|exact Hws].
    apply forallb_Forall in Hwf. apply (Forall_impl2 _ _ _ _ IH Hwf). auto.
  - apply andb_true_iff in Hwf as [Hnd Hwf].
    destruct (assert _); simpl in Hw; [|discriminate].
    destruct (mapR_items PlainSerializer.encode d) as [ws|] eqn:Hws; simpl in Hw; [|discriminate].
    injection Hw as <-. simpl. apply andb_true_iff. split.
    + rewrite (mapR_items_keys _ _ _ Hws). exact Hnd.
    + apply forallb_Forall.
      apply (mapR_items_Forall (fun w => wf w = true) PlainSerializer.encode d); [|exact Hws].
      apply forallb_Forall in Hwf. apply (Forall_impl2 _ _ _ _ IH Hwf). auto.
  - apply andb_true_iff in Hwf as [Hlen Hwf]. apply Nat.eqb_eq in Hlen.
    destruct (PlainSerializer.store_fields _ _ _ _) as [d|] eqn:Hd; simpl in Hw; [|discriminate].
    injection Hw as <-.
    destruct (store_fields_inv _ _ _ _ _ (eq_sym Hlen) Hd) as (ws & Hws).
    rewrite (store_fields_spec _ (fields t) l ws [("_type", VStr (alias_of_type t))]
               Hws (eq_sym Hlen) (fields_nodup t)) in Hd.
    2: { intros k Hk Hin. apply list_elem_of_singleton in Hin as ->.
         exact (type_key_not_field t Hk). }
    injection Hd as <-.
    pose proof (mapR_same_length _ _ _ Hws) as Hlen'.
    simpl. apply andb_true_iff. split.
    + apply bool_decide_eq_true_2. rewrite keys_zip by congruence.
      constructor; [apply type_key_not_field|apply fields_nodup].
    + apply forallb_Forall, (Forall_zip_snd (fun w => wf w = true)).
      apply (mapR_Forall (fun w => wf w = true) PlainSerializer.encode l); [|exact Hws].
      apply forallb_Forall in Hwf. apply (Forall_impl2 _ _ _ _ IH Hwf). auto.
Qed.

Lemma wf_strings `{Core} (l : list string) : wf (VList (VStr <$> l)) = true.
Proof. simpl. induction l as [|s l IH]; [reflexivity|exact IH]. Qed.

Lemma annotate_on_loaded_entry `{Core} `{Prover}
    (w : world) rel_file cache_compression wanted d entries lang data
    chunks config calls outcome calls' :
  wanted = match cache_compression with
           | Some c => if String.eqb c "" then "none" else c
           | None => "none"
           end ->
  FileCacheSet._read (World (files w) (trace w ++ [Makedirs])) = (Some wanted, VDict d) ->
  wf (VDict d) = true -> length d = 2%nat ->
  dict_get "metadata" d = Some FileCacheSet.METADATA ->
  dict_get "caches" d = Some (VDict entries) ->
  dict_get lang entries = Some data ->
  Cache.update (Cache.init data (VStr rel_file)) chunks config calls
  = (outcome, Cache.init data (VStr rel_file), calls') ->
  annotate_with_cache (Some rel_file) cache_compression lang chunks config w calls
  = (outcome, World (files w) (trace w ++ [Makedirs]), calls').
Proof.
  intros Hwanted Hread Hwf Hlen Hmeta Hcaches Hlang Hupdate.
  destruct (init_on_current_file w rel_file cache_compression wanted d entries
              Hwanted Hread Hwf Hlen Hmeta Hcaches)
    as (self & Hinit & _ & Hcompression & Hloaded & Hsame).
  assert (NoDup (keys entries)) as Hnd.
  { pose proof (wf_dict_get d "caches" _ Hwf Hcaches) as Hwf_entries.
    simpl in Hwf_entries. apply andb_true_iff in Hwf_entries as [Hnd _].
    apply bool_decide_eq_true in Hnd. exact Hnd. }
  assert (dict_get lang (FileCacheSet.caches self)
          = Some (Cache.init data (VStr rel_file))) as Hentry.
  { rewrite Hloaded.
    rewrite (dict_get_loaded (fun data => Cache.init data (VStr rel_file)))
      by exact Hnd.
    rewrite Hlang. reflexivity. }
  unfold annotate_with_cache. rewrite Hinit.
  unfold FileCacheSet.getitem. rewrite Hentry, Hupdate.
  assert (FileCacheSet.store self lang (Cache.init data (VStr rel_file)) = self) as ->.
  { unfold FileCacheSet.store. rewrite (dict_set_same _ _ _ Hentry).
    destruct self; reflexivity. }
  rewrite (exit_unchanged self _ Hsame Hcompression). reflexivity.
Qed.

(** X17: two runs of [annotate_chunks] on the same chunks with the same
    configuration, starting without a cache file.  The first calls the
    prover once and writes a cache file under the requested compression;
    the second returns the same annotation from that file, without calling
    the prover and without writing anything. *)
Theorem second_run_is_served_from_the_cache_file `{Core} `{Prover}
    (w : world) (rel_file : string) (cache_compression : option string)
    (wanted lang : string) (lines : list string) (kwargs : dict) (result info : value) :
  wanted = match cache_compression with
           | Some c => if String.eqb c "" then "none" else c
           | None => "none"
           end ->
  dict_has wanted FileCacheSet.KNOWN_COMPRESSIONS = true ->
  files w !! "" = None -> files w !! ".gz" = None -> files w !! ".xz" = None ->
  let chunks := VList (VStr <$> lines) in
  let config := VDict kwargs in
  wf config = true -> wf info = true ->
  annotate chunks kwargs = Ok result -> version_info = Ok info ->
  result <> VNone ->
  wf result = true -> serializable result = true -> avoids ["_type"] result = true ->
  exists first,
    annotate_with_cache (Some rel_file) cache_compression lang chunks config w []
    = (Ok result, first, [(chunks, kwargs)])
    /\ (exists document, files first !! FileCacheSet.extension wanted = Some document)
    /\ annotate_with_cache (Some rel_file) cache_compression lang chunks config first
         [(chunks, kwargs)]
       = (Ok result, World (files first) (trace first ++ [Makedirs]), [(chunks, kwargs)]).
Proof.
  intros Hwanted Hknown Hnone Hgz Hxz chunks config Hwf_config Hwf_info Hann Hinfo Hsome
    Hwf Hser Hav. subst chunks config.
  destruct (plain_roundtrip result Hwf Hser Hav) as (a & Henc & Hdec).
  set (stored := [("generator", Cache.normalize info);
                  ("config", Cache.normalize (VDict kwargs));
                  ("chunks", (VList (VStr <$> lines))); ("annotated", a)]).
  set (entry := Cache.Build (VDict stored) (VStr rel_file)).
  set (opened := World (files w) (trace w ++ [Makedirs])).
  set (self := FileCacheSet.Build rel_file wanted None VNone [(lang, entry)]).
  set (first := snd (FileCacheSet._force_write self (FileCacheSet.snapshot self) opened)).
  assert (Cache.put (Cache.init VNone (VStr rel_file)) (VList (VStr <$> lines)) (VDict kwargs) result info = Ok entry)
    as Hput.
  { unfold Cache.put. simpl. rewrite Henc. reflexivity. }
  assert (Cache.get entry (VList (VStr <$> lines)) (VDict kwargs) = Ok result) as Hhit.
  { rewrite (get_of_populated entry stored (Cache.normalize (VDict kwargs))) by reflexivity.
    simpl default. rewrite normalize_strings.
    rewrite (py_eq_refl _ (wf_normalize _ Hwf_config)).
    rewrite (proj2 (py_eq_strings lines lines) eq_refl). exact Hdec. }
  assert (Cache.normalize (VDict stored) = VDict stored) as Hstable.
  { apply normalize_json_tree.
    change (json_tree (VDict stored))
      with (json_tree (Cache.normalize info)
            && (json_tree (Cache.normalize (VDict kwargs))
                && (json_tree (VList (VStr <$> lines)) && (json_tree a && true)))).
    rewrite !json_tree_normalize, (plain_encode_json _ _ Henc). cbn [andb].
    rewrite andb_true_r. simpl.
    clear. induction lines as [|s l IH]; [reflexivity|exact IH]. }
  exists first. split; [|split].
  - unfold annotate_with_cache.
    assert (FileCacheSet.init rel_file cache_compression w
            = (Ok (FileCacheSet.Build rel_file wanted None VNone []), opened)) as ->.
    { unfold FileCacheSet.init. rewrite <- Hwanted, Hknown. simpl negb. cbv iota.
      unfold FileCacheSet._read. simpl. rewrite Hnone, Hgz, Hxz. reflexivity. }
    unfold FileCacheSet.getitem. cbn [FileCacheSet.caches dict_get FileCacheSet.cache_rel_file].
    unfold Cache.update. rewrite get_of_empty, Hann, Hinfo, Hput.
    unfold FileCacheSet.store.
    cbn [FileCacheSet.caches dict_set FileCacheSet.cache_rel_file
         FileCacheSet.wanted_compression FileCacheSet.ondisk_compression FileCacheSet.js].
    rewrite String.eqb_refl. fold self.
    unfold FileCacheSet.exit, FileCacheSet._write.
    replace (negb (py_eq (FileCacheSet.snapshot self) (FileCacheSet.js self))
             || FileCacheSet._check_recompression self) with true by reflexivity.
    fold first.
    destruct (FileCacheSet._force_write self (FileCacheSet.snapshot self) opened) eqn:Hw.
    reflexivity.
  - unfold first. rewrite force_write_files. cbn [FileCacheSet.wanted_compression self].
    rewrite lookup_insert_eq. eauto.
  - apply (annotate_on_loaded_entry first rel_file cache_compression wanted
             [("metadata", FileCacheSet.METADATA); ("caches", VDict [(lang, VDict stored)])]
             [(lang, VDict stored)] lang (VDict stored)); try assumption; try reflexivity.
    + unfold first. cbn [files].
      rewrite (read_after_write self (FileCacheSet.snapshot self) opened _ Hknown).
      f_equal. unfold FileCacheSet.json_document, FileCacheSet.snapshot.
      cbn [FileCacheSet.caches self sorted_items insert_item map fst snd Cache.data entry].
      change (Cache.normalize
                (VDict [("metadata", FileCacheSet.METADATA);
                        ("caches", VDict [(lang, VDict stored)])]))
        with (VDict [("metadata", FileCacheSet.METADATA);
                     ("caches", VDict [(lang, Cache.normalize (VDict stored))])]).
      rewrite Hstable. reflexivity.
    + change (wf (VDict [("metadata", FileCacheSet.METADATA);
                         ("caches", VDict [(lang, VDict stored)])]))
        with (true && (true && (wf (VDict [(lang, VDict stored)]) && true))).
      cbn [andb]. rewrite andb_true_r.
      change (wf (VDict [(lang, VDict stored)]))
        with (bool_decide (NoDup [lang]) && (wf (VDict stored) && true)).
      rewrite (bool_decide_eq_true_2 (NoDup [lang])) by apply NoDup_singleton.
      cbn [andb]. rewrite andb_true_r.
      change (wf (VDict stored))
        with (true && (wf (Cache.normalize info)
                       && (wf (Cache.normalize (VDict kwargs)) && (wf (VList (VStr <$> lines)) && (wf a && true))))).
      rewrite (wf_normalize _ Hwf_info), (wf_normalize _ Hwf_config).
      rewrite wf_strings, (plain_encode_wf _ Hwf _ Henc). reflexivity.
    + cbn [dict_get]. rewrite String.eqb_refl. reflexivity.
    + change (Cache.init (VDict stored) (VStr rel_file)) with entry.
      apply update_on_hit; [exact Hhit|exact Hsome].
Qed.

Lemma second_run_is_served_from_the_cache_file_witness :
  let calls := [(sample_chunks, [("args", VList [])])] in
  exists first,
    @annotate_with_cache sample_core sample_prover (Some "doc.v.cache") (Some "xz") "coq"
      sample_chunks sample_config (World ∅ []) []
    = (Ok sample_annotated, first, calls)
    /\ (exists document, files first !! ".xz" = Some document)
    /\ @annotate_with_cache sample_core sample_prover (Some "doc.v.cache") (Some "xz") "coq"
         sample_chunks sample_config first calls
       = (Ok sample_annotated, World (files first) (trace first ++ [Makedirs]), calls).
Proof.
  intros calls.
  refine (@second_run_is_served_from_the_cache_file sample_core sample_prover
            (World ∅ []) "doc.v.cache" (Some "xz") "xz" "coq" sample_lines
            [("args", VList [])] sample_annotated
            (VTuple [VStr "Coq+SerAPI"; VStr "8.13.2"])
            eq_refl eq_refl eq_refl eq_refl eq_refl eq_refl eq_refl eq_refl eq_refl
            _ eq_refl eq_refl eq_refl).
  discriminate.
Defined.

(** ** Changing the compression *)
Lemma init_on_stored_file `{Core}
    (w : world) rel_file cache_compression wanted stored d entries :
  wanted = match cache_compression with
           | Some c => if String.eqb c "" then "none" else c
           | None => "none"
           end ->
  dict_has wanted FileCacheSet.KNOWN_COMPRESSIONS = true ->
  FileCacheSet._read (World (files w) (trace w ++ [Makedirs])) = (Some stored, VDict d) ->
  wf (VDict d) = true ->
  dict_get "metadata" d = Some FileCacheSet.METADATA ->
  dict_get "caches" d = Some (VDict entries) ->
  FileCacheSet.init rel_file cache_compression w
  = (Ok (FileCacheSet.Build rel_file wanted (Some stored) (VDict d)
           (map (fun e => (fst e, Cache.init (snd e) (VStr rel_file)))
                (sorted_items entries))),
     World (files w) (trace w ++ [Makedirs])).
Proof.
  intros Hwanted Hknown Hread Hwf Hmeta Hcaches.
  assert (NoDup (keys entries)) as Hnd.
  { pose proof (wf_dict_get d "caches" _ Hwf Hcaches) as Hwf_entries.
    simpl in Hwf_entries. apply andb_true_iff in Hwf_entries as [Hnd _].
    apply bool_decide_eq_true in Hnd. exact Hnd. }
  unfold FileCacheSet.init. rewrite <- Hwanted, Hknown. simpl negb. cbv iota.
  rewrite Hread. unfold FileCacheSet._validate.
  assert (truthy (VDict d) = true) as -> by (destruct d; [discriminate|reflexivity]).
  simpl. rewrite Hmeta, Hcaches. simpl.
  rewrite (foldl_dict_set (fun data => Cache.init data (VStr rel_file)));
    [reflexivity|apply sorted_items_nodup, Hnd|].
  intros k _. apply not_elem_of_nil.
Qed.

(** X18: opening a file set on a current cache file stored under
    another compression than the requested one, and closing it, moves the
    cache: the variant under the old compression is unlinked, the cache is
    written under the requested one with the entries it had, and no other
    variant is left. *)
Theorem changing_the_compression_moves_the_cache `{Core}
    (w : world) (rel_file : string) (cache_compression : option string)
    (wanted stored : string) (d entries : dict) :
  wanted = match cache_compression with
           | Some c => if String.eqb c "" then "none" else c
           | None => "none"
           end ->
  dict_has wanted FileCacheSet.KNOWN_COMPRESSIONS = true ->
  let opened := World (files w) (trace w ++ [Makedirs]) in
  FileCacheSet._read opened = (Some stored, VDict d) ->
  stored <> wanted ->
  wf (VDict d) = true ->
  dict_get "metadata" d = Some FileCacheSet.METADATA ->
  dict_get "caches" d = Some (VDict entries) ->
  let moved := VDict [("metadata", FileCacheSet.METADATA);
                      ("caches", VDict (map (fun e => (fst e, Cache.normalize (snd e)))
                                            (sorted_items entries)))] in
  exists self,
    FileCacheSet.init rel_file cache_compression w = (Ok self, opened)
    /\ (forall e, e ∈ [""; ".gz"; ".xz"] ->
        files (snd (FileCacheSet.exit self opened)) !! e
        = if String.eqb e (FileCacheSet.extension wanted) then Some moved else None)
    /\ FileCacheSet._read (snd (FileCacheSet.exit self opened)) = (Some wanted, moved).
Proof.
  intros Hwanted Hknown opened Hread Hdiff Hwf Hmeta Hcaches moved.
  eexists. split; [exact (init_on_stored_file w rel_file cache_compression wanted stored
                            d entries Hwanted Hknown Hread Hwf Hmeta Hcaches)|].
  set (self := FileCacheSet.Build rel_file wanted (Some stored) (VDict d) _).
  assert (FileCacheSet.exit self opened
          = FileCacheSet._force_write self (FileCacheSet.snapshot self) opened) as ->.
  { unfold FileCacheSet.exit, FileCacheSet._write.
    assert (FileCacheSet._check_recompression self = true) as ->.
    { unfold FileCacheSet._check_recompression, self. simpl.
      rewrite bool_decide_eq_false_2 by congruence. reflexivity. }
    rewrite orb_true_r. reflexivity. }
  assert (FileCacheSet.json_document (FileCacheSet.snapshot self) = moved) as Hdoc.
  { unfold FileCacheSet.json_document, FileCacheSet.snapshot, self, moved.
    cbn [FileCacheSet.caches].
    rewrite sorted_items_map by reflexivity. rewrite sorted_items_idemp.
    simpl. rewrite !map_map. reflexivity. }
  split.
  - intros e He. rewrite force_write_files, Hdoc.
    change (FileCacheSet.wanted_compression self) with wanted.
    destruct (String.eqb_spec e (FileCacheSet.extension wanted)) as [->|Hne];
      [apply lookup_insert_eq|].
    rewrite lookup_insert_ne by congruence.
    apply list_elem_of_In in He. simpl in He.
    destruct He as [<-|[<-|[<-|[]]]].
    + rewrite lookup_delete_ne by discriminate.
      rewrite lookup_delete_ne by discriminate. apply lookup_delete_eq.
    + rewrite lookup_delete_ne by discriminate. apply lookup_delete_eq.
    + apply lookup_delete_eq.
  - destruct (FileCacheSet._force_write self (FileCacheSet.snapshot self) opened)
      as [self' closed] eqn:Hclosed.
    pose proof (read_after_write self (FileCacheSet.snapshot self) opened (trace closed) Hknown)
      as Hback.
    rewrite Hclosed, Hdoc in Hback. simpl in Hback. destruct closed. exact Hback.
Qed.

Lemma changing_the_compression_moves_the_cache_witness :
  let opened := World (files sample_world) [Makedirs] in
  exists self,
    FileCacheSet.init "doc.v.cache" (Some "gzip") sample_world = (Ok self, opened)
    /\ files (snd (FileCacheSet.exit self opened)) !! "" = None
    /\ FileCacheSet._read (snd (FileCacheSet.exit self opened))
       = (Some "gzip", VDict sample_file).
Proof.
  intros opened.
  destruct (@changing_the_compression_moves_the_cache sample_core sample_world
              "doc.v.cache" (Some "gzip") "gzip" "none" sample_file
              [("coq", Cache.data sample_entry)] eq_refl eq_refl eq_refl)
    as (self & Hinit & Hfiles & Hread); try reflexivity; [discriminate|].
  exists self. split; [exact Hinit|]. split; [|exact Hread].
  apply (Hfiles ""). apply list_elem_of_here.
Defined.

(** * Further properties of the command line *)

(** ** Suffixes of file names *)

Lemma append_cons c (a b : string) : String c a +:+ b = String c (a +:+ b).
Proof. reflexivity. Qed.

Lemma append_nil (b : string) : "" +:+ b = b.
Proof. reflexivity. Qed.

Lemma substring_whole s : substring 0 (String.length s) s = s.
Proof. induction s as [|c s IH]; simpl; [reflexivity|]. rewrite IH. reflexivity. Qed.

Lemma substring_append p suf :
  substring (String.length p) (String.length suf) (p +:+ suf) = suf.
Proof.
  induction p as [|c p IH]; [apply substring_whole|].
  rewrite append_cons. exact IH.
Qed.

Lemma length_append p suf :
  String.length (p +:+ suf) = (String.length p + String.length suf)%nat.
Proof.
  induction p as [|c p IH]; [reflexivity|].
  rewrite append_cons. simpl. rewrite IH. reflexivity.
Qed.

Lemma substring_split s : forall k,
  (k <= String.length s)%nat ->
  s = substring 0 k s +:+ substring k (String.length s - k) s.
Proof.
  induction s as [|c s IH]; intros [|k] Hk; simpl in *; try lia.
  - reflexivity.
  - change (String c s = String c (substring 0 (String.length s) s)).
    rewrite substring_whole. reflexivity.
  - change (String c s
            = String c (substring 0 k s +:+ substring k (String.length s - k) s)).
    f_equal. apply IH. lia.
Qed.

Lemma append_assoc (a b c : string) : (a +:+ b) +:+ c = a +:+ (b +:+ c).
Proof.
  induction a as [|x a IH]; [reflexivity|].
  rewrite !append_cons, IH. reflexivity.
Qed.

Lemma endswith_spec s suf : Cli.endswith s suf = true <-> exists p, s = p +:+ suf.
Proof.
  unfold Cli.endswith. split.
  - intros Hs. apply andb_true_iff in Hs as [Hle Heq].
    apply Nat.leb_le in Hle. apply String.eqb_eq in Heq.
    exists (substring 0 (String.length s - String.length suf) s).
    pose proof (substring_split s (String.length s - String.length suf)) as Hsplit.
    replace (String.length s - (String.length s - String.length suf))%nat
      with (String.length suf) in Hsplit by lia.
    rewrite Heq in Hsplit. apply Hsplit. lia.
  - intros [p ->]. rewrite length_append. apply andb_true_iff. split.
    + apply Nat.leb_le. lia.
    + replace (String.length p + String.length suf - String.length suf)%nat
        with (String.length p) by lia.
      rewrite substring_append. apply String.eqb_refl.
Qed.

Lemma append_inv_tail p : forall q x y,
  String.length x = String.length y -> p +:+ x = q +:+ y -> x = y.
Proof.
  induction p as [|c p IH]; intros [|c' q] x y Hlen Heq;
    rewrite ?append_cons, ?append_nil in Heq.
  - exact Heq.
  - apply (f_equal String.length) in Heq. simpl in Heq. rewrite length_append in Heq. lia.
  - apply (f_equal String.length) in Heq. simpl in Heq. rewrite length_append in Heq. lia.
  - injection Heq as _ Heq. exact (IH q x y Hlen Heq).
Qed.

Lemma substring_length s : forall k m,
  (k + m <= String.length s)%nat -> String.length (substring k m s) = m.
Proof.
  induction s as [|c s IH]; intros [|k] [|m] Hk; simpl in *; try lia; try reflexivity.
  - rewrite (IH 0%nat m) by lia. reflexivity.
  - apply IH. lia.
  - apply IH. lia.
Qed.

(** A suffix of the suffix: when [s] ends with [a], whether it ends with a
    string no longer than [a] can be read off [a]. *)
Lemma endswith_shorter s a b :
  Cli.endswith s a = true -> (String.length b <= String.length a)%nat ->
  Cli.endswith s b = Cli.endswith a b.
Proof.
  intros Ha Hlen. apply endswith_spec in Ha as [p ->].
  destruct (Cli.endswith a b) eqn:Hab.
  - apply endswith_spec in Hab as [r ->]. apply endswith_spec.
    exists (p +:+ r). symmetry. apply append_assoc.
  - destruct (Cli.endswith (p +:+ a) b) eqn:Hsb; [|reflexivity].
    apply endswith_spec in Hsb as [q Hq].
    pose proof (substring_split a (String.length a - String.length b)) as Hsplit.
    rewrite Hsplit in Hq by lia. rewrite <- append_assoc in Hq.
    apply append_inv_tail in Hq.
    + assert (Cli.endswith a b = true) as Habs; [|congruence].
      apply endswith_spec. exists (substring 0 (String.length a - String.length b) a).
      rewrite Hq in Hsplit. apply Hsplit. lia.
    + rewrite substring_length by lia. lia.
Qed.

(** ** Failures of the resolution *)
#[local] Arguments Cli.endswith : simpl never.

Lemma infer_mode_Ok fpath kind arg table mode :
  Cli.infer_mode fpath kind arg table = Ok mode ->
  exists ext, In (ext, mode) table /\ Cli.endswith fpath ext = true.
Proof.
  unfold Cli.infer_mode.
  destruct (find _ table) as [[ext m]|] eqn:Hfind; [|discriminate].
  intros [= <-]. apply find_some in Hfind as [Hin Hext]. eauto.
Qed.

Lemma infer_mode_errors fpath kind arg table e :
  Cli.infer_mode fpath kind arg table = Raise e -> exists msg, e = ArgumentTypeError msg.
Proof.
  unfold Cli.infer_mode. destruct (find _ table) as [[ext m]|]; [discriminate|].
  intros [= <-]. eauto.
Qed.

Lemma or_else_falsy o alternative :
  Cli.truthy_opt o = false -> Cli.or_else o alternative = alternative.
Proof.
  destruct o as [s|]; simpl; [|reflexivity].
  destruct (String.eqb s ""); [reflexivity|discriminate].
Qed.

Lemma or_else_truthy o alternative :
  Cli.truthy_opt o = true -> exists s, o = Some s /\ Cli.or_else o alternative = Ok s.
Proof.
  destruct o as [s|]; simpl; [|discriminate].
  destruct (String.eqb s ""); [discriminate|]. eauto.
Qed.

Lemma dict_has_keys {A} k (d : list (string * A)) : dict_has k d = true -> In k (keys d).
Proof.
  unfold dict_has. induction d as [|[k' x] r IH]; simpl; [discriminate|].
  destruct (String.eqb_spec k k') as [->|]; auto.
Qed.

Lemma dict_get_In {A} k (x : A) d : dict_get k d = Some x -> In (k, x) d.
Proof. intros Hx. apply list_elem_of_In, dict_get_elem, Hx. Qed.

Lemma registered_frontends fe :
  dict_has fe Cli.PIPELINES = true ->
  In fe ["coq.json"; "lean3.json"; "coq"; "lean3"; "coq+rst"; "coqdoc"; "rst"; "md"].
Proof. intros Hfe. apply dict_has_keys in Hfe. exact Hfe. Qed.

Lemma inferred_frontend_registered fpath fe :
  Cli.infer_frontend fpath = Ok fe -> dict_has fe Cli.PIPELINES = true.
Proof.
  intros Hfe. apply infer_mode_Ok in Hfe as (ext & Hin & _).
  simpl in Hin. repeat (destruct Hin as [[= <- <-]|Hin]; [reflexivity|]). destruct Hin.
Qed.

Lemma registered_frontend_tables fe :
  dict_has fe Cli.PIPELINES = true ->
  exists supported be pipeline language,
    dict_get fe Cli.PIPELINES = Some supported
    /\ dict_get fe Cli.DEFAULT_BACKENDS = Some be
    /\ dict_get be supported = Some pipeline
    /\ dict_get fe Cli.INPUT_LANGUAGE_BY_FRONTEND = Some language
    /\ dict_get "lean3" supported = None.
Proof.
  intros Hfe. apply registered_frontends in Hfe. simpl in Hfe.
  repeat (destruct Hfe as [<-|Hfe];
          [eexists _, _, _, _; repeat split; reflexivity|]).
  destruct Hfe.
Qed.

(** X19: when the frontend given on the command line, if any, is one of
    [PIPELINES], [resolve_pipeline] fails only with
    [argparse.ArgumentTypeError]: neither its assertion nor a lookup in
    [PIPELINES] or [DEFAULT_BACKENDS] can fail. *)
Theorem resolution_fails_only_with_argument_errors
    (fpath : string) (a : Cli.args) (e : pyerr) :
  (forall fe, Cli.frontend a = Some fe -> fe <> "" -> dict_has fe Cli.PIPELINES = true) ->
  Cli.resolve_pipeline fpath a = Raise e ->
  exists msg, e = ArgumentTypeError msg.
Proof.
  intros Hchoice. unfold Cli.resolve_pipeline.
  destruct (Cli.or_else (Cli.frontend a) (Cli.infer_frontend fpath)) as [fe|e'] eqn:Hfe;
    unfold mbind, result_bind.
  - assert (dict_has fe Cli.PIPELINES = true) as Hreg.
    { destruct (Cli.truthy_opt (Cli.frontend a)) eqn:Hgiven.
      - destruct (or_else_truthy _ (Cli.infer_frontend fpath) Hgiven) as (s & Hs & Hor).
        rewrite Hor in Hfe. injection Hfe as ->. apply Hchoice; [exact Hs|].
        intros ->. rewrite Hs in Hgiven. discriminate.
      - rewrite (or_else_falsy _ _ Hgiven) in Hfe.
        exact (inferred_frontend_registered _ _ Hfe). }
    destruct (registered_frontend_tables fe Hreg)
      as (supported & be0 & pipeline0 & language & -> & Hdefault & _).
    destruct (Cli.or_else (Cli.backend a) (Cli.infer_backend fe (Cli.output a)))
      as [be|e'] eqn:Hbe.
    + destruct (dict_get be supported); [discriminate|]. intros [= <-]. eauto.
    + intros [= <-].
      destruct (Cli.truthy_opt (Cli.backend a)) eqn:Hgiven.
      * destruct (or_else_truthy _ (Cli.infer_backend fe (Cli.output a)) Hgiven)
          as (s & _ & Hor). congruence.
      * rewrite (or_else_falsy _ _ Hgiven) in Hbe. unfold Cli.infer_backend in Hbe.
        rewrite Hdefault in Hbe.
        destruct (Cli.output a) as [out|]; [|discriminate].
        destruct (String.eqb out ""); [discriminate|].
        exact (infer_mode_errors _ _ _ _ _ Hbe).
  - intros [= <-].
    destruct (Cli.truthy_opt (Cli.frontend a)) eqn:Hgiven.
    + destruct (or_else_truthy _ (Cli.infer_frontend fpath) Hgiven) as (s & _ & Hor).
      congruence.
    + rewrite (or_else_falsy _ _ Hgiven) in Hfe.
      exact (infer_mode_errors _ _ _ _ _ Hfe).
Qed.

Lemma resolution_fails_only_with_argument_errors_witness :
  let a := Cli.Args ["talk.rst"] None (Some "coq") None (Some "talk.pdf") (None, None) in
  exists msg, Cli.resolve_pipeline "talk.rst" a = Raise (ArgumentTypeError msg).
Proof.
  intros a.
  destruct (resolution_fails_only_with_argument_errors "talk.rst" a
              (ArgumentTypeError
                 ("output: Not sure what to do with 'talk.pdf'." +:+ Cli.newline
                  +:+ "Try passing --backend?")))
    as [msg Hmsg].
  - intros fe [= <-] _. reflexivity.
  - reflexivity.
  - exists msg. rewrite <- Hmsg. reflexivity.
Defined.

(** X20: every frontend that [infer_frontend] returns is registered in
    [PIPELINES], and for every registered frontend the default backend is
    one it supports: without [--backend] and [--output], resolution
    succeeds with the backend of [DEFAULT_BACKENDS]. *)
Theorem default_backend_is_always_supported (fpath : string) (a : Cli.args) :
  (forall fe, Cli.infer_frontend fpath = Ok fe -> dict_has fe Cli.PIPELINES = true) /\
  (forall fe,
     Cli.or_else (Cli.frontend a) (Cli.infer_frontend fpath) = Ok fe ->
     dict_has fe Cli.PIPELINES = true ->
     Cli.truthy_opt (Cli.backend a) = false -> Cli.truthy_opt (Cli.output a) = false ->
     exists be pipeline,
       dict_get fe Cli.DEFAULT_BACKENDS = Some be
       /\ Cli.resolve_pipeline fpath a = Ok (fe, be, pipeline)).
Proof.
  split; [apply inferred_frontend_registered|].
  intros fe Hfe Hreg Hbackend Houtput.
  destruct (registered_frontend_tables fe Hreg)
    as (supported & be & pipeline & language & Hsupported & Hdefault & Hpipeline & _).
  exists be, pipeline. split; [exact Hdefault|].
  unfold Cli.resolve_pipeline. rewrite Hfe. unfold mbind, result_bind.
  rewrite Hsupported, (or_else_falsy _ _ Hbackend).
  assert (Cli.infer_backend fe (Cli.output a) = Ok be) as ->.
  { unfold Cli.infer_backend. rewrite Hdefault.
    destruct (Cli.output a) as [out|]; [|reflexivity].
    simpl in Houtput. destruct (String.eqb out ""); [reflexivity|discriminate]. }
  rewrite Hpipeline. reflexivity.
Qed.

Lemma default_backend_is_always_supported_witness :
  let a := Cli.Args ["notes.md"] None None None None (None, None) in
  exists be pipeline,
    dict_get "md" Cli.DEFAULT_BACKENDS = Some be
    /\ Cli.resolve_pipeline "notes.md" a = Ok ("md", be, pipeline).
Proof.
  intros a.
  apply (proj2 (default_backend_is_always_supported "notes.md" a) "md"); reflexivity.
Defined.

(** ** Inference from the name of the output *)

(** X21: [infer_backend] never returns ["lint"]: in
    [BACKENDS_BY_EXTENSION] the extension [.json] comes before
    [.lint.json], so an output named [*.lint.json] is given the backend
    ["json"]. *)
Theorem lint_backend_is_never_inferred (frontend : string) (out_fpath : option string) :
  Cli.infer_backend frontend out_fpath <> Ok "lint"
  /\ (forall out, out_fpath = Some out -> Cli.endswith out ".lint.json" = true ->
      Cli.infer_backend frontend out_fpath = Ok "json").
Proof.
  split.
  - unfold Cli.infer_backend.
    assert (match dict_get frontend Cli.DEFAULT_BACKENDS with
            | Some b => Ok b
            | None => Raise KeyError
            end <> Ok "lint") as Hdefault.
    { unfold Cli.DEFAULT_BACKENDS. simpl.
      repeat (destruct (String.eqb frontend _); [discriminate|]). discriminate. }
    destruct out_fpath as [out|]; [|exact Hdefault].
    destruct (String.eqb out ""); [exact Hdefault|].
    unfold Cli.infer_mode, Cli.BACKENDS_BY_EXTENSION. simpl.
    destruct (Cli.endswith out ".v"); [discriminate|].
    destruct (Cli.endswith out ".lean"); [discriminate|].
    destruct (Cli.endswith out ".json") eqn:Hjson; [discriminate|].
    destruct (Cli.endswith out ".rst"); [discriminate|].
    destruct (Cli.endswith out ".lint.json") eqn:Hlint.
    + rewrite (endswith_shorter out ".lint.json" ".json" Hlint) in Hjson by (simpl; lia).
      discriminate.
    + repeat (destruct (Cli.endswith out _); [discriminate|]). discriminate.
  - intros out -> Hlint. unfold Cli.infer_backend.
    assert (String.eqb out "" = false) as ->.
    { destruct out; [discriminate|reflexivity]. }
    unfold Cli.infer_mode, Cli.BACKENDS_BY_EXTENSION. simpl.
    rewrite (endswith_shorter out ".lint.json" ".v" Hlint) by (simpl; lia).
    rewrite (endswith_shorter out ".lint.json" ".lean" Hlint) by (simpl; lia).
    rewrite (endswith_shorter out ".lint.json" ".json" Hlint) by (simpl; lia).
    reflexivity.
Qed.

Lemma lint_backend_is_never_inferred_witness :
  Cli.infer_backend "coq+rst" (Some "proof.lint.json") = Ok "json".
Proof.
  apply (proj2 (lint_backend_is_never_inferred "coq+rst" (Some "proof.lint.json"))
           "proof.lint.json"); reflexivity.
Defined.

(** X22: an output named [*.lean] is never accepted without
    [--backend]: its inferred backend is ["lean3"], which no frontend
    supports, so [resolve_pipeline] raises the error for an unsupported
    backend. *)
Theorem lean_output_is_never_supported (fpath out : string) (a : Cli.args) (fe : string) :
  Cli.or_else (Cli.frontend a) (Cli.infer_frontend fpath) = Ok fe ->
  dict_has fe Cli.PIPELINES = true ->
  Cli.truthy_opt (Cli.backend a) = false ->
  Cli.output a = Some out -> Cli.endswith out ".lean" = true ->
  exists supported,
    dict_get fe Cli.PIPELINES = Some supported
    /\ Cli.resolve_pipeline fpath a
       = Raise (ArgumentTypeError (Cli.unsupported_backend fe "lean3" supported)).
Proof.
  intros Hfe Hreg Hbackend Hout Hlean.
  destruct (registered_frontend_tables fe Hreg)
    as (supported & be & pipeline & language & Hsupported & _ & _ & _ & Hnone).
  exists supported. split; [exact Hsupported|].
  unfold Cli.resolve_pipeline. rewrite Hfe. unfold mbind, result_bind.
  rewrite Hsupported, (or_else_falsy _ _ Hbackend), Hout.
  assert (Cli.infer_backend fe (Some out) = Ok "lean3") as ->.
  { unfold Cli.infer_backend.
    assert (String.eqb out "" = false) as ->.
    { destruct out; [discriminate|reflexivity]. }
    unfold Cli.infer_mode, Cli.BACKENDS_BY_EXTENSION. simpl.
    rewrite (endswith_shorter out ".lean" ".v" Hlean) by (simpl; lia).
    rewrite Hlean. reflexivity. }
  rewrite Hnone. reflexivity.
Qed.

Lemma lean_output_is_never_supported_witness :
  let a := Cli.Args ["proof.lean"] None None None (Some "out/proof.lean") (None, None) in
  exists supported,
    dict_get "lean3" Cli.PIPELINES = Some supported
    /\ Cli.resolve_pipeline "proof.lean" a
       = Raise (ArgumentTypeError (Cli.unsupported_backend "lean3" "lean3" supported)).
Proof.
  intros a.
  apply (lean_output_is_never_supported "proof.lean" "out/proof.lean" a "lean3");
    reflexivity.
Defined.

(** ** The guards of the steps *)
Lemma resolve_pipeline_Ok fpath a fe be pipeline :
  Cli.resolve_pipeline fpath a = Ok (fe, be, pipeline) ->
  exists supported,
    dict_get fe Cli.PIPELINES = Some supported /\ dict_get be supported = Some pipeline.
Proof.
  unfold Cli.resolve_pipeline.
  destruct (Cli.or_else (Cli.frontend a) (Cli.infer_frontend fpath)) as [fe'|]; [|discriminate].
  unfold mbind, result_bind.
  destruct (dict_get fe' Cli.PIPELINES) as [supported|] eqn:Hsupported; [|discriminate].
  destruct (Cli.or_else (Cli.backend a) (Cli.infer_backend fe' (Cli.output a))) as [be'|];
    [|discriminate].
  destruct (dict_get be' supported) as [pipeline'|] eqn:Hpipeline; [|discriminate].
  intros [= <- <- <-]. eauto.
Qed.

Lemma pipelines_respect_guards :
  forallb (fun entry : string * list (string * list Cli.step) =>
    forallb (fun choice : string * list Cli.step =>
      match dict_get (fst entry) Cli.INPUT_LANGUAGE_BY_FRONTEND with
      | Some language =>
          (negb (bool_decide (Cli.annotate_chunks ∈ snd choice))
           || bool_decide (language = Some "coq" \/ language = Some "lean3"))
          && (negb (bool_decide (Cli.code_to_rst ∈ snd choice))
              || bool_decide (language = Some "coq"))
          && (negb (bool_decide (Cli.rst_to_code ∈ snd choice))
              || existsb (String.eqb (fst choice)) ["coq"; "coq+rst"])
      | None => false
      end) (snd entry)) Cli.PIPELINES = true.
Proof. vm_compute. reflexivity. Qed.

(** X23: a pipeline that [resolve_pipeline] returns cannot trip the
    guards of its own steps: [build_context] finds the input language of
    the frontend; if the pipeline has [annotate_chunks], that language has
    a prover configuration; if it has [code_to_rst], the language is Coq;
    and if it has [rst_to_code], the backend is one the step accepts. *)
Theorem resolved_pipelines_pass_their_guards
    (fpath : string) (a : Cli.args) (fe be : string) (pipeline : list Cli.step)
    (sertop_args : value) :
  Cli.resolve_pipeline fpath a = Ok (fe, be, pipeline) ->
  exists ctx,
    Cli.build_context fpath fe be a = Ok ctx
    /\ (Cli.annotate_chunks ∈ pipeline ->
        exists config,
          Cli.annotate_chunks_config (Cli.ctx_input_language ctx)
                                     (Cli.prover_config sertop_args) = Ok config)
    /\ (Cli.code_to_rst ∈ pipeline ->
        Cli.code_to_rst_converter (Cli.ctx_input_language ctx) = Ok Cli.coq2rst_marked)
    /\ (Cli.rst_to_code ∈ pipeline ->
        Cli.rst_to_code_converter (Cli.ctx_backend ctx) = Ok Cli.rst2coq_marked).
Proof.
  intros Hresolved.
  destruct (resolve_pipeline_Ok _ _ _ _ _ Hresolved) as (supported & Hfe & Hbe).
  pose proof pipelines_respect_guards as Hall.
  rewrite forallb_forall in Hall. specialize (Hall _ (dict_get_In _ _ _ Hfe)).
  rewrite forallb_forall in Hall. specialize (Hall _ (dict_get_In _ _ _ Hbe)).
  cbn [fst snd] in Hall.
  unfold Cli.build_context.
  destruct (dict_get fe Cli.INPUT_LANGUAGE_BY_FRONTEND) as [language|]; [|discriminate].
  eexists. split; [reflexivity|]. cbn [Cli.ctx_input_language Cli.ctx_backend].
  apply andb_true_iff in Hall as [Hall Hrst]. apply andb_true_iff in Hall as [Hann Hcode].
  split; [|split]; intros Hin.
  - rewrite (bool_decide_eq_true_2 _ Hin) in Hann. simpl in Hann.
    apply bool_decide_eq_true_1 in Hann as [-> | ->]; eexists; reflexivity.
  - rewrite (bool_decide_eq_true_2 _ Hin) in Hcode. simpl in Hcode.
    apply bool_decide_eq_true_1 in Hcode as ->. reflexivity.
  - rewrite (bool_decide_eq_true_2 _ Hin) in Hrst. simpl in Hrst.
    unfold Cli.rst_to_code_converter. simpl. rewrite Hrst. reflexivity.
Qed.

Lemma resolved_pipelines_pass_their_guards_witness :
  let a := Cli.Args ["proof.v"] None (Some "coq") (Some "rst") None (None, None) in
  exists ctx,
    Cli.build_context "proof.v" "coq" "rst" a = Ok ctx
    /\ Cli.code_to_rst_converter (Cli.ctx_input_language ctx) = Ok Cli.coq2rst_marked.
Proof.
  intros a.
  destruct (resolved_pipelines_pass_their_guards "proof.v" a "coq" "rst"
              [Cli.read_plain; Cli.code_to_rst; Cli.write_file ".rst" []]
              (VList []) eq_refl) as (ctx & Hctx & _ & Hcode & _).
  exists ctx. split; [exact Hctx|]. apply Hcode.
  apply list_elem_of_further, list_elem_of_here.
Defined.

(** ** Post-processing of the arguments *)
Lemma mapR_Forall2 {A B} (f : A -> result B) l :
  forall ws, mapR f l = Ok ws -> Forall2 (fun x w => f x = Ok w) l ws.
Proof.
  induction l as [|x r IH]; simpl; intros ws Hws.
  - injection Hws as <-. constructor.
  - destruct (f x) as [w|] eqn:Hw; simpl in Hws; [|discriminate].
    destruct (mapR f r) as [ws'|]; simpl in Hws; [|discriminate].
    injection Hws as <-. constructor; auto.
Qed.

Lemma tagged_results {A B} (f : A -> result B) l ws :
  Forall2 (fun x w => (r ← f x; Ok (x, r)) = Ok w) l ws ->
  map fst ws = l /\ Forall (fun entry => f (fst entry) = Ok (snd entry)) ws.
Proof.
  induction 1 as [|x [x' r] l ws Hx _ [IHl IHr]]; [split; [reflexivity|constructor]|].
  destruct (f x) as [r'|] eqn:Hr; simpl in Hx; [|discriminate].
  injection Hx as <- <-. simpl. split; [f_equal; exact IHl|constructor; auto].
Qed.

(** X24: when [post_process_arguments] succeeds, it has resolved one
    pipeline per input, in the order of the inputs; an output was given
    for at most one input; a name for the standard input was given only
    with the input ["-"]; and the point to mark, if any, was read as an
    integer. *)
Theorem post_processing_resolves_every_input
    (parse_int : string -> option Z) (a : Cli.args) (p : Cli.processed) :
  Cli.post_process_arguments parse_int a = Ok p ->
  Cli.raw p = a
  /\ map fst (Cli.pipelines p) = Cli.input a
  /\ Forall (fun entry => Cli.resolve_pipeline (fst entry) a = Ok (snd entry))
            (Cli.pipelines p)
  /\ (Cli.truthy_opt (Cli.output a) = true -> (length (Cli.input a) <= 1)%nat)
  /\ (Cli.truthy_opt (Cli.stdin_filename a) = true -> In "-" (Cli.input a))
  /\ (forall text, fst (Cli.mark_point a) = Some text ->
      exists z, parse_int text = Some z /\ Cli.point p = Some z).
Proof.
  unfold Cli.post_process_arguments.
  destruct (Nat.ltb 1 (length (Cli.input a)) && Cli.truthy_opt (Cli.output a)) eqn:Hmany;
    [discriminate|].
  destruct (Cli.truthy_opt (Cli.stdin_filename a)
            && negb (existsb (String.eqb "-") (Cli.input a))) eqn:Hstdin; [discriminate|].
  destruct (match fst (Cli.mark_point a) with
            | Some text => _
            | None => _
            end) as [point|] eqn:Hpoint; [|discriminate].
  unfold mbind, result_bind.
  destruct (mapR _ (Cli.input a)) as [pipelines|] eqn:Hpipelines; [|discriminate].
  intros [= <-]. cbn [Cli.raw Cli.pipelines Cli.point].
  apply mapR_Forall2, tagged_results in Hpipelines as [Hpaths Hresolved].
  split; [reflexivity|]. split; [exact Hpaths|]. split; [exact Hresolved|].
  split; [|split].
  - intros Hout. rewrite Hout, andb_true_r in Hmany. apply Nat.ltb_ge in Hmany. exact Hmany.
  - intros Hname. rewrite Hname in Hstdin. cbn [andb] in Hstdin.
    apply negb_false_iff, existsb_exists in Hstdin as (x & Hin & Hx).
    apply String.eqb_eq in Hx as <-. exact Hin.
  - intros text Htext. rewrite Htext in Hpoint.
    destruct (parse_int text) as [z|]; [|discriminate].
    injection Hpoint as <-. eauto.
Qed.

Lemma post_processing_resolves_every_input_witness :
  let a := Cli.Args ["a.v"; "b.rst"] None None None None (Some "12", Some "|") in
  let parse := fun s : string => if String.eqb s "12" then Some 12 else None in
  exists p, Cli.post_process_arguments parse a = Ok p
            /\ map fst (Cli.pipelines p) = ["a.v"; "b.rst"]
            /\ Cli.point p = Some 12.
Proof.
  intros a parse. eexists. split; [vm_compute; reflexivity|].
  split.
  - refine (proj1 (proj2 (post_processing_resolves_every_input parse a _ _))).
    vm_compute; reflexivity.
  - reflexivity.
Defined.

(** ** Running the pipelines *)
Lemma run_steps_prefix call ctx pipeline :
  forall state started outcome started',
    Cli.run_steps call ctx pipeline state started = (outcome, started') ->
    exists ran,
      started' = started ++ map (pair (Cli.ctx_fpath ctx)) ran
      /\ ran `prefix_of` pipeline
      /\ (forall v, outcome = Ok v -> ran = pipeline).
Proof.
  induction pipeline as [|step rest IH]; simpl; intros state started outcome started' Hrun.
  - injection Hrun as <- <-. exists []. rewrite app_nil_r. repeat split; auto.
  - destruct (call step state ctx) as [state'|e].
    + destruct (IH _ _ _ _ Hrun) as (ran & -> & Hprefix & Hall).
      exists (step :: ran). rewrite <- app_assoc. split; [reflexivity|].
      split; [apply prefix_cons, Hprefix|].
      intros v Hv. f_equal. exact (Hall v Hv).
    + injection Hrun as <- <-. exists [step]. split; [reflexivity|].
      split; [apply prefix_cons, prefix_nil|discriminate].
Qed.

(** X25: [process_pipelines] starts the steps in the order of the
    pipelines, document after document: the steps it has started are a
    prefix of all the steps planned, and all of them when it succeeds. *)
Theorem steps_run_in_order_until_the_first_failure
    (call_pipeline_step : Cli.step -> value -> Cli.context -> result value)
    (a : Cli.args) (todo : list (string * (string * string * list Cli.step)))
    (started : list (string * Cli.step)) :
  let plan := flat_map (fun entry => snd (snd entry)) todo in
  let outcome := fst (Cli.process_pipelines call_pipeline_step a todo started) in
  let started' := snd (Cli.process_pipelines call_pipeline_step a todo started) in
  exists ran,
    map snd started' = map snd started ++ ran
    /\ ran `prefix_of` plan
    /\ (outcome = Ok tt -> ran = plan).
Proof.
  revert started. induction todo as [|[fpath [[fe be] pipeline]] rest IH]; intros started; simpl.
  - exists []. rewrite app_nil_r. repeat split; auto.
  - destruct (Cli.build_context fpath fe be a) as [ctx|e]; simpl.
    + destruct (Cli.run_steps call_pipeline_step ctx pipeline VNone started)
        as [[state|e] started1] eqn:Hrun;
        destruct (run_steps_prefix _ _ _ _ _ _ _ Hrun) as (ran & -> & Hprefix & Hall).
      * rewrite (Hall state eq_refl). destruct (IH (started ++ map (pair (Cli.ctx_fpath ctx)) pipeline))
          as (ran' & Hran' & Hprefix' & Hall').
        exists (pipeline ++ ran'). rewrite Hran', map_app, map_map, <- app_assoc. simpl.
        rewrite map_id. split; [reflexivity|].
        split; [apply prefix_app, Hprefix'|].
        intros Hok. f_equal. exact (Hall' Hok).
      * simpl. exists ran. rewrite map_app, map_map. simpl. rewrite map_id.
        split; [reflexivity|]. split; [|discriminate].
        apply prefix_app_r, Hprefix.
    + exists []. rewrite app_nil_r. split; [reflexivity|]. split; [apply prefix_nil|discriminate].
Qed.

Lemma steps_run_in_order_until_the_first_failure_witness :
  let run := fun (_ : Cli.step) (state : value) (_ : Cli.context) => Ok state in
  let a := Cli.Args ["a.v"; "b.v"] None (Some "coq") (Some "null") None (None, None) in
  let null := [Cli.read_plain; Cli.parse_plain; Cli.annotate_chunks] in
  let todo := [("a.v", ("coq", "null", null)); ("b.v", ("coq", "null", null))] in
  map snd (snd (Cli.process_pipelines run a todo [])) = null ++ null.
Proof.
  intros run a null todo.
  destruct (steps_run_in_order_until_the_first_failure run a todo [])
    as (ran & Hran & _ & Hall).
  rewrite Hran. simpl. apply (Hall eq_refl).
Defined.

(** ** Scrubbed file names *)
Lemma scrub_class (c : ascii) :
  let n := nat_of_ascii (Cli.scrub c) in
  (n = 45 \/ 48 <= n <= 57 \/ 65 <= n <= 90 \/ 97 <= n <= 122)%nat.
Proof.
  unfold Cli.scrub.
  destruct (_ || _) eqn:Hclass; [|left; reflexivity].
  rewrite !orb_true_iff, !andb_true_iff, Nat.eqb_eq, !Nat.leb_le in Hclass.
  cbv zeta. lia.
Qed.

Lemma scrub_fixed (c : ascii) :
  let n := nat_of_ascii c in
  (n = 45 \/ 48 <= n <= 57 \/ 65 <= n <= 90 \/ 97 <= n <= 122)%nat ->
  Cli.scrub c = c.
Proof.
  intros n Hn. unfold Cli.scrub. fold n.
  destruct (_ || _) eqn:Hclass; [reflexivity|].
  rewrite !orb_false_iff, !andb_false_iff, Nat.eqb_neq, !Nat.leb_gt in Hclass. lia.
Qed.

Lemma scrub_idemp (c : ascii) : Cli.scrub (Cli.scrub c) = Cli.scrub c.
Proof. apply scrub_fixed, scrub_class. Qed.

(** X26: [_scrub_fname] keeps the length of the name, leaves only
    letters, digits and dashes in it, and scrubbing a scrubbed name changes
    nothing. *)
Theorem scrubbed_names_use_safe_characters (fname : string) :
  String.length (Cli._scrub_fname fname) = String.length fname
  /\ Cli._scrub_fname (Cli._scrub_fname fname) = Cli._scrub_fname fname
  /\ (forall i c, String.get i (Cli._scrub_fname fname) = Some c ->
      let n := nat_of_ascii c in
      n = 45 \/ 48 <= n <= 57 \/ 65 <= n <= 90 \/ 97 <= n <= 122)%nat.
Proof.
  split; [|split].
  - induction fname as [|c r IH]; simpl; [reflexivity|]. rewrite IH. reflexivity.
  - induction fname as [|c r IH]; simpl; [reflexivity|]. rewrite scrub_idemp, IH. reflexivity.
  - induction fname as [|c r IH]; intros i c' Hget; simpl in Hget; [discriminate|].
    destruct i as [|i].
    + injection Hget as <-. apply scrub_class.
    + exact (IH i c' Hget).
Qed.

Lemma scrubbed_names_use_safe_characters_witness :
  Cli._scrub_fname "my proof_1.v" = "my-proof-1-v"
  /\ Cli._scrub_fname (Cli._scrub_fname "my proof_1.v") = Cli._scrub_fname "my proof_1.v".
Proof.
  split; [reflexivity|].
  exact (proj1 (proj2 (scrubbed_names_use_safe_characters "my proof_1.v"))).
Defined.

(** ** Names of the output files *)
Lemma strip_prefix_Some p : forall s r, Cli.strip_prefix p s = Some r <-> s = p +:+ r.
Proof.
  induction p as [|a p IH]; intros s r; simpl.
  - rewrite append_nil. split; [intros [= ->]; reflexivity|intros ->; reflexivity].
  - rewrite append_cons. destruct s as [|b s]; [split; discriminate|].
    destruct (Ascii.eqb_spec a b) as [->|Hne].
    + rewrite IH. split; [intros ->; reflexivity|intros [= ->]; reflexivity].
    + split; [discriminate|]. intros [= <- _]. contradiction.
Qed.

Lemma matches_star_parts strip n :
  forall s, Cli.matches_star n strip s = true ->
    exists parts,
      Forall (fun e => In e strip /\ e <> "") parts /\ s = foldr String.append "" parts.
Proof.
  induction n as [|n IH]; intros [|c s] Hs; simpl in Hs;
    try (exists []; split; [constructor|reflexivity]); try discriminate.
  apply existsb_exists in Hs as (e & He & Hmatch).
  destruct (Cli.strip_prefix e (String c s)) as [rest|] eqn:Hrest; [|discriminate].
  apply andb_true_iff in Hmatch as [Hne Hmatch].
  apply strip_prefix_Some in Hrest.
  destruct (IH rest Hmatch) as (parts & Hparts & ->).
  exists (e :: parts). split; [|exact Hrest].
  constructor; [|exact Hparts]. split; [exact He|].
  intros ->. discriminate.
Qed.

Lemma matches_star_mono strip n :
  forall m s, (n <= m)%nat -> Cli.matches_star n strip s = true ->
    Cli.matches_star m strip s = true.
Proof.
  induction n as [|n IH]; intros m [|c s] Hle Hs; simpl in Hs;
    try (destruct m; reflexivity); try discriminate.
  destruct m as [|m]; [lia|]. simpl.
  apply existsb_exists in Hs as (e & He & Hmatch). apply existsb_exists.
  exists e. split; [exact He|].
  destruct (Cli.strip_prefix e (String c s)) as [rest|]; [|discriminate].
  apply andb_true_iff in Hmatch as [Hne Hmatch]. rewrite Hne. simpl.
  apply (IH m rest); [lia|exact Hmatch].
Qed.

Lemma matches_star_cons strip e r :
  In e strip -> e <> "" ->
  Cli.matches_star (String.length r) strip r = true ->
  Cli.matches_star (String.length (e +:+ r)) strip (e +:+ r) = true.
Proof.
  intros He Hne Hr. destruct e as [|c e]; [contradiction|].
  rewrite append_cons. simpl. apply existsb_exists.
  exists (String c e). split; [exact He|].
  rewrite (proj2 (strip_prefix_Some (String c e) (String c (e +:+ r)) r))
    by (rewrite append_cons; reflexivity).
  simpl. apply (matches_star_mono strip (String.length r)); [|exact Hr].
  rewrite length_append. lia.
Qed.

Lemma matches_star_of_parts strip parts :
  Forall (fun e => In e strip /\ e <> "") parts ->
  Cli.matches_star (String.length (foldr String.append "" parts)) strip
    (foldr String.append "" parts) = true.
Proof.
  induction 1 as [|e parts [He Hne] _ IH]; [reflexivity|].
  simpl. apply matches_star_cons; assumption.
Qed.

Lemma strip_re_sub_cons strip c rest :
  Cli.strip_re_sub strip (String c rest)
  = if Cli.matches_star (String.length (String c rest)) strip (String c rest)
    then "" else String c (Cli.strip_re_sub strip rest).
Proof. reflexivity. Qed.

Lemma strip_re_sub_split strip fname :
  exists removed,
    fname = Cli.strip_re_sub strip fname +:+ removed
    /\ Cli.matches_star (String.length removed) strip removed = true.
Proof.
  induction fname as [|c rest IH].
  - exists "". split; reflexivity.
  - rewrite strip_re_sub_cons.
    destruct (Cli.matches_star (String.length (String c rest)) strip (String c rest))
      eqn:Hall.
    + exists (String c rest). split; [reflexivity|exact Hall].
    + destruct IH as (removed & Hsplit & Hremoved).
      exists removed. rewrite append_cons, <- Hsplit. split; [reflexivity|exact Hremoved].
Qed.

Lemma strip_re_sub_leftmost strip fname :
  forall p r, fname = p +:+ r ->
    Cli.matches_star (String.length r) strip r = true ->
    (String.length (Cli.strip_re_sub strip fname) <= String.length p)%nat.
Proof.
  induction fname as [|c rest IH]; intros p r Hsplit Hr.
  - simpl. lia.
  - rewrite strip_re_sub_cons.
    destruct (Cli.matches_star (String.length (String c rest)) strip (String c rest))
      eqn:Hall; [simpl; lia|].
    destruct p as [|c' p].
    + rewrite append_nil in Hsplit. subst r. congruence.
    + rewrite append_cons in Hsplit. injection Hsplit as <- Hsplit.
      simpl. apply le_n_S. exact (IH p r Hsplit Hr).
Qed.

(** X27: where [write_output] writes.  To the standard output exactly
    when the output is ["-"], or is absent while the input is ["-"]; to the
    output given, when there is one; otherwise to the file, in the output
    directory, named after the input, with all the trailing extensions of
    [strip] removed (what is left ends with none of them) and [ext]
    added. *)
Theorem output_names_drop_the_known_extensions
    (ext : string) (strip : list string) (fname : string)
    (output : option string) (output_directory : string) :
  (Cli.write_output ext strip fname output output_directory = Cli.Stdout
   <-> output = Some "-" \/ (output = None /\ fname = "-")) /\
  (forall path, output = Some path -> path <> "" -> path <> "-" ->
     Cli.write_output ext strip fname output output_directory = Cli.File path) /\
  (Cli.truthy_opt output = false -> ~ (output = None /\ fname = "-") ->
   exists stem parts,
     fname = stem +:+ foldr String.append "" parts
     /\ Forall (fun e => In e strip) parts
     /\ (forall e, In e strip -> e <> "" -> Cli.endswith stem e = false)
     /\ Cli.write_output ext strip fname output output_directory
        = Cli.File (Cli.path_join output_directory (stem +:+ ext))).
Proof.
  split; [|split].
  - unfold Cli.write_output.
    destruct (decide (output = Some "-")) as [->|Hdash].
    + simpl. split; [left; reflexivity|reflexivity].
    + rewrite (bool_decide_eq_false_2 _ Hdash). cbn [orb].
      destruct output as [path|].
      * rewrite (bool_decide_eq_false_2 (Some path = None)) by discriminate. cbn [andb].
        split; [destruct (String.eqb path ""); discriminate|].
        intros [?|[? _]]; [contradiction|discriminate].
      * rewrite (bool_decide_eq_true_2 (None = None)) by reflexivity. cbn [andb].
        destruct (String.eqb_spec fname "-") as [->|Hname].
        -- split; [right; split; reflexivity|reflexivity].
        -- split; [discriminate|]. intros [?|[_ ?]]; [discriminate|contradiction].
  - intros path -> Hempty Hdash. unfold Cli.write_output.
    rewrite (bool_decide_eq_false_2 (Some path = Some "-")) by congruence.
    rewrite (bool_decide_eq_false_2 (Some path = None)) by discriminate. cbn [orb andb].
    destruct (String.eqb_spec path ""); [contradiction|reflexivity].
  - intros Hgiven Hstdin.
    destruct (strip_re_sub_split strip fname) as (removed & Hsplit & Hremoved).
    destruct (matches_star_parts strip _ _ Hremoved) as (parts & Hparts & ->).
    exists (Cli.strip_re_sub strip fname), parts.
    split; [exact Hsplit|]. split; [|split].
    + eapply Forall_impl; [exact Hparts|]. intros e [He _]. exact He.
    + intros e He Hne. destruct (Cli.endswith _ e) eqn:Hends; [|reflexivity].
      apply endswith_spec in Hends as [p Hp].
      pose proof (strip_re_sub_leftmost strip fname p
                    (e +:+ foldr String.append "" parts)) as Hleft.
      rewrite Hp, (length_append p e) in Hleft.
      assert (String.length e <> 0%nat) by (destruct e; [contradiction|discriminate]).
      enough (String.length p + String.length e <= String.length p)%nat by lia.
      apply Hleft.
      * rewrite Hsplit at 1. rewrite Hp. apply append_assoc.
      * apply matches_star_cons; assumption.
    + unfold Cli.write_output.
      destruct output as [path|]; simpl in Hgiven.
      * destruct (String.eqb_spec path "") as [->|]; [|discriminate]. reflexivity.
      * rewrite (bool_decide_eq_false_2 (None = Some "-")) by discriminate.
        rewrite (bool_decide_eq_true_2 (None = None)) by reflexivity. cbn [orb andb].
        destruct (String.eqb_spec fname "-") as [->|]; [|reflexivity].
        exfalso. apply Hstdin. split; reflexivity.
Qed.

Lemma output_names_drop_the_known_extensions_witness :
  exists stem parts,
    "proof.v.rst" = stem +:+ foldr String.append "" parts
    /\ Forall (fun e => In e [".v"; ".rst"]) parts
    /\ (forall e, In e [".v"; ".rst"] -> e <> "" -> Cli.endswith stem e = false)
    /\ Cli.write_output ".html" [".v"; ".rst"] "proof.v.rst" None "out"
       = Cli.File (Cli.path_join "out" (stem +:+ ".html")).
Proof.
  apply (proj2 (proj2 (output_names_drop_the_known_extensions
                         ".html" [".v"; ".rst"] "proof.v.rst" None "out"))).
  - reflexivity.
  - intros [_ Hname]. discriminate.
Defined.

(** ** The frontend of an extension *)
Ltac other_suffix fpath Hext :=
  match goal with
  | |- context [Cli.endswith fpath ?e] =>
      let Hother := fresh "Hother" in
      destruct (Cli.endswith fpath e) eqn:Hother;
      [exfalso;
       first [ rewrite (endswith_shorter fpath e _ Hother) in Hext by (simpl; lia);
               discriminate Hext
             | rewrite (endswith_shorter fpath _ e Hext) in Hother by (simpl; lia);
               discriminate Hother ]
      |]
  end.

(** X28: [infer_frontend] is decided by the extension of the path: no
    entry of [FRONTENDS_BY_EXTENSION] hides another, so a path that ends
    with an extension of the table is given the frontend of that entry, a
    frontend is only ever inferred from an extension of the table, and a
    path with none of them is rejected with an argument error. *)
Theorem frontend_follows_the_extension (fpath : string) :
  (forall ext frontend,
     In (ext, frontend) Cli.FRONTENDS_BY_EXTENSION -> Cli.endswith fpath ext = true ->
     Cli.infer_frontend fpath = Ok frontend) /\
  (forall frontend,
     Cli.infer_frontend fpath = Ok frontend ->
     exists ext, In (ext, frontend) Cli.FRONTENDS_BY_EXTENSION
                 /\ Cli.endswith fpath ext = true) /\
  ((forall ext frontend,
      In (ext, frontend) Cli.FRONTENDS_BY_EXTENSION -> Cli.endswith fpath ext = false) ->
   exists msg, Cli.infer_frontend fpath = Raise (ArgumentTypeError msg)).
Proof.
  split; [|split].
  - intros ext frontend Hin Hext. simpl in Hin.
    unfold Cli.infer_frontend, Cli.infer_mode, Cli.FRONTENDS_BY_EXTENSION.
    cbn [find fst snd].
    destruct Hin as [[= <- <-]|Hin]; [rewrite Hext; reflexivity|].
    destruct Hin as [[= <- <-]|Hin];
      [repeat other_suffix fpath Hext; rewrite Hext; reflexivity|].
    destruct Hin as [[= <- <-]|Hin];
      [repeat other_suffix fpath Hext; rewrite Hext; reflexivity|].
    destruct Hin as [[= <- <-]|Hin];
      [repeat other_suffix fpath Hext; rewrite Hext; reflexivity|].
    destruct Hin as [[= <- <-]|Hin];
      [repeat other_suffix fpath Hext; rewrite Hext; reflexivity|].
    destruct Hin as [[= <- <-]|Hin];
      [repeat other_suffix fpath Hext; rewrite Hext; reflexivity|].
    destruct Hin as [[= <- <-]|Hin];
      [repeat other_suffix fpath Hext; rewrite Hext; reflexivity|].
    destruct Hin.
  - intros frontend Hfe. exact (infer_mode_Ok _ _ _ _ _ Hfe).
  - intros Hnone. unfold Cli.infer_frontend, Cli.infer_mode.
    destruct (find _ Cli.FRONTENDS_BY_EXTENSION) as [[ext mode]|] eqn:Hfind; [|eauto].
    apply find_some in Hfind as [Hin Hext]. simpl in Hext.
    rewrite (Hnone ext mode Hin) in Hext. discriminate.
Qed.

Lemma frontend_follows_the_extension_witness :
  Cli.infer_frontend "src/proof.lean3.json" = Ok "lean3.json".
Proof.
  apply (proj1 (frontend_follows_the_extension "src/proof.lean3.json") ".lean3.json").
  - simpl. tauto.
  - reflexivity.
Defined.
